(** * HBC-Tool: the container model of hbctool.hbc.hbc86 and hbctool.hbc.hbc96

    A shallow embedding of the two container classes [HBC86] and [HBC96]
    (src/hbctool/hbc/hbc86/__init__.py and src/hbctool/hbc/hbc96/__init__.py):
    the function-header editor [setFunction], the string editor [setString]
    and the serialized-literal accessors [getArray], [getObjKey] and
    [getObjValue], followed by the properties of the specification that
    concern them.

    Python values are modelled as follows.
    - An [int] is a [Z]; [&], [|], [~] and [<<] are [Z.land], [Z.lor],
      [Z.lnot] and [Z.shiftl].
    - A [list] of ints (every raw buffer) is a [list Z]; indexing follows
      Python: a negative index counts from the end, an index out of range
      raises [IndexError].
    - A [dict] with string keys and integer values is a [gmap string Z]; a
      missing key raises [KeyError].
    - A [str] is the list of its code points.
    - An exception is a value of [exn]; a method of the container is a
      function from the container to an outcome and the container it leaves
      behind, so that what a failing call has already written stays
      visible. *)

From Stdlib Require Import ZArith List Lia.
From stdpp Require Import base gmap list strings.

Local Open Scope Z_scope.

(** ** Exceptions and outcomes *)

Inductive exn : Type :=
| AssertionError (msg : string)
| IndexError
| KeyError (key : string)
| ValueError
| StructError
| UnicodeEncodeError
| TranslatorError.

Inductive result (A : Type) : Type :=
| Ok (a : A)
| Raise (e : exn).

Arguments Ok {A} a.
Arguments Raise {A} e.

Definition rbind {A B : Type} (r : result A) (k : A -> result B) : result B :=
  match r with
  | Ok a => k a
  | Raise e => Raise e
  end.

Declare Scope res_scope.
Delimit Scope res_scope with res.

Notation "x <- c1 ;; c2" := (rbind c1 (fun x => c2))
  (at level 100, c1 at next level, right associativity) : res_scope.
Notation "c1 ;; c2" := (rbind c1 (fun _ => c2))
  (at level 100, right associativity) : res_scope.

Definition of_option {A : Type} (e : exn) (o : option A) : result A :=
  match o with
  | Some a => Ok a
  | None => Raise e
  end.

(** ** Python lists, dicts, bytes and strings *)

Definition len {A : Type} (l : list A) : Z := Z.of_nat (length l).

(** The position a Python index [k] denotes in a list of [n] items. *)
Definition py_index (n : nat) (k : Z) : option nat :=
  if 0 <=? k then
    if k <? Z.of_nat n then Some (Z.to_nat k) else None
  else
    if - Z.of_nat n <=? k then Some (Z.to_nat (Z.of_nat n + k)) else None.

(** [l[k]] *)
Definition py_getitem {A : Type} (l : list A) (k : Z) : result A :=
  of_option IndexError (i ← py_index (length l) k; l !! i).

(** [l[k] = v] *)
Definition py_setitem {A : Type} (l : list A) (k : Z) (v : A) : result (list A) :=
  of_option IndexError ((fun i => <[i:=v]> l) <$> py_index (length l) k).

(** A slice bound, clamped as Python does. *)
Definition py_bound (n : nat) (k : Z) : nat :=
  if k <? 0 then Z.to_nat (Z.max 0 (Z.of_nat n + k))
  else Z.to_nat (Z.min k (Z.of_nat n)).

(** [l[a:b]] *)
Definition py_slice {A : Type} (l : list A) (a b : Z) : list A :=
  let i := py_bound (length l) a in
  let j := py_bound (length l) b in
  take (j - i)%nat (drop i l).

(** [d[key]] *)
Definition dict_get (d : gmap string Z) (key : string) : result Z :=
  of_option (KeyError key) (d !! key).

(** [bytes(l)]: every item must be in [range(256)]. *)
Definition py_bytes (l : list Z) : result (list Z) :=
  if forallb (fun b => (0 <=? b) && (b <? 256)) l then Ok l else Raise ValueError.

Fixpoint le_value (bs : list Z) : Z :=
  match bs with
  | [] => 0
  | b :: bs' => b + 256 * le_value bs'
  end.

(** [unpack(fmt, bs)[0]] for a little-endian unsigned format of [n] bytes:
    the buffer must have exactly [n] bytes. *)
Definition unpack_le (n : nat) (bs : list Z) : result Z :=
  if Nat.eqb (length bs) n then Ok (le_value bs) else Raise StructError.

(** A Python [str]: its code points. *)
Definition pystr : Type := list Z.

(** [c.encode("utf-8")] for one code point; surrogates cannot be encoded. *)
Definition utf8_char (c : Z) : result (list Z) :=
  if (c <? 0) || (0x10FFFF <? c) then Raise ValueError
  else if c <? 0x80 then Ok [c]
  else if c <? 0x800 then
    Ok [Z.lor 0xC0 (Z.shiftr c 6); Z.lor 0x80 (Z.land c 0x3F)]
  else if (0xD800 <=? c) && (c <=? 0xDFFF) then Raise UnicodeEncodeError
  else if c <? 0x10000 then
    Ok [Z.lor 0xE0 (Z.shiftr c 12);
        Z.lor 0x80 (Z.land (Z.shiftr c 6) 0x3F);
        Z.lor 0x80 (Z.land c 0x3F)]
  else
    Ok [Z.lor 0xF0 (Z.shiftr c 18);
        Z.lor 0x80 (Z.land (Z.shiftr c 12) 0x3F);
        Z.lor 0x80 (Z.land (Z.shiftr c 6) 0x3F);
        Z.lor 0x80 (Z.land c 0x3F)].

(** [val.encode("utf-8")] *)
Fixpoint utf8_encode (val : pystr) : result (list Z) :=
  match val with
  | [] => Ok []
  | c :: val' =>
      (bs <- utf8_char c ;;
       rest <- utf8_encode val' ;;
       Ok (bs ++ rest))%res
  end.

Definition hex_digit (c : Z) : option Z :=
  if (48 <=? c) && (c <=? 57) then Some (c - 48)
  else if (97 <=? c) && (c <=? 102) then Some (c - 87)
  else if (65 <=? c) && (c <=? 70) then Some (c - 55)
  else None.

Definition is_space (c : Z) : bool :=
  (c =? 32) || ((9 <=? c) && (c <=? 13)).

(** [bytes.fromhex(val)]: two hexadecimal digits per byte, ASCII whitespace
    allowed between bytes. *)
Fixpoint fromhex (val : pystr) : result (list Z) :=
  match val with
  | [] => Ok []
  | c :: val' =>
      if is_space c then fromhex val'
      else
        match hex_digit c, val' with
        | Some h, d :: val'' =>
            match hex_digit d with
            | Some l => (rest <- fromhex val'' ;; Ok ((16 * h + l) :: rest))%res
            | None => Raise ValueError
            end
        | _, _ => Raise ValueError
        end
  end.

(** ** The container

    [obj] is the dict the parser returns. Its entries are the fields of
    [Container]; the dicts inside it keep their string keys. A function
    header is a dict of integers that may also hold, under the key
    ["small"], a second dict of integers: [fields] is the former and
    [small] the latter. *)

Record FunctionHeader : Type := mkFunctionHeader {
  fields : gmap string Z;
  small : option (gmap string Z)
}.

Record Container : Type := mkContainer {
  header : gmap string Z;
  functionHeaders : list FunctionHeader;
  stringTableEntries : list (gmap string Z);
  stringTableOverflowEntries : list (gmap string Z);
  stringStorage : list Z;
  arrayBuffer : list Z;
  objKeyBuffer : list Z;
  objValueBuffer : list Z;
  instOffset : Z;
  inst : list Z
}.

Definition set_functionHeaders (hs : list FunctionHeader) (o : Container) : Container :=
  mkContainer (header o) hs (stringTableEntries o) (stringTableOverflowEntries o)
    (stringStorage o) (arrayBuffer o) (objKeyBuffer o) (objValueBuffer o)
    (instOffset o) (inst o).

Definition set_stringStorage (b : list Z) (o : Container) : Container :=
  mkContainer (header o) (functionHeaders o) (stringTableEntries o)
    (stringTableOverflowEntries o) b (arrayBuffer o) (objKeyBuffer o)
    (objValueBuffer o) (instOffset o) (inst o).

Definition set_inst (b : list Z) (o : Container) : Container :=
  mkContainer (header o) (functionHeaders o) (stringTableEntries o)
    (stringTableOverflowEntries o) (stringStorage o) (arrayBuffer o)
    (objKeyBuffer o) (objValueBuffer o) (instOffset o) b.

(** [functionHeader[key] = v] *)
Definition set_field (key : string) (v : Z) (h : FunctionHeader) : FunctionHeader :=
  mkFunctionHeader (<[key:=v]> (fields h)) (small h).

(** ** Methods: state and exceptions *)

Definition M (A : Type) : Type := Container -> result A * Container.

Definition ret {A : Type} (a : A) : M A := fun o => (Ok a, o).

Definition bind {A B : Type} (m : M A) (k : A -> M B) : M B :=
  fun o =>
    match m o with
    | (Ok a, o') => k a o'
    | (Raise e, o') => (Raise e, o')
    end.

Definition raise {A : Type} (e : exn) : M A := fun o => (Raise e, o).

Definition gets {A : Type} (f : Container -> A) : M A := fun o => (Ok (f o), o).

Definition modify (f : Container -> Container) : M unit := fun o => (Ok tt, f o).

Definition lift {A : Type} (r : result A) : M A := fun o => (r, o).

(** [assert b, msg] *)
Definition assert (b : bool) (msg : string) : M unit :=
  if b then ret tt else raise (AssertionError msg).

Declare Scope meth_scope.
Delimit Scope meth_scope with meth.

Notation "x <- c1 ;; c2" := (bind c1 (fun x => c2))
  (at level 100, c1 at next level, right associativity) : meth_scope.
Notation "c1 ;; c2" := (bind c1 (fun _ => c2))
  (at level 100, right associativity) : meth_scope.

(** Modelled from the spec: [memcpy] of [hbctool.util], which is not among
    the sources. The specification calls it an in-place byte-range copy
    and uses it to replace exactly [length] items of [dest] from [start]
    on: [dest[start + i] = src[i]] for [i] in [range(length)]. The copy
    writes in place, so the items written before an [IndexError] stay
    written. *)
Fixpoint memcpy_from (i : nat) (n : nat) (dest src : list Z) (start : Z)
  : result unit * list Z :=
  match n with
  | O => (Ok tt, dest)
  | S n' =>
      match (v <- py_getitem src (Z.of_nat i) ;;
             py_setitem dest (start + Z.of_nat i) v)%res with
      | Ok dest' => memcpy_from (S i) n' dest' src start
      | Raise e => (Raise e, dest)
      end
  end.

Definition memcpy (dest src : list Z) (start length : Z) : result unit * list Z :=
  memcpy_from 0 (Z.to_nat length) dest src start.

(** [self.getObj()["header"][key]] *)
Definition getHeaderField (key : string) : M Z :=
  fun o => (dict_get (header o) key, o).

Definition getFunctionCount : M Z := getHeaderField "functionCount".
Definition getStringCount : M Z := getHeaderField "stringCount".
Definition getArrayBufferSize : M Z := getHeaderField "arrayBufferSize".
Definition getObjKeyBufferSize : M Z := getHeaderField "objKeyBufferSize".
Definition getObjValueBufferSize : M Z := getHeaderField "objValueBufferSize".

(** The header dict [functionHeader] is a reference into
    [obj["functionHeaders"]]: a write to it is a write to entry [fid]. *)
Definition getFunctionHeader (fid : Z) : M FunctionHeader :=
  fun o => (py_getitem (functionHeaders o) fid, o).

Definition updFunctionHeader (fid : Z) (f : FunctionHeader -> FunctionHeader) : M unit :=
  modify (fun o => set_functionHeaders (alter f (Z.to_nat fid) (functionHeaders o)) o).

(** [functionHeader[key]] *)
Definition getFunctionField (fid : Z) (key : string) : M Z :=
  (h <- getFunctionHeader fid ;; lift (dict_get (fields h) key))%meth.

(** [self.getObj()["inst"].extend([0] * n)] *)
Definition extendInst (n : Z) : M unit :=
  modify (fun o => set_inst (inst o ++ replicate (Z.to_nat n) 0) o).

(** [memcpy(self.getObj()["inst"], bc, start, length)] *)
Definition memcpyInst (bc : list Z) (start length : Z) : M unit :=
  fun o => let r := memcpy (inst o) bc start length in (r.1, set_inst r.2 o).

(** [memcpy(stringStorage, s, offset, length)] *)
Definition memcpyStringStorage (s : list Z) (offset length : Z) : M unit :=
  fun o => let r := memcpy (stringStorage o) s offset length in
           (r.1, set_stringStorage r.2 o).

(** ** The payload of [setFunction]

    [func] is the tuple [(functionName, paramCount, registerCount,
    symbolCount, insts, _)]. With [disasm=False] the item [insts] is the
    bytecode itself ([Raw]); with [disasm=True] it is a list of
    instructions that the translator's [assemble] lowers to bytes
    ([Asm]). *)

Inductive Insts (Inst : Type) : Type :=
| Raw (bc : list Z)
| Asm (insts : list Inst).

Arguments Raw {Inst} bc.
Arguments Asm {Inst} insts.

Record Func (Inst : Type) : Type := mkFunc {
  functionName : pystr;
  paramCount : Z;
  registerCount : Z;
  symbolCount : Z;
  insts : Insts Inst
}.

Arguments mkFunc {Inst}.
Arguments functionName {Inst}.
Arguments paramCount {Inst}.
Arguments registerCount {Inst}.
Arguments symbolCount {Inst}.
Arguments insts {Inst}.

(** The keys copied into a fresh ["small"] dict. *)
Definition small_keys : list string :=
  ["offset"; "paramCount"; "bytecodeSizeInBytes"; "functionName";
   "infoOffset"; "frameSize"; "environmentSize"; "highestReadCacheIndex";
   "highestWriteCacheIndex"; "flags"]%string.

(** [for key in [...]: if key in functionHeader: small[key] = functionHeader[key]] *)
Definition copy_keys (keys : list string) (fh : gmap string Z) : gmap string Z :=
  foldl (fun sm key =>
           match fh !! key with
           | Some v => <[key:=v]> sm
           | None => sm
           end) ∅ keys.

(** [(1 << 15) - 1] *)
Definition max_small_size : Z := Z.shiftl 1 15 - 1.

(** [1 << 5], the overflowed bit of [flags]. *)
Definition overflowed_bit : Z := Z.shiftl 1 5.

Definition flags_or_zero (h : FunctionHeader) : Z := default 0 (fields h !! "flags").

(** [bc = insts], then [bc = assemble(insts)] when [disasm] is true. *)
Definition bytecode {Inst : Type} (assemble : list Inst -> result (list Z))
    (func : Func Inst) : result (list Z) :=
  match insts func with
  | Raw bc => Ok bc
  | Asm l => assemble l
  end.

(** [fid >= 0 and fid < count], with the count read only when [fid >= 0]. *)
Definition in_range (fid : Z) (count : M Z) : M bool :=
  if 0 <=? fid then (n <- count ;; ret (fid <? n))%meth else ret false.

(** ** HBC86 *)

Module HBC86.

(** Lines 100 to 147 of [HBC86.setFunction]: the header's bytecode size and
    its overflow bookkeeping. Nothing in this block can raise, so it is a
    function of the header. *)
Definition resize (original_size new_size : Z) (h : FunctionHeader) : FunctionHeader :=
  if new_size >? max_small_size then
    let h1 :=
      match fields h !! "flags" with
      | None => set_field "flags" 0 h
      | Some _ => h
      end in
    let h2 := set_field "flags" (Z.lor (flags_or_zero h1) overflowed_bit) h1 in
    let h3 :=
      match small h2 with
      | None =>
          let sm := copy_keys small_keys (fields h2) in
          let sm := <["bytecodeSizeInBytes" := Z.min original_size max_small_size]> sm in
          let sm := <["flags" := flags_or_zero h2]> sm in
          mkFunctionHeader (fields h2) (Some sm)
      | Some _ => h2
      end in
    set_field "bytecodeSizeInBytes" new_size h3
  else
    if (new_size <=? original_size) || (original_size <=? max_small_size) then
      let h1 := set_field "bytecodeSizeInBytes" new_size h in
      let h2 :=
        match fields h1 !! "flags" with
        | Some f => set_field "flags" (Z.land f (Z.lnot overflowed_bit)) h1
        | None => h1
        end in
      match small h2 with
      | Some _ =>
          if new_size <=? max_small_size then mkFunctionHeader (fields h2) None
          else h2
      | None => h2
      end
    else
      set_field "bytecodeSizeInBytes" new_size h.

Section WithTranslator.

Variable Inst : Type.
Variable assemble : list Inst -> result (list Z).

Definition setFunction (fid : Z) (func : Func Inst) : M unit :=
  (ok <- in_range fid getFunctionCount ;;
   assert ok "Invalid function ID" ;;
   _ <- getFunctionHeader fid ;;
   updFunctionHeader fid (set_field "paramCount" (paramCount func)) ;;
   updFunctionHeader fid (set_field "frameSize" (registerCount func)) ;;
   updFunctionHeader fid (set_field "environmentSize" (symbolCount func)) ;;
   offset <- getFunctionField fid "offset" ;;
   bytecodeSizeInBytes <- getFunctionField fid "bytecodeSizeInBytes" ;;
   instOffset <- gets instOffset ;;
   let start := offset - instOffset in
   bc <- lift (bytecode assemble func) ;;
   let original_size := bytecodeSizeInBytes in
   let new_size := len bc in
   n <- gets (fun o => len (inst o)) ;;
   (if start + new_size >? n
    then extendInst (start + new_size - n)
    else ret tt) ;;
   updFunctionHeader fid (resize original_size new_size) ;;
   memcpyInst bc start (len bc))%meth.

End WithTranslator.

Arguments setFunction {Inst} assemble fid func.

End HBC86.

(** ** HBC96 *)

Module HBC96.

(** Lines 101 to 124 of [HBC96.setFunction]. *)
Definition resize (bytecodeSizeInBytes new_size : Z) (h : FunctionHeader) : FunctionHeader :=
  if new_size >? Z.shiftl 1 15 - 1 then
    let h2 := set_field "flags" (Z.lor (flags_or_zero h) (Z.shiftl 1 5)) h in
    let h3 :=
      match small h2 with
      | None =>
          let sm := copy_keys small_keys (fields h2) in
          let sm := <["bytecodeSizeInBytes" :=
                        Z.min bytecodeSizeInBytes (Z.shiftl 1 15 - 1)]> sm in
          let sm := <["flags" := flags_or_zero h2]> sm in
          mkFunctionHeader (fields h2) (Some sm)
      | Some _ => h2
      end in
    set_field "bytecodeSizeInBytes" new_size h3
  else
    set_field "bytecodeSizeInBytes" new_size h.

Section WithTranslator.

Variable Inst : Type.
Variable assemble : list Inst -> result (list Z).

Definition setFunction (fid : Z) (func : Func Inst) : M unit :=
  (ok <- in_range fid getFunctionCount ;;
   assert ok "Invalid function ID" ;;
   _ <- getFunctionHeader fid ;;
   updFunctionHeader fid (set_field "paramCount" (paramCount func)) ;;
   updFunctionHeader fid (set_field "frameSize" (registerCount func)) ;;
   updFunctionHeader fid (set_field "environmentSize" (symbolCount func)) ;;
   offset <- getFunctionField fid "offset" ;;
   bytecodeSizeInBytes <- getFunctionField fid "bytecodeSizeInBytes" ;;
   instOffset <- gets instOffset ;;
   let start := offset - instOffset in
   bc <- lift (bytecode assemble func) ;;
   (if len bc >? bytecodeSizeInBytes then
      n <- gets (fun o => len (inst o)) ;;
      if start + len bc >? n
      then extendInst (start + len bc - n)
      else ret tt
    else ret tt) ;;
   updFunctionHeader fid (resize bytecodeSizeInBytes (len bc)) ;;
   memcpyInst bc start (len bc))%meth.

End WithTranslator.

Arguments setFunction {Inst} assemble fid func.

End HBC96.

(** ** Members that the two classes define with the same text *)

Section Strings.

(** [INVALID_LENGTH] of the parser module, which is not among the sources. *)
Variable INVALID_LENGTH : Z.

Definition getStringTableEntry (sid : Z) : M (gmap string Z) :=
  fun o => (py_getitem (stringTableEntries o) sid, o).

Definition getStringTableOverflowEntry (i : Z) : M (gmap string Z) :=
  fun o => (py_getitem (stringTableOverflowEntries o) i, o).

(** The slot [(isUTF16, offset, length)] of string [sid], as [getString] and
    [setString] both resolve it. *)
Definition resolveString (sid : Z) : M (Z * Z * Z) :=
  (stringTableEntry <- getStringTableEntry sid ;;
   isUTF16 <- lift (dict_get stringTableEntry "isUTF16") ;;
   offset <- lift (dict_get stringTableEntry "offset") ;;
   length <- lift (dict_get stringTableEntry "length") ;;
   if length >=? INVALID_LENGTH then
     stringTableOverflowEntry <- getStringTableOverflowEntry offset ;;
     offset' <- lift (dict_get stringTableOverflowEntry "offset") ;;
     length' <- lift (dict_get stringTableOverflowEntry "length") ;;
     ret (isUTF16, offset', length')
   else ret (isUTF16, offset, length))%meth.

Definition setString (sid : Z) (val : pystr) : M unit :=
  (ok <- in_range sid getStringCount ;;
   assert ok "Invalid string ID" ;;
   slot <- resolveString sid ;;
   let isUTF16 := slot.1.1 in
   let offset := slot.1.2 in
   let length := slot.2 in
   sl <- lift (if negb (isUTF16 =? 0) then
                 (s <- fromhex val ;; Ok (s, len s `div` 2))%res
               else
                 (s <- utf8_encode val ;; Ok (s, len val))%res) ;;
   let s := sl.1 in
   let l := sl.2 in
   assert (l <=? length) "Overflowed string length is not supported yet." ;;
   memcpyStringStorage s offset (len s))%meth.

End Strings.

(** *** Serialized literals *)

Definition NullTag : Z := 0.
Definition TrueTag : Z := Z.shiftl 1 4.
Definition FalseTag : Z := Z.shiftl 2 4.
Definition NumberTag : Z := Z.shiftl 3 4.
Definition LongStringTag : Z := Z.shiftl 4 4.
Definition ShortStringTag : Z := Z.shiftl 5 4.
Definition ByteStringTag : Z := Z.shiftl 6 4.
Definition IntegerTag : Z := Z.shiftl 7 4.
Definition TagMask : Z := 0x70.

(** The values a literal decodes to. A double is kept as the 64-bit pattern
    [unpack("<d", ...)] reads. *)
Inductive value : Type :=
| VInt (n : Z)
| VNumber (bits : Z)
| VNone
| VBool (b : bool).

Definition _checkBufferTag (buf : list Z) (iid : Z) : result (Z * Z) :=
  (keyTag <- py_getitem buf iid ;;
   if negb (Z.land keyTag 0x80 =? 0) then
     next <- py_getitem buf (iid + 1) ;;
     Ok (Z.lor (Z.shiftl (Z.land keyTag 0x0f) 8) next, Z.land keyTag TagMask)
   else
     Ok (Z.land keyTag 0x0f, Z.land keyTag TagMask))%res.

Definition _SLPToString (tag : Z) (buf : list Z) (iid ind : Z)
  : result (string * value * Z) :=
  let start := iid + ind in
  (if tag =? ByteStringTag then
     val <- py_getitem buf start ;;
     Ok ("String"%string, VInt val, ind + 1)
   else if tag =? ShortStringTag then
     bs <- py_bytes (py_slice buf start (start + 2)) ;;
     val <- unpack_le 2 bs ;;
     Ok ("String"%string, VInt val, ind + 2)
   else if tag =? LongStringTag then
     bs <- py_bytes (py_slice buf start (start + 4)) ;;
     val <- unpack_le 4 bs ;;
     Ok ("String"%string, VInt val, ind + 4)
   else if tag =? NumberTag then
     bs <- py_bytes (py_slice buf start (start + 8)) ;;
     val <- unpack_le 8 bs ;;
     Ok ("Number"%string, VNumber val, ind + 8)
   else if tag =? IntegerTag then
     bs <- py_bytes (py_slice buf start (start + 4)) ;;
     val <- unpack_le 4 bs ;;
     Ok ("Integer"%string, VInt val, ind + 4)
   else if tag =? NullTag then
     Ok ("Null"%string, VNone, ind)
   else if tag =? TrueTag then
     Ok ("Boolean"%string, VBool true, ind)
   else if tag =? FalseTag then
     Ok ("Boolean"%string, VBool false, ind)
   else
     Ok ("Empty"%string, VNone, ind))%res.

(** The loop [for _ in range(count): t, val, ind = ...; arr.append(val)] of
    the three accessors, with [t], [arr] and [ind] as they stand. *)
Fixpoint decode_loop (count : nat) (tag : Z) (buf : list Z) (id : Z)
    (t : option string) (arr : list value) (ind : Z)
  : result (option string * list value) :=
  match count with
  | O => Ok (t, arr)
  | S count' =>
      (r <- _SLPToString tag buf id ind ;;
       decode_loop count' tag buf id (Some r.1.1) (arr ++ [r.1.2]) r.2)%res
  end.

(** [ind = 2 if tag[0] > 0x0f else 1] *)
Definition first_ind (tag : Z * Z) : Z := if tag.1 >? 0x0f then 2 else 1.

Definition getArray (aid : Z) (o : Container) : result (option string * list value) :=
  (ok <- (if 0 <=? aid
          then n <- dict_get (header o) "arrayBufferSize" ;; Ok (aid <? n)
          else Ok false) ;;
   if ok : bool then
     tag <- _checkBufferTag (arrayBuffer o) aid ;;
     decode_loop (Z.to_nat tag.1) tag.2 (arrayBuffer o) aid None [] (first_ind tag)
   else Raise (AssertionError "Invalid Array ID"))%res.

Definition getObjKey (kid : Z) (o : Container) : result (option string * list value) :=
  (ok <- (if 0 <=? kid
          then n <- dict_get (header o) "objKeyBufferSize" ;; Ok (kid <? n)
          else Ok false) ;;
   if ok : bool then
     tag <- _checkBufferTag (objKeyBuffer o) kid ;;
     decode_loop (Z.to_nat tag.1) tag.2 (objKeyBuffer o) kid None [] (first_ind tag)
   else Raise (AssertionError "Invalid ObjKey ID"))%res.

Definition getObjValue (vid : Z) (o : Container) : result (option string * list value) :=
  (ok <- (if 0 <=? vid
          then n <- dict_get (header o) "objValueBufferSize" ;; Ok (vid <? n)
          else Ok false) ;;
   if ok : bool then
     tag <- _checkBufferTag (objValueBuffer o) vid ;;
     decode_loop (Z.to_nat tag.1) tag.2 (objValueBuffer o) vid None [] (first_ind tag)
   else Raise (AssertionError "Invalid ObjValue ID"))%res.

(** ** Auxiliary definitions *)

(** The writes [memcpy] performs on a destination of [n0] items, with
    positions resolved, up to the first index that is out of range. *)
Fixpoint memcpy_trace (i n : nat) (n0 : nat) (src : list Z) (start : Z)
  : result unit * list (nat * Z) :=
  match n with
  | O => (Ok tt, [])
  | S n' =>
      match py_getitem src (Z.of_nat i), py_index n0 (start + Z.of_nat i) with
      | Ok v, Some p =>
          let r := memcpy_trace (S i) n' n0 src start in (r.1, (p, v) :: r.2)
      | Ok _, None => (Raise IndexError, [])
      | Raise e, _ => (Raise e, [])
      end
  end.

Definition apply_writes (d : list Z) (ws : list (nat * Z)) : list Z :=
  foldl (fun d w => <[w.1:=w.2]> d) d ws.

(** The three header fields [setFunction] writes first. *)
Definition set_params {Inst : Type} (func : Func Inst) (h : FunctionHeader)
  : FunctionHeader :=
  set_field "environmentSize" (symbolCount func)
    (set_field "frameSize" (registerCount func)
       (set_field "paramCount" (paramCount func) h)).

(** [setFunction] with its steps laid out as one case analysis. The two
    classes differ in [grows], which says whether the instruction buffer is
    looked at for growth, and in [resize]. [setFunction_write] is the part
    that follows the three writes: [h1] is the header as they leave it and
    [o1] the container that holds it at [fid]. *)
Definition setFunction_write {Inst : Type}
    (grows : Z -> Z -> bool)
    (resize : Z -> Z -> FunctionHeader -> FunctionHeader)
    (assemble : list Inst -> result (list Z))
    (fid : Z) (func : Func Inst) (h1 : FunctionHeader) : M unit :=
  fun o1 =>
    match dict_get (fields h1) "offset" with
    | Raise e => (Raise e, o1)
    | Ok offset =>
        match dict_get (fields h1) "bytecodeSizeInBytes" with
        | Raise e => (Raise e, o1)
        | Ok size =>
            match bytecode assemble func with
            | Raise e => (Raise e, o1)
            | Ok bc =>
                let start := offset - instOffset o1 in
                let buf :=
                  if grows size (len bc) && (start + len bc >? len (inst o1))
                  then inst o1 ++
                       replicate (Z.to_nat (start + len bc - len (inst o1))) 0
                  else inst o1 in
                let r := memcpy buf bc start (len bc) in
                (r.1,
                 set_inst r.2
                   (set_functionHeaders
                      (<[Z.to_nat fid:=resize size (len bc) h1]>
                         (functionHeaders o1)) o1))
            end
        end
    end.

Definition setFunction_cases {Inst : Type}
    (grows : Z -> Z -> bool)
    (resize : Z -> Z -> FunctionHeader -> FunctionHeader)
    (assemble : list Inst -> result (list Z))
    (fid : Z) (func : Func Inst) : M unit :=
  fun o =>
    if 0 <=? fid then
      match dict_get (header o) "functionCount" with
      | Raise e => (Raise e, o)
      | Ok count =>
          if fid <? count then
            match functionHeaders o !! Z.to_nat fid with
            | None => (Raise IndexError, o)
            | Some h =>
                setFunction_write grows resize assemble fid func
                  (set_params func h)
                  (set_functionHeaders
                     (<[Z.to_nat fid:=set_params func h]> (functionHeaders o))
                     o)
            end
          else (Raise (AssertionError "Invalid function ID"), o)
      end
    else (Raise (AssertionError "Invalid function ID"), o).

(** [flags & (1 << 5) != 0], false when the header has no ["flags"]. *)
Definition overflowed (h : FunctionHeader) : bool :=
  match fields h !! "flags" with
  | Some f => negb (Z.land f (Z.shiftl 1 5) =? 0)
  | None => false
  end.

(** The two invariants of the specification that relate the overflowed bit
    and the ["small"] dict of one header. *)
Definition header_ok (h : FunctionHeader) : Prop :=
  (overflowed h = true <-> is_Some (small h)) /\
  forall sm, small h = Some sm ->
    (exists z, sm !! "bytecodeSizeInBytes" = Some z /\ z <= 32767) /\
    sm !! "flags" = fields h !! "flags".

(** The two classes. *)
Inductive version : Type := V86 | V96.

Definition setFunction {Inst : Type} (v : version)
    (assemble : list Inst -> result (list Z)) (fid : Z) (func : Func Inst)
  : M unit :=
  match v with
  | V86 => HBC86.setFunction assemble fid func
  | V96 => HBC96.setFunction assemble fid func
  end.

(** The invariant on every function header of a container. *)
Definition invariant (o : Container) : Prop :=
  forall (i : nat) (h : FunctionHeader),
    functionHeaders o !! i = Some h -> header_ok h.

(** A call of one of the two mutators, and the container a sequence of
    calls leaves, whether the calls return or raise. *)
Inductive call (Inst : Type) : Type :=
| SetFunction (fid : Z) (func : Func Inst)
| SetString (sid : Z) (val : pystr).

Arguments SetFunction {Inst} fid func.
Arguments SetString {Inst} sid val.

Definition run_call {Inst : Type} (v : version)
    (assemble : list Inst -> result (list Z)) (INVALID_LENGTH : Z)
    (o : Container) (c : call Inst) : Container :=
  match c with
  | SetFunction fid func => (setFunction v assemble fid func o).2
  | SetString sid val => (setString INVALID_LENGTH sid val o).2
  end.

Definition run_calls {Inst : Type} (v : version)
    (assemble : list Inst -> result (list Z)) (INVALID_LENGTH : Z)
    (cs : list (call Inst)) (o : Container) : Container :=
  foldl (run_call v assemble INVALID_LENGTH) o cs.

(** ** The fixture of run_tests.py *)

Definition mock_header : FunctionHeader :=
  mkFunctionHeader
    (list_to_map
       [("offset", 0x1000); ("paramCount", 1); ("frameSize", 2);
        ("environmentSize", 0); ("bytecodeSizeInBytes", 100);
        ("functionName", 0); ("infoOffset", 0);
        ("highestReadCacheIndex", 0); ("highestWriteCacheIndex", 0);
        ("flags", 0)]%string)
    None.

Definition mock_obj : Container :=
  mkContainer
    (list_to_map
       [("functionCount", 1); ("stringCount", 1); ("arrayBufferSize", 0);
        ("objKeyBufferSize", 0); ("objValueBufferSize", 0)]%string)
    [mock_header]
    [list_to_map [("isUTF16", 0); ("offset", 0); ("length", 4)]%string]
    []
    [116; 101; 115; 116]
    [] [] []
    0x1000
    (replicate (Z.to_nat 50000) 0).

(** A translator whose [assemble] rejects every instruction list; the
    instructions are left abstract as numbers. *)
Definition rejecting_assemble : list Z -> result (list Z) :=
  fun _ => Raise TranslatorError.

(** [(name, paramCount, registerCount, symbolCount, bc, header)] with
    [disasm=False], for the function the fixture holds. *)
Definition raw_func (paramCount registerCount : Z) (bc : list Z) : Func Z :=
  mkFunc [116; 101; 115; 116] paramCount registerCount 0 (Raw bc).

(** A container that holds only the three literal buffers, with the sizes
    its header records for them. *)
Definition slp_obj (a k v : list Z) : Container :=
  mkContainer
    (list_to_map
       [("arrayBufferSize", len a); ("objKeyBufferSize", len k);
        ("objValueBufferSize", len v)]%string)
    [] [] [] [] a k v 0 [].

(** The array buffer of scenario 6 of the specification. *)
Definition scenario6_buffer : list Z :=
  [0x77; 0x01; 0x00; 0x02; 0x00; 0x03; 0x00; 0x04; 0x00; 0x05; 0x00; 0x06;
   0x00; 0x07; 0x00].

(** The same payload under the tag byte of [ShortStringTag] with count 7. *)
Definition short_string_buffer : list Z :=
  [0x57; 0x01; 0x00; 0x02; 0x00; 0x03; 0x00; 0x04; 0x00; 0x05; 0x00; 0x06;
   0x00; 0x07; 0x00].

(** A group whose tag has the length-extension bit set, the kind
    [ByteStringTag] and the 12-bit count 2, followed by the payloads 5
    and 6. *)
Definition extended_small_buffer : list Z := [0xE0; 0x02; 0x05; 0x06].

(** The six kind labels. *)
Definition kind_labels : list string :=
  ["String"; "Number"; "Integer"; "Null"; "Boolean"; "Empty"]%string.

(** A container with one string slot of four characters at the start of a
    storage of eight bytes, ["testABCD"]. *)
Definition string_obj : Container :=
  mkContainer
    (list_to_map [("stringCount", 1)]%string)
    []
    [list_to_map [("isUTF16", 0); ("offset", 0); ("length", 4)]%string]
    []
    [116; 101; 115; 116; 65; 66; 67; 68]
    [] [] []
    0
    [].

(** The string of four times U+00E9, two bytes each in UTF-8. *)
Definition four_e_acute : pystr := [0xE9; 0xE9; 0xE9; 0xE9].

(** The string of the lone surrogate U+D800. *)
Definition lone_surrogate : pystr := [0xD800].

(** [(name, 7, 8, 9, insts, header)] with [disasm=True]: one instruction,
    to be assembled. *)
Definition asm_func : Func Z := mkFunc [116; 101; 115; 116] 7 8 9 (Asm [0]).

(** ** The readers [getString] and [getFunction]

    Both classes define them with the same text. *)

(** [s.hex()]: two lowercase hexadecimal digits per byte. *)
Definition hex_char (d : Z) : Z := if d <? 10 then 48 + d else 87 + d.

Definition hex (s : list Z) : pystr :=
  concat (map (fun b => [hex_char (b `div` 16); hex_char (b `mod` 16)]) s).

Definition byte_in (lo hi b : Z) : bool := (lo <=? b) && (b <=? hi).

(** [s.decode("utf-8")], the strict decoder: shortest forms only, no
    surrogates, nothing above U+10FFFF. Its [UnicodeDecodeError] is a
    [ValueError]. *)
Fixpoint utf8_decode (s : list Z) : result pystr :=
  match s with
  | [] => Ok []
  | b1 :: s1 =>
      if byte_in 0x00 0x7F b1 then
        (rest <- utf8_decode s1 ;; Ok (b1 :: rest))%res
      else if byte_in 0xC2 0xDF b1 then
        match s1 with
        | b2 :: s2 =>
            if byte_in 0x80 0xBF b2 then
              (rest <- utf8_decode s2 ;;
               Ok (((b1 - 0xC0) * 64 + (b2 - 0x80)) :: rest))%res
            else Raise ValueError
        | _ => Raise ValueError
        end
      else if byte_in 0xE0 0xEF b1 then
        match s1 with
        | b2 :: b3 :: s3 =>
            if byte_in (if b1 =? 0xE0 then 0xA0 else 0x80)
                       (if b1 =? 0xED then 0x9F else 0xBF) b2
               && byte_in 0x80 0xBF b3 then
              (rest <- utf8_decode s3 ;;
               Ok (((b1 - 0xE0) * 4096 + (b2 - 0x80) * 64 + (b3 - 0x80))
                     :: rest))%res
            else Raise ValueError
        | _ => Raise ValueError
        end
      else if byte_in 0xF0 0xF4 b1 then
        match s1 with
        | b2 :: b3 :: b4 :: s4 =>
            if byte_in (if b1 =? 0xF0 then 0x90 else 0x80)
                       (if b1 =? 0xF4 then 0x8F else 0xBF) b2
               && byte_in 0x80 0xBF b3 && byte_in 0x80 0xBF b4 then
              (rest <- utf8_decode s4 ;;
               Ok (((b1 - 0xF0) * 262144 + (b2 - 0x80) * 4096
                    + (b3 - 0x80) * 64 + (b4 - 0x80)) :: rest))%res
            else Raise ValueError
        | _ => Raise ValueError
        end
      else Raise ValueError
  end.

Section Readers.

Variable INVALID_LENGTH : Z.
Variable Inst : Type.

(** [disassemble] of the translator module, which is not among the
    sources. *)
Variable disassemble : list Z -> result (list Inst).

Definition getString (sid : Z) : M (pystr * (Z * Z * Z)) :=
  (ok <- in_range sid getStringCount ;;
   assert ok "Invalid string ID" ;;
   slot <- resolveString INVALID_LENGTH sid ;;
   let isUTF16 := slot.1.1 in
   let offset := slot.1.2 in
   let length := if negb (isUTF16 =? 0) then slot.2 * 2 else slot.2 in
   stringStorage <- gets stringStorage ;;
   s <- lift (py_bytes (py_slice stringStorage offset (offset + length))) ;;
   text <- lift (if negb (isUTF16 =? 0) then Ok (hex s) else utf8_decode s) ;;
   ret (text, (isUTF16, offset, length)))%meth.

(** [getFunction(fid, disasm)]; the tuple it returns is
    [(functionNameStr, paramCount, registerCount, symbolCount, insts,
    functionHeader)], with [insts] the bytes when [disasm] is false. *)
Definition getFunction (fid : Z) (disasm : bool)
  : M (pystr * Z * Z * Z * Insts Inst * FunctionHeader) :=
  (ok <- in_range fid getFunctionCount ;;
   assert ok "Invalid function ID" ;;
   functionHeader <- getFunctionHeader fid ;;
   offset <- lift (dict_get (fields functionHeader) "offset") ;;
   paramCount <- lift (dict_get (fields functionHeader) "paramCount") ;;
   registerCount <- lift (dict_get (fields functionHeader) "frameSize") ;;
   symbolCount <- lift (dict_get (fields functionHeader) "environmentSize") ;;
   bytecodeSizeInBytes <-
     lift (dict_get (fields functionHeader) "bytecodeSizeInBytes") ;;
   functionName <- lift (dict_get (fields functionHeader) "functionName") ;;
   instOffset <- gets instOffset ;;
   let start := offset - instOffset in
   let end_ := start + bytecodeSizeInBytes in
   inst <- gets inst ;;
   let bc := py_slice inst start end_ in
   insts <- lift (if disasm
                  then (l <- disassemble bc ;; Ok (Asm l))%res
                  else Ok (Raw bc)) ;;
   name <- getString functionName ;;
   ret (name.1, paramCount, registerCount, symbolCount, insts,
        functionHeader))%meth.

End Readers.

Arguments getFunction INVALID_LENGTH {Inst} disassemble fid disasm.

(** ** Further auxiliary definitions *)

(** What [setString] decides before it writes: the bytes to copy and the
    offset to copy them to, from the file header and the two string
    tables. *)
Definition setString_plan (INVALID_LENGTH : Z) (sid : Z) (val : pystr)
    (o : Container) : result (list Z * Z) :=
  (ok <- (if 0 <=? sid
          then n <- dict_get (header o) "stringCount" ;; Ok (sid <? n)
          else Ok false) ;;
   if ok : bool then
     slot <- (resolveString INVALID_LENGTH sid o).1 ;;
     sl <- (if negb (slot.1.1 =? 0) then
              (s <- fromhex val ;; Ok (s, len s `div` 2))
            else
              (s <- utf8_encode val ;; Ok (s, len val))) ;;
     if sl.2 <=? slot.2 then Ok (sl.1, slot.1.2)
     else Raise (AssertionError
                   "Overflowed string length is not supported yet.")
   else Raise (AssertionError "Invalid string ID"))%res.

(** The [w] bytes of [v], least significant first. *)
Fixpoint le_bytes (w : nat) (v : Z) : list Z :=
  match w with
  | O => []
  | S w' => v `mod` 256 :: le_bytes w' (v `div` 256)
  end.

(** The header byte or bytes of a group of [count] literals of kind [tag],
    as the decoder reads them: one byte up to 15 literals, two bytes with
    the extension bit above that. *)
Definition group_header (tag count : Z) : list Z :=
  if count <=? 15 then [tag + count]
  else [0x80 + tag + count `div` 256; count `mod` 256].

(** A container with one UTF-16 string slot of two code units at the start
    of a storage of six bytes. *)
Definition utf16_obj : Container :=
  mkContainer
    (list_to_map [("stringCount", 1)]%string)
    []
    [list_to_map [("isUTF16", 1); ("offset", 0); ("length", 2)]%string]
    []
    [0x41; 0x00; 0x42; 0x00; 0x43; 0x00]
    [] [] []
    0
    [].

(** A translator whose instructions are the bytes themselves. *)
Definition bytes_disassemble : list Z -> result (list Z) := fun bc => Ok bc.

(** The three literal buffers and the accessor of each. *)
Inductive slp_buffer : Type := ArrayBuffer | ObjKeyBuffer | ObjValueBuffer.

Definition buffer_of (k : slp_buffer) (o : Container) : list Z :=
  match k with
  | ArrayBuffer => arrayBuffer o
  | ObjKeyBuffer => objKeyBuffer o
  | ObjValueBuffer => objValueBuffer o
  end.

Definition size_key (k : slp_buffer) : string :=
  match k with
  | ArrayBuffer => "arrayBufferSize"
  | ObjKeyBuffer => "objKeyBufferSize"
  | ObjValueBuffer => "objValueBufferSize"
  end.

Definition accessor (k : slp_buffer) (id : Z) (o : Container)
  : result (option string * list value) :=
  match k with
  | ArrayBuffer => getArray id o
  | ObjKeyBuffer => getObjKey id o
  | ObjValueBuffer => getObjValue id o
  end.

(** The eight kinds, as the tag byte carries them. *)
Definition slp_tags : list Z :=
  [NullTag; TrueTag; FalseTag; NumberTag; LongStringTag; ShortStringTag;
   ByteStringTag; IntegerTag].

(** What [_SLPToString] does for each kind: the width of a payload, the
    label, and the value made of the number the payload holds. *)
Definition payload_width (tag : Z) : nat :=
  if tag =? ByteStringTag then 1
  else if tag =? ShortStringTag then 2
  else if tag =? LongStringTag then 4
  else if tag =? NumberTag then 8
  else if tag =? IntegerTag then 4
  else 0.

Definition label_of (tag : Z) : string :=
  if (tag =? ByteStringTag) || (tag =? ShortStringTag)
     || (tag =? LongStringTag) then "String"
  else if tag =? NumberTag then "Number"
  else if tag =? IntegerTag then "Integer"
  else if tag =? NullTag then "Null"
  else "Boolean".

Definition literal (tag : Z) (v : Z) : value :=
  if (tag =? ByteStringTag) || (tag =? ShortStringTag)
     || (tag =? LongStringTag) || (tag =? IntegerTag) then VInt v
  else if tag =? NumberTag then VNumber v
  else if tag =? NullTag then VNone
  else if tag =? TrueTag then VBool true
  else VBool false.

(** A group in the form the decoder expects: the header, then the payloads,
    each in [payload_width] bytes, least significant byte first. *)
Definition encode_group (tag : Z) (vs : list Z) : list Z :=
  group_header tag (len vs) ++ concat (map (le_bytes (payload_width tag)) vs).

(** A container whose function is marked as overflowed although it holds
    100 bytes: the state [HBC96.setFunction] leaves when a function of more
    than 32767 bytes is replaced by a short one. *)
Definition marked_header : FunctionHeader :=
  mkFunctionHeader
    (list_to_map
       [("offset", 0); ("paramCount", 1); ("frameSize", 2);
        ("environmentSize", 0); ("bytecodeSizeInBytes", 100);
        ("functionName", 0); ("flags", 32)]%string)
    (Some (list_to_map [("bytecodeSizeInBytes", 100); ("flags", 32)]%string)).

Definition marked_obj : Container :=
  mkContainer
    (list_to_map [("functionCount", 1); ("stringCount", 1)]%string)
    [marked_header]
    [list_to_map [("isUTF16", 0); ("offset", 0); ("length", 4)]%string]
    []
    [116; 101; 115; 116]
    [] [] []
    0
    (replicate 100 0).

(** * Properties *)

(** ** Python indexing *)

Lemma py_index_nonneg n k :
  0 <= k -> k < Z.of_nat n -> py_index n k = Some (Z.to_nat k).
Proof.
  intros H1 H2. unfold py_index.
  destruct (0 <=? k) eqn:E1; [|lia].
  destruct (k <? Z.of_nat n) eqn:E2; [done|lia].
Qed.

Lemma py_index_nonneg_ge n k : 0 <= k -> Z.of_nat n <= k -> py_index n k = None.
Proof.
  intros H1 H2. unfold py_index.
  destruct (0 <=? k) eqn:E1; [|lia].
  destruct (k <? Z.of_nat n) eqn:E2; [lia|done].
Qed.

Lemma py_getitem_nat {A} (l : list A) (i : nat) :
  py_getitem l (Z.of_nat i) = of_option IndexError (l !! i).
Proof.
  unfold py_getitem. destruct (l !! i) as [x|] eqn:E.
  - rewrite py_index_nonneg; [|lia|]. 
    + simpl. rewrite Nat2Z.id, E. done.
    + apply lookup_lt_Some in E. lia.
  - rewrite py_index_nonneg_ge; [done|lia|].
    apply lookup_ge_None in E. lia.
Qed.

Lemma py_getitem_nonneg {A} (l : list A) (k : Z) :
  0 <= k -> py_getitem l k = of_option IndexError (l !! Z.to_nat k).
Proof.
  intros H. rewrite <- (Z2Nat.id k) at 1 by done. apply py_getitem_nat.
Qed.

(** ** The copy primitive *)

Lemma apply_writes_length d ws : length (apply_writes d ws) = length d.
Proof.
  revert d. induction ws as [|w ws IH]; intros d; simpl; [done|].
  unfold apply_writes in *. simpl. rewrite IH. apply length_insert.
Qed.

Lemma apply_writes_snoc d ws w :
  apply_writes d (ws ++ [w]) = <[w.1:=w.2]> (apply_writes d ws).
Proof. unfold apply_writes. by rewrite foldl_app. Qed.

Lemma apply_writes_absorb ws : forall d p v,
  <[p:=v]> (apply_writes (<[p:=v]> d) ws) = <[p:=v]> (apply_writes d ws).
Proof.
  induction ws as [|[q u] ws IH]; intros d p v.
  - simpl. apply list_insert_insert_eq.
  - unfold apply_writes in *. simpl.
    destruct (decide (q = p)) as [->|Hne].
    + by rewrite list_insert_insert_eq.
    + rewrite (list_insert_insert_ne _ q p u v) by done. apply IH.
Qed.

Lemma apply_writes_idem ws : forall d,
  apply_writes (apply_writes d ws) ws = apply_writes d ws.
Proof.
  induction ws as [|w ws IH] using rev_ind; intros d; [done|].
  rewrite !apply_writes_snoc.
  rewrite apply_writes_absorb. by rewrite IH.
Qed.

Lemma memcpy_from_trace n : forall i dest src start,
  memcpy_from i n dest src start =
  ((memcpy_trace i n (length dest) src start).1,
   apply_writes dest (memcpy_trace i n (length dest) src start).2).
Proof.
  induction n as [|n IH]; intros i dest src start; simpl; [done|].
  destruct (py_getitem src (Z.of_nat i)) as [v|e]; simpl; [|done].
  unfold py_setitem.
  destruct (py_index (length dest) (start + Z.of_nat i)) as [p|]; simpl; [|done].
  rewrite IH. by rewrite length_insert.
Qed.

Lemma memcpy_length dest src start n :
  length (memcpy dest src start n).2 = length dest.
Proof.
  unfold memcpy. rewrite memcpy_from_trace. simpl. apply apply_writes_length.
Qed.

(** Copying the same bytes to the same place a second time changes nothing,
    whether or not the copy runs to its end. *)
Lemma memcpy_idem dest src start n :
  memcpy (memcpy dest src start n).2 src start n = memcpy dest src start n.
Proof.
  unfold memcpy. rewrite !memcpy_from_trace. simpl.
  rewrite apply_writes_length. by rewrite apply_writes_idem.
Qed.

Lemma memcpy_from_in_range (s : nat) src n : forall i dest,
  (i + n = length src)%nat ->
  (s + length src <= length dest)%nat ->
  memcpy_from i n dest src (Z.of_nat s) =
  (Ok tt, take (s + i) dest ++ take n (drop i src) ++ drop (s + i + n) dest).
Proof.
  induction n as [|n IH]; intros i dest Hi Hd; simpl.
  - rewrite Nat.add_0_r. by rewrite take_drop.
  - destruct (lookup_lt_is_Some_2 src i) as [v Hv]; [lia|].
    rewrite py_getitem_nat, Hv. simpl.
    unfold py_setitem.
    replace (Z.of_nat s + Z.of_nat i) with (Z.of_nat (s + i)) by lia.
    rewrite py_index_nonneg by lia. rewrite Nat2Z.id. simpl.
    rewrite IH by (rewrite ?length_insert; lia).
    f_equal.
    rewrite (drop_S _ _ _ Hv). simpl.
    rewrite drop_insert_lt by lia.
    replace (s + S i)%nat with (S (s + i)) by lia.
    rewrite (insert_take_drop dest (s + i) v) by lia.
    rewrite take_app_ge by (rewrite length_take; lia).
    rewrite length_take. rewrite Nat.min_l by lia.
    replace (S (s + i) - (s + i))%nat with 1%nat by lia.
    simpl. rewrite take_0. rewrite <- !app_assoc. simpl.
    do 4 f_equal. lia.
Qed.

(** Inside the destination the copy replaces exactly the bytes of [src]. *)
Lemma memcpy_in_range dest src start :
  0 <= start -> start + len src <= len dest ->
  memcpy dest src start (len src) =
  (Ok tt,
   take (Z.to_nat start) dest ++ src ++ drop (Z.to_nat start + length src) dest).
Proof.
  unfold len. intros H1 H2. unfold memcpy.
  rewrite Nat2Z.id.
  rewrite <- (Z2Nat.id start) at 1 by done.
  rewrite memcpy_from_in_range by lia.
  rewrite drop_0, Nat.add_0_r. by rewrite firstn_all.
Qed.

(** ** [setFunction] as a case analysis *)

Lemma alter_insert_lookup {A} (f : A -> A) (l : list A) (i : nat) x :
  l !! i = Some x -> alter f i l = <[i:=f x]> l.
Proof.
  revert i. induction l as [|y l IH]; intros [|i] H; simpl in *; try done.
  - by inversion H.
  - f_equal. by apply IH.
Qed.

Lemma alter_params {Inst} (func : Func Inst) (l : list FunctionHeader) (i : nat) h :
  l !! i = Some h ->
  alter (set_field "environmentSize" (symbolCount func)) i
    (alter (set_field "frameSize" (registerCount func)) i
       (alter (set_field "paramCount" (paramCount func)) i l)) =
  <[i:=set_params func h]> l.
Proof.
  intros H. rewrite !list_alter_alter_eq.
  by rewrite (alter_insert_lookup _ _ _ _ H).
Qed.

Lemma py_getitem_insert {A} (l : list A) fid x y :
  0 <= fid -> l !! Z.to_nat fid = Some y ->
  py_getitem (<[Z.to_nat fid:=x]> l) fid = Ok x.
Proof.
  intros H1 H2. rewrite py_getitem_nonneg by done.
  rewrite list_lookup_insert_eq; [done|]. by apply lookup_lt_Some in H2.
Qed.

Lemma set_functionHeaders_twice a b o :
  set_functionHeaders a (set_functionHeaders b o) = set_functionHeaders a o.
Proof. done. Qed.

Ltac unfold_method :=
  unfold in_range, getFunctionCount, getStringCount, getHeaderField,
    getFunctionField, getFunctionHeader, updFunctionHeader, extendInst,
    memcpyInst, memcpyStringStorage, modify, gets, lift, assert, bind, ret,
    raise.

Lemma HBC86_setFunction_cases {Inst} (assemble : list Inst -> result (list Z))
    fid func o :
  HBC86.setFunction assemble fid func o =
  setFunction_cases (fun _ _ => true) HBC86.resize assemble fid func o.
Proof.
  unfold HBC86.setFunction, setFunction_cases, setFunction_write. unfold_method.
  destruct (0 <=? fid) eqn:Hfid; [apply Z.leb_le in Hfid|done].
  destruct (dict_get (header o) "functionCount") as [count|e]; [|done].
  destruct (fid <? count) eqn:Hlt; [|done].
  rewrite py_getitem_nonneg by lia.
  destruct (functionHeaders o !! Z.to_nat fid) as [h|] eqn:Hh; [|done].
  cbn [of_option functionHeaders set_functionHeaders inst instOffset set_inst].
  rewrite (alter_params func _ _ _ Hh).
  rewrite !set_functionHeaders_twice.
  rewrite (py_getitem_insert _ _ _ _ Hfid Hh).
  destruct (dict_get (fields (set_params func h)) "offset") as [offset|e];
    [|done].
  cbn [of_option functionHeaders set_functionHeaders inst instOffset set_inst].
  rewrite (py_getitem_insert _ _ _ _ Hfid Hh).
  destruct (dict_get (fields (set_params func h)) "bytecodeSizeInBytes")
    as [size|e]; [|done].
  destruct (bytecode assemble func) as [bc|e]; [|done].
  cbn [andb of_option functionHeaders set_functionHeaders inst instOffset set_inst].
  destruct (offset - instOffset o + len bc >? len (inst o));
    cbn [of_option functionHeaders set_functionHeaders inst instOffset set_inst];
    by rewrite (alter_insert_lookup _ _ _ (set_params func h))
      by (apply list_lookup_insert_eq; by apply lookup_lt_Some in Hh).
Qed.

Lemma HBC96_setFunction_cases {Inst} (assemble : list Inst -> result (list Z))
    fid func o :
  HBC96.setFunction assemble fid func o =
  setFunction_cases (fun size new => new >? size) HBC96.resize assemble fid func o.
Proof.
  unfold HBC96.setFunction, setFunction_cases, setFunction_write. unfold_method.
  destruct (0 <=? fid) eqn:Hfid; [apply Z.leb_le in Hfid|done].
  destruct (dict_get (header o) "functionCount") as [count|e]; [|done].
  destruct (fid <? count) eqn:Hlt; [|done].
  rewrite py_getitem_nonneg by lia.
  destruct (functionHeaders o !! Z.to_nat fid) as [h|] eqn:Hh; [|done].
  cbn [of_option functionHeaders set_functionHeaders inst instOffset set_inst].
  rewrite (alter_params func _ _ _ Hh).
  rewrite !set_functionHeaders_twice.
  rewrite (py_getitem_insert _ _ _ _ Hfid Hh).
  destruct (dict_get (fields (set_params func h)) "offset") as [offset|e];
    [|done].
  cbn [of_option functionHeaders set_functionHeaders inst instOffset set_inst].
  rewrite (py_getitem_insert _ _ _ _ Hfid Hh).
  destruct (dict_get (fields (set_params func h)) "bytecodeSizeInBytes")
    as [size|e]; [|done].
  destruct (bytecode assemble func) as [bc|e]; [|done].
  cbn [andb of_option functionHeaders set_functionHeaders inst instOffset set_inst].
  destruct (len bc >? size);
    cbn [andb of_option functionHeaders set_functionHeaders inst instOffset set_inst];
    [destruct (offset - instOffset o + len bc >? len (inst o))|];
    cbn [of_option functionHeaders set_functionHeaders inst instOffset set_inst];
    by rewrite (alter_insert_lookup _ _ _ (set_params func h))
      by (apply list_lookup_insert_eq; by apply lookup_lt_Some in Hh).
Qed.

(** ** The overflowed bit *)

Lemma testbit_32 n : Z.testbit 32 n = (n =? 5).
Proof.
  change 32 with (2 ^ 5). destruct (Z.ltb_spec n 0) as [Hn|Hn].
  - rewrite Z.testbit_neg_r by done. symmetry. apply Z.eqb_neq. lia.
  - rewrite Z.pow2_bits_eqb by lia. apply Z.eqb_sym.
Qed.

Lemma land_lor_32 f : Z.land (Z.lor f 32) 32 = 32.
Proof.
  apply Z.bits_inj'. intros n Hn.
  rewrite Z.land_spec, Z.lor_spec, testbit_32.
  destruct (n =? 5); [by rewrite orb_true_r|apply andb_false_r].
Qed.

Lemma land_clear_32 f : Z.land (Z.land f (Z.lnot 32)) 32 = 0.
Proof.
  apply Z.bits_inj'. intros n Hn.
  rewrite !Z.land_spec, Z.lnot_spec, testbit_32, Z.bits_0 by done.
  destruct (n =? 5); simpl; by rewrite ?andb_false_r.
Qed.

Lemma lor_32_set f : Z.land f 32 <> 0 -> Z.lor f 32 = f.
Proof.
  intros H. apply Z.bits_inj'. intros n Hn.
  rewrite Z.lor_spec, testbit_32.
  destruct (n =? 5) eqn:E; [|apply orb_false_r].
  apply Z.eqb_eq in E. subst n. rewrite orb_true_r.
  destruct (Z.testbit f 5) eqn:E5; [done|].
  exfalso. apply H. apply Z.bits_inj'. intros m Hm.
  rewrite Z.land_spec, testbit_32, Z.bits_0.
  destruct (m =? 5) eqn:E; [|apply andb_false_r].
  apply Z.eqb_eq in E. subst m. by rewrite E5.
Qed.

Lemma lor_32_twice f : Z.lor (Z.lor f 32) 32 = Z.lor f 32.
Proof. by rewrite <- Z.lor_assoc, Z.lor_diag. Qed.

Lemma land_not32_twice f :
  Z.land (Z.land f (Z.lnot 32)) (Z.lnot 32) = Z.land f (Z.lnot 32).
Proof. by rewrite <- Z.land_assoc, Z.land_diag. Qed.

(** ** Header dicts *)

Lemma copy_keys_lookup keys (fh : gmap string Z) k :
  copy_keys keys fh !! k = if decide (k ∈ keys) then fh !! k else None.
Proof.
  unfold copy_keys.
  assert (forall acc : gmap string Z,
    foldl (fun sm key => match fh !! key with
                         | Some v => <[key:=v]> sm
                         | None => sm
                         end) acc keys !! k
    = if decide (k ∈ keys)
      then match fh !! k with Some v => Some v | None => acc !! k end
      else acc !! k) as H.
  { induction keys as [|key keys IH]; intros acc; cbn [foldl].
    - destruct (decide (k ∈ [])) as [Hin|_]; [|done].
      by apply elem_of_nil in Hin.
    - rewrite IH.
      assert (k <> key ->
              match fh !! key with
              | Some v => <[key:=v]> acc
              | None => acc
              end !! k = acc !! k) as Hother.
      { intros Hne. destruct (fh !! key); [by rewrite lookup_insert_ne|done]. }
      destruct (decide (k ∈ key :: keys)) as [Hin|Hnin];
        destruct (decide (k ∈ keys)) as [Hin'|Hnin'].
      + destruct (fh !! k) eqn:Ek; [done|].
        destruct (decide (k = key)) as [->|Hne]; [by rewrite Ek|by apply Hother].
      + apply elem_of_cons in Hin as [->|Hin]; [|done].
        destruct (fh !! key); [by rewrite lookup_insert_eq|done].
      + exfalso. apply Hnin. by apply list_elem_of_further.
      + apply Hother. intros ->. apply Hnin. apply list_elem_of_here. }
  rewrite H. rewrite lookup_empty. destruct (decide (k ∈ keys)); [|done].
  by destruct (fh !! k).
Qed.

Lemma set_field_same key v h :
  fields h !! key = Some v -> set_field key v h = h.
Proof.
  intros H. destruct h as [fh sm]. unfold set_field. simpl in *.
  by rewrite insert_id.
Qed.

Lemma set_field_twice key v w h :
  set_field key v (set_field key w h) = set_field key v h.
Proof. unfold set_field. simpl. by rewrite insert_insert_eq. Qed.

Lemma fields_set_params {Inst} (func : Func Inst) h k :
  k <> "paramCount"%string -> k <> "frameSize"%string ->
  k <> "environmentSize"%string ->
  fields (set_params func h) !! k = fields h !! k.
Proof.
  intros H1 H2 H3. unfold set_params, set_field. simpl.
  by rewrite !lookup_insert_ne.
Qed.

Lemma small_set_params {Inst} (func : Func Inst) h :
  small (set_params func h) = small h.
Proof. done. Qed.

Lemma params_set_params {Inst} (func : Func Inst) h :
  fields (set_params func h) !! "paramCount" = Some (paramCount func) /\
  fields (set_params func h) !! "frameSize" = Some (registerCount func) /\
  fields (set_params func h) !! "environmentSize" = Some (symbolCount func).
Proof.
  unfold set_params, set_field. simpl. repeat split.
  - rewrite !lookup_insert_ne by done. apply lookup_insert_eq.
  - rewrite lookup_insert_ne by done. apply lookup_insert_eq.
  - apply lookup_insert_eq.
Qed.

(** Writing the three fields again over a header that already has them
    changes nothing. *)
Lemma set_params_absorb {Inst} (func : Func Inst) h :
  fields h !! "paramCount" = Some (paramCount func) ->
  fields h !! "frameSize" = Some (registerCount func) ->
  fields h !! "environmentSize" = Some (symbolCount func) ->
  set_params func h = h.
Proof.
  intros H1 H2 H3. unfold set_params.
  rewrite (set_field_same "paramCount") by done.
  rewrite (set_field_same "frameSize") by done.
  by rewrite (set_field_same "environmentSize").
Qed.

(** ** The size bookkeeping of the two classes *)

Lemma overflowed_set_other key v h :
  key <> "flags"%string -> overflowed (set_field key v h) = overflowed h.
Proof.
  intros H. unfold overflowed, set_field. simpl. by rewrite lookup_insert_ne.
Qed.

Lemma flags_or_zero_set f fh sm :
  flags_or_zero (mkFunctionHeader (<["flags":=f]> fh) sm) = f.
Proof. unfold flags_or_zero. simpl. by rewrite lookup_insert_eq. Qed.

Lemma flags_or_zero_at h f :
  fields h !! "flags" = Some f -> flags_or_zero h = f.
Proof. unfold flags_or_zero. by intros ->. Qed.

(** Above the 15-bit limit the two classes do the same. *)
Lemma resize_86_96_above size new h :
  32767 < new -> HBC86.resize size new h = HBC96.resize size new h.
Proof.
  intros H. unfold HBC86.resize, HBC96.resize.
  change max_small_size with 32767. change overflowed_bit with 32.
  change (Z.shiftl 1 15 - 1) with 32767. change (Z.shiftl 1 5) with 32.
  destruct (new >? 32767) eqn:E; [|lia].
  destruct (fields h !! "flags") as [f|] eqn:Ef; [done|].
  rewrite set_field_twice.
  assert (flags_or_zero (set_field "flags" 0 h) = flags_or_zero h) as ->; [|done].
  unfold flags_or_zero, set_field. simpl. by rewrite lookup_insert_eq, Ef.
Qed.

Lemma resize_96_above size new h :
  32767 < new ->
  HBC96.resize size new h =
  let flags := Z.lor (flags_or_zero h) 32 in
  let fh := <["flags":=flags]> (fields h) in
  mkFunctionHeader
    (<["bytecodeSizeInBytes":=new]> fh)
    (Some (default
             (<["flags":=flags]>
                (<["bytecodeSizeInBytes":=Z.min size 32767]>
                   (copy_keys small_keys fh)))
             (small h))).
Proof.
  intros H. unfold HBC96.resize.
  change (Z.shiftl 1 15 - 1) with 32767. change (Z.shiftl 1 5) with 32.
  destruct (new >? 32767) eqn:E; [|lia].
  unfold set_field. simpl.
  destruct (small h) as [sm|]; simpl; [done|].
  by rewrite flags_or_zero_set.
Qed.

Lemma resize_96_below size new h :
  new <= 32767 ->
  HBC96.resize size new h = set_field "bytecodeSizeInBytes" new h.
Proof.
  intros H. unfold HBC96.resize.
  change (Z.shiftl 1 15 - 1) with 32767.
  by destruct (new >? 32767) eqn:E; [lia|].
Qed.

Lemma resize_86_below size new h :
  new <= 32767 ->
  HBC86.resize size new h =
  mkFunctionHeader
    (match fields h !! "flags" with
     | Some f =>
         <["flags":=Z.land f (Z.lnot 32)]>
           (<["bytecodeSizeInBytes":=new]> (fields h))
     | None => <["bytecodeSizeInBytes":=new]> (fields h)
     end)
    None.
Proof.
  intros H. unfold HBC86.resize.
  change max_small_size with 32767. change overflowed_bit with 32.
  destruct (new >? 32767) eqn:E; [lia|].
  replace ((new <=? size) || (size <=? 32767)) with true.
  2:{ symmetry. apply orb_true_iff.
      destruct (Z.leb_spec new size); [by left|right]. apply Z.leb_le. lia. }
  destruct (new <=? 32767) eqn:E2; [|lia].
  unfold set_field. simpl. rewrite lookup_insert_ne by done.
  destruct (fields h !! "flags") as [f|]; simpl; by destruct (small h).
Qed.

Section Resize.

Variable resize : Z -> Z -> FunctionHeader -> FunctionHeader.
Hypothesis resize_is : resize = HBC86.resize \/ resize = HBC96.resize.

Lemma resize_cases size new h :
  (32767 < new /\ resize size new h = HBC96.resize size new h) \/
  (new <= 32767 /\
   (resize size new h = HBC96.resize size new h \/
    resize size new h = HBC86.resize size new h)).
Proof.
  destruct (Z.lt_ge_cases 32767 new) as [H|H].
  - left. split; [done|].
    destruct resize_is as [-> | ->]; [by apply resize_86_96_above|done].
  - right. split; [lia|]. destruct resize_is as [-> | ->]; auto.
Qed.

Lemma resize_fields size new h k :
  k <> "flags"%string -> k <> "bytecodeSizeInBytes"%string ->
  fields (resize size new h) !! k = fields h !! k.
Proof.
  intros H1 H2.
  destruct (resize_cases size new h) as [[Hn ->]|[Hn [-> | ->]]].
  - rewrite resize_96_above by done. simpl. by rewrite !lookup_insert_ne.
  - rewrite resize_96_below by done. simpl. by rewrite !lookup_insert_ne.
  - rewrite resize_86_below by done. simpl.
    destruct (fields h !! "flags"); by rewrite !lookup_insert_ne.
Qed.

Lemma resize_size size new h :
  fields (resize size new h) !! "bytecodeSizeInBytes" = Some new.
Proof.
  destruct (resize_cases size new h) as [[Hn ->]|[Hn [-> | ->]]].
  - rewrite resize_96_above by done. simpl. by rewrite lookup_insert_eq.
  - rewrite resize_96_below by done. simpl. by rewrite lookup_insert_eq.
  - rewrite resize_86_below by done. simpl.
    destruct (fields h !! "flags");
      [rewrite lookup_insert_ne by done|]; by rewrite lookup_insert_eq.
Qed.

(** Resizing to the size the header already records changes nothing once
    the header has been resized to it. *)
Lemma resize_idem size new h :
  resize new new (resize size new h) = resize size new h.
Proof.
  assert (forall size',
    32767 < new ->
    HBC96.resize size' new (HBC96.resize size new h) = HBC96.resize size new h)
    as Habove.
  { intros size' H. rewrite (resize_96_above size) by done.
    rewrite resize_96_above by done. cbn zeta. cbn [fields small default].
    rewrite (flags_or_zero_at _ (Z.lor (flags_or_zero h) 32)).
    2:{ cbn [fields]. rewrite lookup_insert_ne by done. apply lookup_insert_eq. }
    rewrite lor_32_twice. f_equal.
    apply map_eq. intros k.
    destruct (decide (k = "bytecodeSizeInBytes"%string)) as [->|H1];
      [by rewrite !lookup_insert_eq|].
    rewrite !(lookup_insert_ne _ "bytecodeSizeInBytes") by done.
    destruct (decide (k = "flags"%string)) as [->|H2];
      [by rewrite !lookup_insert_eq|].
    by rewrite !lookup_insert_ne by done. }
  destruct resize_is as [Hr|Hr]; rewrite Hr;
    destruct (Z.lt_ge_cases 32767 new) as [H|H].
  - rewrite !resize_86_96_above by done. by apply Habove.
  - rewrite (resize_86_below size) by lia. rewrite resize_86_below by lia.
    cbn [fields]. f_equal.
    destruct (fields h !! "flags") as [f|] eqn:Ef.
    + rewrite lookup_insert_eq. rewrite land_not32_twice.
      apply map_eq. intros k.
      destruct (decide (k = "flags"%string)) as [->|H2];
        [by rewrite !lookup_insert_eq|].
      rewrite !(lookup_insert_ne _ "flags") by done.
      destruct (decide (k = "bytecodeSizeInBytes"%string)) as [->|H1];
        [by rewrite !lookup_insert_eq|].
      by rewrite !lookup_insert_ne by done.
    + rewrite lookup_insert_ne by done. rewrite Ef.
      by rewrite insert_insert_eq.
  - by apply Habove.
  - rewrite !resize_96_below by lia. apply set_field_twice.
Qed.

Lemma header_ok_resize size new h :
  header_ok h -> header_ok (resize size new h).
Proof.
  intros [Hiff Hsm].
  destruct (resize_cases size new h) as [[Hn ->]|[Hn [-> | ->]]].
  - rewrite resize_96_above by done. cbn zeta.
    set (F := Z.lor (flags_or_zero h) 32).
    assert (forall fh, overflowed
              (mkFunctionHeader
                 (<["bytecodeSizeInBytes":=new]> (<["flags":=F]> (fields h))) fh)
            = true) as Hov.
    { intros fh. unfold overflowed. cbn [fields].
      rewrite lookup_insert_ne by done. rewrite lookup_insert_eq.
      change (Z.shiftl 1 5) with 32. subst F. by rewrite land_lor_32. }
    split; [by rewrite Hov|].
    intros sm. cbn [small fields]. intros [= <-].
    rewrite lookup_insert_ne by done. rewrite lookup_insert_eq.
    destruct (small h) as [sm0|] eqn:Esm; cbn [from_option id].
    + destruct (Hsm sm0 eq_refl) as [Hsize Hflags]. split; [done|].
      rewrite Hflags.
      assert (overflowed h = true) as Ho by (by apply Hiff).
      unfold overflowed in Ho. subst F. unfold flags_or_zero.
      destruct (fields h !! "flags") as [f|]; [|done]. cbn [from_option id].
      change (Z.shiftl 1 5) with 32 in Ho.
      rewrite lor_32_set; [done|]. intros Hz. by rewrite Hz in Ho.
    + split; [|by rewrite lookup_insert_eq].
      exists (Z.min size 32767). split; [|lia].
      rewrite lookup_insert_ne by done. by rewrite lookup_insert_eq.
  - rewrite resize_96_below by done. split.
    + by rewrite overflowed_set_other.
    + intros sm Hs. cbn [small set_field fields] in *.
      rewrite lookup_insert_ne by done. by apply Hsm.
  - rewrite resize_86_below by done. split; [|done].
    cbn [small]. unfold overflowed. cbn [fields].
    split; [|by intros [? ?]].
    destruct (fields h !! "flags") as [f|] eqn:Ef.
    + rewrite lookup_insert_eq. change (Z.shiftl 1 5) with 32.
      by rewrite land_clear_32.
    + rewrite lookup_insert_ne by done. by rewrite Ef.
Qed.

End Resize.

Lemma header_ok_set_params {Inst} (func : Func Inst) h :
  header_ok h -> header_ok (set_params func h).
Proof.
  intros [Hiff Hsm]. unfold header_ok.
  assert (overflowed (set_params func h) = overflowed h) as ->.
  { unfold set_params. by rewrite !overflowed_set_other. }
  rewrite small_set_params. split; [done|].
  intros sm Hs. rewrite fields_set_params by done. by apply Hsm.
Qed.

(** ** What [setFunction] leaves behind *)

Lemma set_functionHeaders_same o : set_functionHeaders (functionHeaders o) o = o.
Proof. by destruct o. Qed.

Section Cases.

Context {Inst : Type}.
Variable grows : Z -> Z -> bool.
Variable resize : Z -> Z -> FunctionHeader -> FunctionHeader.
Variable assemble : list Inst -> result (list Z).
Hypothesis resize_is : resize = HBC86.resize \/ resize = HBC96.resize.
Hypothesis grows_once : forall size new,
  grows size new = true \/ grows new new = false.

(** The container after a call is the one before it, or differs from it in
    header [fid] alone, or in header [fid] and the instruction buffer. *)
Lemma setFunction_cases_shape fid func o :
  let o' := (setFunction_cases grows resize assemble fid func o).2 in
  o' = o \/
  exists h,
    0 <= fid /\
    functionHeaders o !! Z.to_nat fid = Some h /\
    (o' = set_functionHeaders
            (<[Z.to_nat fid:=set_params func h]> (functionHeaders o)) o \/
     exists size new buf,
       (length (inst o) <= length buf)%nat /\
       o' = set_inst buf
              (set_functionHeaders
                 (<[Z.to_nat fid:=resize size new (set_params func h)]>
                    (functionHeaders o)) o)).
Proof.
  unfold setFunction_cases, setFunction_write.
  destruct (Z.leb_spec 0 fid) as [Hfid|]; [|by left].
  destruct (dict_get (header o) "functionCount"); [|by left].
  destruct (fid <? a); [|by left].
  destruct (functionHeaders o !! Z.to_nat fid) as [h|]; [|by left].
  right. exists h. split; [done|]. split; [done|].
  destruct (dict_get (fields (set_params func h)) "offset") as [offset|];
    [|by left].
  destruct (dict_get (fields (set_params func h)) "bytecodeSizeInBytes")
    as [size|]; [|by left].
  destruct (bytecode assemble func) as [bc|]; [|by left].
  right. cbn [snd inst instOffset functionHeaders set_functionHeaders].
  eexists size, (len bc), _. split; [|by rewrite list_insert_insert_eq].
  rewrite memcpy_length.
  match goal with |- context [if ?c then _ else _] => destruct c end;
    [rewrite length_app; lia|done].
Qed.

(** The call on a container whose header [fid] has the two fields the
    method reads, with a payload that yields bytecode. *)
Lemma setFunction_cases_run fid func o count h offset size bc :
  0 <= fid ->
  header o !! "functionCount" = Some count -> fid < count ->
  functionHeaders o !! Z.to_nat fid = Some h ->
  fields h !! "offset" = Some offset ->
  fields h !! "bytecodeSizeInBytes" = Some size ->
  bytecode assemble func = Ok bc ->
  setFunction_cases grows resize assemble fid func o =
  let start := offset - instOffset o in
  let buf :=
    if grows size (len bc) && (start + len bc >? len (inst o))
    then inst o ++ replicate (Z.to_nat (start + len bc - len (inst o))) 0
    else inst o in
  let r := memcpy buf bc start (len bc) in
  (r.1,
   set_inst r.2
     (set_functionHeaders
        (<[Z.to_nat fid:=resize size (len bc) (set_params func h)]>
           (functionHeaders o)) o)).
Proof.
  intros Hfid Hcount Hlt Hh Hoff Hsize Hbc.
  unfold setFunction_cases, setFunction_write, dict_get.
  destruct (Z.leb_spec 0 fid); [|lia].
  rewrite Hcount. cbn [of_option].
  destruct (Z.ltb_spec fid count); [|lia].
  rewrite Hh. rewrite !fields_set_params by done.
  rewrite Hoff, Hsize, Hbc.
  cbn [of_option snd inst instOffset functionHeaders set_functionHeaders].
  by rewrite list_insert_insert_eq.
Qed.

(** When the function's old byte range lies inside the instruction buffer
    the call returns: the buffer is grown whenever the new bytecode would
    not fit. *)
Lemma setFunction_cases_ok fid func o count h offset size bc :
  (grows size (len bc) = true \/ len bc <= size) ->
  0 <= fid ->
  header o !! "functionCount" = Some count -> fid < count ->
  functionHeaders o !! Z.to_nat fid = Some h ->
  fields h !! "offset" = Some offset ->
  fields h !! "bytecodeSizeInBytes" = Some size ->
  bytecode assemble func = Ok bc ->
  0 <= offset - instOffset o ->
  offset - instOffset o + size <= len (inst o) ->
  (setFunction_cases grows resize assemble fid func o).1 = Ok tt.
Proof.
  intros Hg Hfid Hcount Hlt Hh Hoff Hsize Hbc Hstart Hend.
  rewrite (setFunction_cases_run fid func o count h offset size bc) by done.
  cbn zeta. cbn [fst].
  rewrite memcpy_in_range; [done|done|].
  destruct (grows size (len bc)) eqn:Eg; cbn [andb].
  - destruct (Z.gtb_spec (offset - instOffset o + len bc) (len (inst o)));
      [|done].
    unfold len in *. rewrite length_app, length_replicate. lia.
  - destruct Hg as [Hg|Hg]; [done|]. lia.
Qed.

(** The header and the rest of the container after such a call. *)
Lemma setFunction_cases_after fid func o count h offset size bc :
  0 <= fid ->
  header o !! "functionCount" = Some count -> fid < count ->
  functionHeaders o !! Z.to_nat fid = Some h ->
  fields h !! "offset" = Some offset ->
  fields h !! "bytecodeSizeInBytes" = Some size ->
  bytecode assemble func = Ok bc ->
  let o' := (setFunction_cases grows resize assemble fid func o).2 in
  functionHeaders o' !! Z.to_nat fid
    = Some (resize size (len bc) (set_params func h)) /\
  header o' = header o /\
  instOffset o' = instOffset o /\
  (length (inst o) <= length (inst o'))%nat.
Proof.
  intros Hfid Hcount Hlt Hh Hoff Hsize Hbc.
  rewrite (setFunction_cases_run fid func o count h offset size bc) by done.
  cbn zeta. cbn [snd functionHeaders header instOffset inst set_functionHeaders set_inst].
  split; [apply list_lookup_insert_eq; by apply lookup_lt_Some in Hh|].
  split; [done|]. split; [done|].
  rewrite memcpy_length.
  match goal with |- context [if ?c then _ else _] => destruct c end;
    [rewrite length_app; lia|done].
Qed.

Lemma setFunction_write_idem fid func h1 o1 :
  functionHeaders o1 !! Z.to_nat fid = Some h1 ->
  set_params func h1 = h1 ->
  let r := setFunction_write grows resize assemble fid func h1 o1 in
  exists h2,
    functionHeaders r.2 !! Z.to_nat fid = Some h2 /\
    set_params func h2 = h2 /\
    header r.2 = header o1 /\
    setFunction_write grows resize assemble fid func h2 r.2 = r.
Proof.
  intros Hh Hp. unfold setFunction_write.
  destruct (dict_get (fields h1) "offset") as [offset|e] eqn:Eoff.
  2:{ exists h1. cbn [snd]. by rewrite Eoff. }
  destruct (dict_get (fields h1) "bytecodeSizeInBytes") as [size|e] eqn:Esize.
  2:{ exists h1. cbn [snd]. by rewrite Eoff, Esize. }
  destruct (bytecode assemble func) as [bc|e] eqn:Ebc.
  2:{ exists h1. cbn [snd]. by rewrite Eoff, Esize. }
  cbn zeta. cbn [snd inst instOffset functionHeaders set_functionHeaders set_inst header].
  exists (resize size (len bc) h1).
  assert (Z.to_nat fid < length (functionHeaders o1))%nat as Hlen
    by (by apply lookup_lt_Some in Hh).
  split; [by apply list_lookup_insert_eq|].
  split.
  { apply set_params_absorb; rewrite resize_fields by done;
      rewrite <- Hp; apply params_set_params. }
  split; [done|].
  unfold dict_get in *. rewrite resize_fields by done.
  rewrite resize_size by done.
  destruct (fields h1 !! "offset") as [off'|]; [|done].
  cbn [of_option] in *. injection Eoff as ->.
  rewrite resize_idem by done. rewrite list_insert_insert_eq.
  set (start := offset - instOffset o1).
  set (buf := if grows size (len bc) && (start + len bc >? len (inst o1))
              then inst o1 ++ replicate (Z.to_nat (start + len bc - len (inst o1))) 0
              else inst o1).
  assert (grows (len bc) (len bc)
          && (start + len bc >? len (memcpy buf bc start (len bc)).2) = false)
    as ->.
  { unfold len at 4. rewrite memcpy_length.
    destruct (grows_once size (len bc)) as [Hg|Hg]; [|by rewrite Hg].
    apply andb_false_iff. right. subst buf. rewrite Hg. cbn [andb].
    destruct (Z.gtb_spec (start + len bc) (len (inst o1))) as [Hgt|Hle].
    - rewrite length_app, length_replicate. unfold len in *.
      rewrite Z.gtb_ltb. apply Z.ltb_ge. lia.
    - unfold len in *. rewrite Z.gtb_ltb. apply Z.ltb_ge. lia. }
  rewrite memcpy_idem. done.
Qed.

(** Calling [setFunction] twice with the same arguments leaves the container
    of the first call, with the outcome of the first call. *)
Lemma setFunction_cases_idem fid func o :
  setFunction_cases grows resize assemble fid func
    (setFunction_cases grows resize assemble fid func o).2
  = setFunction_cases grows resize assemble fid func o.
Proof.
  unfold setFunction_cases at 2 3.
  destruct (0 <=? fid) eqn:Hfid;
    [|unfold setFunction_cases; cbn [snd]; by rewrite Hfid].
  destruct (dict_get (header o) "functionCount") as [count|e] eqn:Hc;
    [|unfold setFunction_cases; cbn [snd]; by rewrite Hfid, Hc].
  destruct (fid <? count) eqn:Hlt;
    [|unfold setFunction_cases; cbn [snd]; by rewrite Hfid, Hc, Hlt].
  destruct (functionHeaders o !! Z.to_nat fid) as [h|] eqn:Hh;
    [|unfold setFunction_cases; cbn [snd]; by rewrite Hfid, Hc, Hlt, Hh].
  set (h1 := set_params func h).
  set (o1 := set_functionHeaders (<[Z.to_nat fid:=h1]> (functionHeaders o)) o).
  destruct (setFunction_write_idem fid func h1 o1) as (h2 & Hh2 & Hp2 & Hhd & Hw).
  { subst o1. cbn [functionHeaders set_functionHeaders].
    apply list_lookup_insert_eq. by apply lookup_lt_Some in Hh. }
  { subst h1. apply set_params_absorb; apply params_set_params. }
  cbn zeta in *.
  unfold setFunction_cases. rewrite Hfid, Hhd.
  replace (header o1) with (header o) by done. rewrite Hc, Hlt, Hh2, Hp2.
  rewrite list_insert_id by done.
  by rewrite set_functionHeaders_same.
Qed.

End Cases.

(** ** The two classes as instances of the case analysis *)

Lemma setFunction_as_cases {Inst} v (assemble : list Inst -> result (list Z)) :
  exists grows resize,
    (resize = HBC86.resize \/ resize = HBC96.resize) /\
    (forall size new, grows size new = true \/ grows new new = false) /\
    (forall size new, grows size new = true \/ new <= size) /\
    (v = V86 -> resize = HBC86.resize) /\
    (v = V96 -> resize = HBC96.resize) /\
    (forall fid func o,
       setFunction v assemble fid func o =
       setFunction_cases grows resize assemble fid func o).
Proof.
  destruct v.
  - exists (fun _ _ => true), HBC86.resize.
    repeat split; try done; auto.
    intros. apply HBC86_setFunction_cases.
  - exists (fun size new => new >? size), HBC96.resize.
    repeat split; try done; auto.
    + intros size new. right. rewrite Z.gtb_ltb. apply Z.ltb_irrefl.
    + intros size new. destruct (Z.gtb_spec new size); [by left|by right].
    + intros. apply HBC96_setFunction_cases.
Qed.

(** ** What [setString] leaves behind *)

Lemma setString_shape INVALID_LENGTH sid val o :
  exists b, length b = length (stringStorage o) /\
            (setString INVALID_LENGTH sid val o).2 = set_stringStorage b o.
Proof.
  assert (exists b, length b = length (stringStorage o) /\ o = set_stringStorage b o)
    as Hsame by (exists (stringStorage o); by destruct o).
  unfold setString, resolveString, getStringTableEntry,
    getStringTableOverflowEntry. unfold_method.
  repeat
    (match goal with
     | |- context [match ?x with Ok _ => _ | Raise _ => _ end] => destruct x
     | |- context [if ?b then _ else _] => destruct b
     | |- context [match ?x with (_, _) => _ end] => destruct x
     end; cbn [snd fst]; try done).
  all: eexists; split; [apply memcpy_length|done].
Qed.

(** * The claims *)

(** C9. Setter idempotence. In either class, for every function ID, every
    payload and every starting container, a second [setFunction] with the
    same arguments ends with the outcome of the first and leaves the
    container the first one left. This holds across the overflow
    transitions and also when the call raises. *)
Theorem C9_setFunction_idempotent {Inst : Type} (v : version)
    (assemble : list Inst -> result (list Z)) (fid : Z) (func : Func Inst)
    (o : Container) :
  setFunction v assemble fid func (setFunction v assemble fid func o).2
  = setFunction v assemble fid func o.
Proof.
  destruct (setFunction_as_cases v assemble)
    as (grows & resize & Hr & Hg & _ & _ & _ & Heq).
  rewrite !Heq. by apply setFunction_cases_idem.
Qed.

(** C7. The frame of [setFunction]. In either class and whatever the
    outcome, every function header keeps its ["functionName"] (the name in
    the payload is ignored), every header other than [fid] is unchanged,
    the file header, the string table, its overflow table and the string
    storage are unchanged, and the instruction buffer is at least as long
    as before. *)
Theorem C7_setFunction_frame {Inst : Type} (v : version)
    (assemble : list Inst -> result (list Z)) (fid : Z) (func : Func Inst)
    (o : Container) :
  let o' := (setFunction v assemble fid func o).2 in
  (forall (j : nat) (h : FunctionHeader),
     functionHeaders o !! j = Some h ->
     exists h', functionHeaders o' !! j = Some h' /\
                fields h' !! "functionName" = fields h !! "functionName" /\
                (Z.of_nat j <> fid -> h' = h)) /\
  length (functionHeaders o') = length (functionHeaders o) /\
  header o' = header o /\
  stringTableEntries o' = stringTableEntries o /\
  stringTableOverflowEntries o' = stringTableOverflowEntries o /\
  stringStorage o' = stringStorage o /\
  (length (inst o) <= length (inst o'))%nat.
Proof.
  destruct (setFunction_as_cases v assemble)
    as (grows & resize & Hr & Hg & _ & _ & _ & Heq).
  rewrite Heq.
  assert (forall (h1 : FunctionHeader) (j : nat) (h h0 : FunctionHeader),
    0 <= fid ->
    functionHeaders o !! Z.to_nat fid = Some h0 ->
    fields h1 !! "functionName" = fields h0 !! "functionName" ->
    functionHeaders o !! j = Some h ->
    exists h', <[Z.to_nat fid:=h1]> (functionHeaders o) !! j = Some h' /\
               fields h' !! "functionName" = fields h !! "functionName" /\
               (Z.of_nat j <> fid -> h' = h)) as Hins.
  { intros h1 j h h0 Hfid Hh0 Hname Hj.
    destruct (decide (Z.to_nat fid = j)) as [<-|Hne].
    - exists h1. rewrite list_lookup_insert_eq by (by apply lookup_lt_Some in Hj).
      rewrite Hh0 in Hj. injection Hj as <-.
      split; [done|]. split; [done|]. lia.
    - exists h. by rewrite list_lookup_insert_ne. }
  destruct (setFunction_cases_shape grows resize assemble fid func o)
    as [->|(h0 & Hfid & Hh0 & [-> | (size & new & buf & Hbuf & ->)])];
    cbn [functionHeaders header stringTableEntries stringTableOverflowEntries
         stringStorage inst set_functionHeaders set_inst].
  - repeat split; try done. intros j h Hj. by exists h.
  - rewrite length_insert. repeat split; try done.
    intros j h Hj. apply (Hins _ _ _ h0); try done.
    by apply fields_set_params.
  - rewrite length_insert. repeat split; try done.
    intros j h Hj. apply (Hins _ _ _ h0); try done.
    rewrite resize_fields by done. by apply fields_set_params.
Qed.

Lemma invariant_insert (o : Container) (k : nat) (h : FunctionHeader) :
  invariant o -> header_ok h ->
  forall (i : nat) (h' : FunctionHeader),
    <[k:=h]> (functionHeaders o) !! i = Some h' -> header_ok h'.
Proof.
  intros Hinv Hh i h' Hi.
  apply list_lookup_insert_Some in Hi as [(-> & -> & _)|(_ & Hi)]; [done|].
  by apply (Hinv i).
Qed.

Lemma invariant_run_call {Inst : Type} (v : version)
    (assemble : list Inst -> result (list Z)) (INVALID_LENGTH : Z)
    (o : Container) (c : call Inst) :
  invariant o -> invariant (run_call v assemble INVALID_LENGTH o c).
Proof.
  intros Hinv. destruct c as [fid func|sid val]; unfold run_call.
  - destruct (setFunction_as_cases v assemble)
      as (grows & resize & Hr & Hg & _ & _ & _ & Heq).
    rewrite Heq.
    destruct (setFunction_cases_shape grows resize assemble fid func o)
      as [->|(h0 & Hfid & Hh0 & [-> | (size & new & buf & Hbuf & ->)])];
      [done| |]; unfold invariant;
      cbn [functionHeaders set_functionHeaders set_inst];
      apply invariant_insert; try done.
    + apply header_ok_set_params. by apply (Hinv _ _ Hh0).
    + apply header_ok_resize; [done|].
      apply header_ok_set_params. by apply (Hinv _ _ Hh0).
  - destruct (setString_shape INVALID_LENGTH sid val o) as (b & _ & ->).
    done.
Qed.

(** C4. The overflow invariant is kept along every sequence of calls. From a
    container in which every function header satisfies it, any sequence of
    [setFunction] and [setString] calls of either class, returning or
    raising, leaves a container in which every function header [i] has
    bit 5 of its flags set exactly when it has a ["small"] dict, and a
    ["small"] dict, when there is one, records a bytecode size of at most
    32767 and the flags of the header. *)
Theorem C4_invariant_reachable {Inst : Type} (v : version)
    (assemble : list Inst -> result (list Z)) (INVALID_LENGTH : Z)
    (cs : list (call Inst)) (o : Container) :
  invariant o -> invariant (run_calls v assemble INVALID_LENGTH cs o).
Proof.
  revert o. unfold run_calls.
  induction cs as [|c cs IH]; intros o Hinv; cbn [foldl].
  - apply Hinv.
  - apply IH. by apply invariant_run_call.
Qed.

Lemma C4_witness :
  invariant
    (run_calls V96 rejecting_assemble 255
       [SetFunction 0 (raw_func 2 3 [1; 2; 3]); SetString 0 [104; 105]]
       mock_obj).
Proof.
  apply (C4_invariant_reachable V96 rejecting_assemble 255).
  intros [|i] h H; simpl in H; [|discriminate].
  injection H as <-. split.
  - split; [intros Ho; vm_compute in Ho; discriminate|].
    intros [sm Hs]. simpl in Hs. discriminate.
  - intros sm Hs. simpl in Hs. discriminate.
Defined.

(** The keys of the snapshot, other than the two that are overwritten. *)
Lemma small_keys_spec (k : string) :
  k ∈ small_keys <->
  k ∈ ["offset"; "paramCount"; "functionName"; "infoOffset"; "frameSize";
       "environmentSize"; "highestReadCacheIndex";
       "highestWriteCacheIndex"]%string \/
  k = "bytecodeSizeInBytes"%string \/ k = "flags"%string.
Proof. unfold small_keys. rewrite !elem_of_cons, !elem_of_nil. tauto. Qed.

(** C2. Above the 15-bit limit. In either class, when [fid] is in range
    and the payload's bytecode [bc] is longer than 32767 bytes, after the
    call the header has bit 5 of its flags set and records [len(bc)] as
    its bytecode size; and if it had no ["small"] dict it now has one, a
    copy of the header's current fields: ["offset"], ["functionName"],
    ["infoOffset"] and the two cache indices as the header had them before
    the call, ["paramCount"], ["frameSize"] and ["environmentSize"] as the
    payload gives them, each of the eight equal to the header's own entry
    after the call, the bytecode size the smaller of the size before the
    call and 32767, the flags the updated flags, and no key besides these
    ten. The call returns when the function's old byte range lies inside
    the instruction buffer. *)
Theorem C2_setFunction_above_limit {Inst : Type} (v : version)
    (assemble : list Inst -> result (list Z)) (fid : Z) (func : Func Inst)
    (o : Container) (count : Z) (h : FunctionHeader) (offset size : Z)
    (bc : list Z) :
  0 <= fid ->
  header o !! "functionCount" = Some count -> fid < count ->
  functionHeaders o !! Z.to_nat fid = Some h ->
  fields h !! "offset" = Some offset ->
  fields h !! "bytecodeSizeInBytes" = Some size ->
  bytecode assemble func = Ok bc ->
  32767 < len bc ->
  let r := setFunction v assemble fid func o in
  (0 <= offset - instOffset o ->
   offset - instOffset o + size <= len (inst o) -> r.1 = Ok tt) /\
  exists h',
    functionHeaders r.2 !! Z.to_nat fid = Some h' /\
    fields h' !! "flags" = Some (Z.lor (flags_or_zero h) (Z.shiftl 1 5)) /\
    overflowed h' = true /\
    fields h' !! "bytecodeSizeInBytes" = Some (len bc) /\
    (small h = None ->
     exists sm,
       small h' = Some sm /\
       sm !! "bytecodeSizeInBytes" = Some (Z.min size 32767) /\
       sm !! "flags" = fields h' !! "flags" /\
       (forall k,
          k ∈ ["offset"; "functionName"; "infoOffset";
               "highestReadCacheIndex"; "highestWriteCacheIndex"]%string ->
          sm !! k = fields h !! k) /\
       sm !! "paramCount" = Some (paramCount func) /\
       sm !! "frameSize" = Some (registerCount func) /\
       sm !! "environmentSize" = Some (symbolCount func) /\
       (forall k,
          k ∈ ["offset"; "paramCount"; "functionName"; "infoOffset";
               "frameSize"; "environmentSize"; "highestReadCacheIndex";
               "highestWriteCacheIndex"]%string ->
          sm !! k = fields h' !! k) /\
       (forall k,
          is_Some (sm !! k) ->
          k ∈ ["offset"; "paramCount"; "bytecodeSizeInBytes"; "functionName";
               "infoOffset"; "frameSize"; "environmentSize";
               "highestReadCacheIndex"; "highestWriteCacheIndex";
               "flags"]%string)).
Proof.
  intros Hfid Hcount Hlt Hh Hoff Hsize Hbc Hbig.
  destruct (setFunction_as_cases v assemble)
    as (grows & resize & Hr & Hg & Hcov & _ & _ & Heq).
  rewrite Heq. split.
  { intros Hstart Hend.
    by apply (setFunction_cases_ok grows resize assemble fid func o
                count h offset size bc). }
  rewrite (setFunction_cases_run grows resize assemble fid func o
             count h offset size bc) by done.
  cbn zeta. cbn [snd functionHeaders set_functionHeaders set_inst].
  eexists. split.
  { apply list_lookup_insert_eq. by apply lookup_lt_Some in Hh. }
  destruct (resize_cases resize Hr size (len bc) (set_params func h))
    as [[_ ->]|[Hle _]]; [|lia].
  rewrite resize_96_above by done. cbn zeta. cbn [fields small].
  assert (flags_or_zero (set_params func h) = flags_or_zero h) as ->.
  { unfold flags_or_zero. by rewrite fields_set_params. }
  change (Z.shiftl 1 5) with 32.
  set (F := Z.lor (flags_or_zero h) 32).
  assert ((<["bytecodeSizeInBytes":=len bc]>
             (<["flags":=F]> (fields (set_params func h))) : gmap string Z)
          !! "flags" = Some F) as Hflags.
  { rewrite lookup_insert_ne by done. apply lookup_insert_eq. }
  split; [done|]. split.
  { unfold overflowed. cbn [fields]. rewrite Hflags.
    change (Z.shiftl 1 5) with 32. subst F. by rewrite land_lor_32. }
  split; [apply lookup_insert_eq|].
  intros Hsmall. rewrite small_set_params, Hsmall. cbn [from_option id].
  eexists. split; [done|]. split.
  { rewrite lookup_insert_ne by done. apply lookup_insert_eq. }
  split; [by rewrite lookup_insert_eq|].
  set (fh := (<["flags":=F]> (fields (set_params func h)) : gmap string Z)).
  assert (forall k,
    k ∈ ["offset"; "paramCount"; "functionName"; "infoOffset"; "frameSize";
         "environmentSize"; "highestReadCacheIndex";
         "highestWriteCacheIndex"]%string ->
    k <> "bytecodeSizeInBytes"%string /\ k <> "flags"%string /\
    (<["flags":=F]>
       (<["bytecodeSizeInBytes":=Z.min size 32767]>
          (copy_keys small_keys fh)) : gmap string Z) !! k
    = fields (set_params func h) !! k) as Hcopy.
  { intros k Hk.
    assert (k <> "bytecodeSizeInBytes"%string /\ k <> "flags"%string)
      as [Hk1 Hk2].
    { rewrite !elem_of_cons, elem_of_nil in Hk.
      split; intros ->; repeat destruct Hk as [Hk|Hk]; try discriminate Hk;
        exact Hk. }
    split; [exact Hk1|]. split; [exact Hk2|].
    rewrite !(lookup_insert_ne _ _ k) by done.
    rewrite copy_keys_lookup.
    destruct (decide (k ∈ small_keys)) as [_|Hn].
    - unfold fh. by rewrite lookup_insert_ne.
    - exfalso. apply Hn. apply small_keys_spec. by left. }
  destruct (params_set_params func h) as (Hp1 & Hp2 & Hp3).
  split.
  { intros k Hk.
    destruct (Hcopy k) as (_ & _ & ->).
    - rewrite !elem_of_cons, elem_of_nil in Hk. rewrite !elem_of_cons.
      tauto.
    - apply fields_set_params; intros ->;
        rewrite !elem_of_cons, elem_of_nil in Hk;
        repeat destruct Hk as [Hk|Hk]; try discriminate Hk; exact Hk. }
  split.
  { destruct (Hcopy "paramCount"%string) as (_ & _ & ->); [|exact Hp1].
    rewrite !elem_of_cons. tauto. }
  split.
  { destruct (Hcopy "frameSize"%string) as (_ & _ & ->); [|exact Hp2].
    rewrite !elem_of_cons. tauto. }
  split.
  { destruct (Hcopy "environmentSize"%string) as (_ & _ & ->); [|exact Hp3].
    rewrite !elem_of_cons. tauto. }
  split.
  { intros k Hk. destruct (Hcopy k Hk) as (Hk1 & Hk2 & ->).
    unfold fh. by rewrite !(lookup_insert_ne _ _ k) by done. }
  intros k [x Hx].
  destruct (decide (k = "flags"%string)) as [->|Hk2].
  { rewrite !elem_of_cons. tauto. }
  destruct (decide (k = "bytecodeSizeInBytes"%string)) as [->|Hk1].
  { rewrite !elem_of_cons. tauto. }
  rewrite !(lookup_insert_ne _ _ k) in Hx by done.
  rewrite copy_keys_lookup in Hx.
  destruct (decide (k ∈ small_keys)) as [Hin|_]; [exact Hin|discriminate Hx].
Qed.

Lemma C2_witness :
  let r := setFunction V96 rejecting_assemble 0
             (raw_func 1 2 (replicate (Z.to_nat 32768) 0x88)) mock_obj in
  (0 <= 0x1000 - instOffset mock_obj ->
   0x1000 - instOffset mock_obj + 100 <= len (inst mock_obj) -> r.1 = Ok tt) /\
  exists h',
    functionHeaders r.2 !! Z.to_nat 0 = Some h' /\
    fields h' !! "flags" = Some (Z.lor (flags_or_zero mock_header) (Z.shiftl 1 5)) /\
    overflowed h' = true /\
    fields h' !! "bytecodeSizeInBytes"
      = Some (len (replicate (Z.to_nat 32768) 0x88)) /\
    (small mock_header = None ->
     exists sm,
       small h' = Some sm /\
       sm !! "bytecodeSizeInBytes" = Some (Z.min 100 32767) /\
       sm !! "flags" = fields h' !! "flags" /\
       (forall k,
          k ∈ ["offset"; "functionName"; "infoOffset";
               "highestReadCacheIndex"; "highestWriteCacheIndex"]%string ->
          sm !! k = fields mock_header !! k) /\
       sm !! "paramCount" = Some 1 /\
       sm !! "frameSize" = Some 2 /\
       sm !! "environmentSize" = Some 0 /\
       (forall k,
          k ∈ ["offset"; "paramCount"; "functionName"; "infoOffset";
               "frameSize"; "environmentSize"; "highestReadCacheIndex";
               "highestWriteCacheIndex"]%string ->
          sm !! k = fields h' !! k) /\
       (forall k,
          is_Some (sm !! k) ->
          k ∈ ["offset"; "paramCount"; "bytecodeSizeInBytes"; "functionName";
               "infoOffset"; "frameSize"; "environmentSize";
               "highestReadCacheIndex"; "highestWriteCacheIndex";
               "flags"]%string)).
Proof.
  apply (C2_setFunction_above_limit V96 rejecting_assemble 0
           (raw_func 1 2 (replicate (Z.to_nat 32768) 0x88)) mock_obj 1
           mock_header 0x1000 100 (replicate (Z.to_nat 32768) 0x88)).
  - lia.
  - reflexivity.
  - lia.
  - reflexivity.
  - reflexivity.
  - reflexivity.
  - reflexivity.
  - vm_compute. reflexivity.
Defined.

(** The sibling path: in [HBC86] a payload within the 15-bit limit leaves the
    header compact. *)
Lemma HBC86_setFunction_within_limit {Inst : Type}
    (assemble : list Inst -> result (list Z)) (fid : Z) (func : Func Inst)
    (o : Container) (count : Z) (h : FunctionHeader) (offset size : Z)
    (bc : list Z) :
  0 <= fid ->
  header o !! "functionCount" = Some count -> fid < count ->
  functionHeaders o !! Z.to_nat fid = Some h ->
  fields h !! "offset" = Some offset ->
  fields h !! "bytecodeSizeInBytes" = Some size ->
  bytecode assemble func = Ok bc ->
  len bc <= 32767 ->
  exists h',
    functionHeaders (HBC86.setFunction assemble fid func o).2 !! Z.to_nat fid
      = Some h' /\
    fields h' !! "bytecodeSizeInBytes" = Some (len bc) /\
    overflowed h' = false /\
    small h' = None.
Proof.
  intros Hfid Hcount Hlt Hh Hoff Hsize Hbc Hle.
  rewrite HBC86_setFunction_cases.
  destruct (setFunction_cases_after (fun _ _ => true) HBC86.resize assemble
              fid func o count h offset size bc) as (Hh' & _); try done.
  eexists. split; [exact Hh'|].
  rewrite resize_86_below by done. cbn [fields small]. unfold overflowed.
  cbn [fields].
  destruct (fields (set_params func h) !! "flags") as [f|] eqn:Ef.
  - rewrite lookup_insert_ne by done. rewrite !lookup_insert_eq.
    change (Z.shiftl 1 5) with 32. by rewrite land_clear_32.
  - rewrite lookup_insert_eq. by rewrite lookup_insert_ne, Ef.
Qed.

(** In [HBC96] such a payload changes the recorded size and nothing else in
    the header. *)
Lemma HBC96_setFunction_within_limit {Inst : Type}
    (assemble : list Inst -> result (list Z)) (fid : Z) (func : Func Inst)
    (o : Container) (count : Z) (h : FunctionHeader) (offset size : Z)
    (bc : list Z) :
  0 <= fid ->
  header o !! "functionCount" = Some count -> fid < count ->
  functionHeaders o !! Z.to_nat fid = Some h ->
  fields h !! "offset" = Some offset ->
  fields h !! "bytecodeSizeInBytes" = Some size ->
  bytecode assemble func = Ok bc ->
  len bc <= 32767 ->
  exists h',
    functionHeaders (HBC96.setFunction assemble fid func o).2 !! Z.to_nat fid
      = Some h' /\
    fields h' !! "bytecodeSizeInBytes" = Some (len bc) /\
    overflowed h' = overflowed h /\
    small h' = small h.
Proof.
  intros Hfid Hcount Hlt Hh Hoff Hsize Hbc Hle.
  rewrite HBC96_setFunction_cases.
  destruct (setFunction_cases_after (fun size new => new >? size) HBC96.resize
              assemble fid func o count h offset size bc) as (Hh' & _);
    try done.
  eexists. split; [exact Hh'|].
  rewrite resize_96_below by done. split; [apply lookup_insert_eq|].
  rewrite overflowed_set_other by done. unfold set_params.
  by rewrite !overflowed_set_other.
Qed.

Lemma len_replicate {A : Type} (n : Z) (x : A) :
  0 <= n -> len (replicate (Z.to_nat n) x) = n.
Proof. intros H. unfold len. rewrite length_replicate. lia. Qed.

(** C1. Within the 15-bit limit. The claim holds for [HBC86]
    ([HBC86_setFunction_within_limit]) and fails for [HBC96]: on the
    fixture of run_tests.py, after a payload of 40000 bytes has made the
    header overflow, a payload of 100 bytes is recorded as the bytecode
    size, yet bit 5 of the flags stays set and the ["small"] dict stays,
    where [HBC86] clears the one and deletes the other. *)
Theorem C1_HBC96_overflow_not_cleared :
  let big := raw_func 1 2 (replicate (Z.to_nat 40000) 0xFF) in
  let little := raw_func 1 2 (replicate (Z.to_nat 100) 0x11) in
  let o96 := (HBC96.setFunction rejecting_assemble 0 big mock_obj).2 in
  let o86 := (HBC86.setFunction rejecting_assemble 0 big mock_obj).2 in
  (exists h,
     functionHeaders (HBC96.setFunction rejecting_assemble 0 little o96).2
       !! 0%nat = Some h /\
     fields h !! "bytecodeSizeInBytes" = Some 100 /\
     overflowed h = true /\ is_Some (small h)) /\
  (exists h,
     functionHeaders (HBC86.setFunction rejecting_assemble 0 little o86).2
       !! 0%nat = Some h /\
     fields h !! "bytecodeSizeInBytes" = Some 100 /\
     overflowed h = false /\ small h = None).
Proof.
  cbn zeta.
  set (big := raw_func 1 2 (replicate (Z.to_nat 40000) 0xFF)).
  set (little := raw_func 1 2 (replicate (Z.to_nat 100) 0x11)).
  split.
  - destruct (setFunction_cases_after (fun size new => new >? size)
                HBC96.resize rejecting_assemble 0 big mock_obj 1 mock_header
                0x1000 100 (replicate (Z.to_nat 40000) 0xFF))
      as (Hh1 & Hhd1 & _);
      [lia|reflexivity|lia|reflexivity|reflexivity|reflexivity|reflexivity|].
    rewrite <- HBC96_setFunction_cases in Hh1, Hhd1.
    rewrite len_replicate in Hh1 by lia.
    set (h1 := HBC96.resize 100 40000 (set_params big mock_header)) in *.
    destruct (HBC96_setFunction_within_limit rejecting_assemble 0 little
                (HBC96.setFunction rejecting_assemble 0 big mock_obj).2
                1 h1 0x1000 40000 (replicate (Z.to_nat 100) 0x11))
      as (h' & Hh' & Hsz & Hov & Hsm).
    + lia.
    + rewrite Hhd1. reflexivity.
    + lia.
    + exact Hh1.
    + vm_compute. reflexivity.
    + vm_compute. reflexivity.
    + reflexivity.
    + rewrite len_replicate by lia. lia.
    + exists h'. split; [exact Hh'|].
      rewrite len_replicate in Hsz by lia. split; [exact Hsz|].
      rewrite Hov, Hsm. split; [vm_compute; reflexivity|].
      eexists. reflexivity.
  - destruct (setFunction_cases_after (fun _ _ => true)
                HBC86.resize rejecting_assemble 0 big mock_obj 1 mock_header
                0x1000 100 (replicate (Z.to_nat 40000) 0xFF))
      as (Hh1 & Hhd1 & _);
      [lia|reflexivity|lia|reflexivity|reflexivity|reflexivity|reflexivity|].
    rewrite <- HBC86_setFunction_cases in Hh1, Hhd1.
    rewrite len_replicate in Hh1 by lia.
    set (h1 := HBC86.resize 100 40000 (set_params big mock_header)) in *.
    destruct (HBC86_setFunction_within_limit rejecting_assemble 0 little
                (HBC86.setFunction rejecting_assemble 0 big mock_obj).2
                1 h1 0x1000 40000 (replicate (Z.to_nat 100) 0x11))
      as (h' & Hh' & Hsz & Hov & Hsm).
    + lia.
    + rewrite Hhd1. reflexivity.
    + lia.
    + exact Hh1.
    + vm_compute. reflexivity.
    + vm_compute. reflexivity.
    + reflexivity.
    + rewrite len_replicate by lia. lia.
    + exists h'. split; [exact Hh'|].
      rewrite len_replicate in Hsz by lia.
      split; [exact Hsz|]. split; [exact Hov|exact Hsm].
Qed.

(** C5 as stated fails: on the fixture, with a translator that rejects the
    instructions, [setFunction] raises the translator's error and has
    already written the three counts of the payload into the header. *)
Lemma C5_counterexample :
  let failed := fun v : version =>
    let r := setFunction v rejecting_assemble 0 asm_func mock_obj in
    r.1 = Raise TranslatorError /\
    r.2 <> mock_obj /\
    (exists h, functionHeaders mock_obj !! 0%nat = Some h /\
               fields h !! "paramCount" = Some 1 /\
               fields h !! "frameSize" = Some 2 /\
               fields h !! "environmentSize" = Some 0) /\
    (exists h, functionHeaders r.2 !! 0%nat = Some h /\
               fields h !! "paramCount" = Some 7 /\
               fields h !! "frameSize" = Some 8 /\
               fields h !! "environmentSize" = Some 9) in
  failed V86 /\ failed V96.
Proof.
  cbn zeta.
  assert (forall v,
    setFunction v rejecting_assemble 0 asm_func mock_obj =
    (Raise TranslatorError,
     set_functionHeaders [set_params asm_func mock_header] mock_obj)) as Hrun.
  { intros v. destruct v; cbn [setFunction];
      [rewrite HBC86_setFunction_cases|rewrite HBC96_setFunction_cases];
      reflexivity. }
  split; rewrite Hrun.
  all: cbn [fst snd functionHeaders set_functionHeaders].
  all: split; [reflexivity|]; split;
    [intros H;
     apply (f_equal (fun o => h ← functionHeaders o !! 0%nat;
                              fields h !! "paramCount")) in H;
     vm_compute in H; discriminate H|].
  all: split;
    [exists mock_header; repeat split; reflexivity
    |exists (set_params asm_func mock_header);
     repeat split; vm_compute; reflexivity].
Qed.

(** C5, amended. A failing [setFunction] is not all-or-nothing. In either
    class, for every payload and every container, a call whose function ID
    is out of range (negative, or not below the function count of the file
    header) raises and leaves the container as it was; a call whose
    assemble step fails raises the translator's error after the header's
    [paramCount], [frameSize] and [environmentSize] have been overwritten
    with the payload's values, and leaves everything else, the instruction
    buffer included, as it was. *)
Theorem C5_setFunction_failed_assemble {Inst : Type} (v : version)
    (assemble : list Inst -> result (list Z)) (fid : Z) (func : Func Inst)
    (o : Container) :
  (fid < 0 \/
   (exists count, header o !! "functionCount" = Some count /\ count <= fid) ->
   setFunction v assemble fid func o =
     (Raise (AssertionError "Invalid function ID"), o)) /\
  (forall (count : Z) (h : FunctionHeader) (e : exn),
     0 <= fid ->
     header o !! "functionCount" = Some count -> fid < count ->
     functionHeaders o !! Z.to_nat fid = Some h ->
     is_Some (fields h !! "offset") ->
     is_Some (fields h !! "bytecodeSizeInBytes") ->
     bytecode assemble func = Raise e ->
     setFunction v assemble fid func o =
       (Raise e,
        set_functionHeaders
          (<[Z.to_nat fid:=set_params func h]> (functionHeaders o)) o)).
Proof.
  destruct (setFunction_as_cases v assemble)
    as (grows & resize & _ & _ & _ & _ & _ & Heq).
  rewrite Heq. split.
  - intros Hout. unfold setFunction_cases, dict_get.
    destruct (Z.leb_spec 0 fid) as [Hfid|]; [|done].
    destruct Hout as [Hneg|(count & Hcount & Hge)]; [lia|].
    rewrite Hcount. cbn [of_option].
    destruct (Z.ltb_spec fid count); [lia|done].
  - intros count h e Hfid Hcount Hlt Hh [offset Hoff] [size Hsize] Hbc.
    unfold setFunction_cases, setFunction_write, dict_get.
    destruct (Z.leb_spec 0 fid); [|lia].
    rewrite Hcount. cbn [of_option].
    destruct (Z.ltb_spec fid count); [|lia].
    rewrite Hh. rewrite !fields_set_params by done.
    by rewrite Hoff, Hsize, Hbc.
Qed.

Lemma C5_witness :
  setFunction V86 rejecting_assemble 0 asm_func mock_obj =
    (Raise TranslatorError,
     set_functionHeaders
       (<[Z.to_nat 0:=set_params asm_func mock_header]>
          (functionHeaders mock_obj)) mock_obj) /\
  setFunction V96 rejecting_assemble 1 (raw_func 1 2 [1; 2; 3]) mock_obj =
    (Raise (AssertionError "Invalid function ID"), mock_obj) /\
  setFunction V86 rejecting_assemble (-1) asm_func mock_obj =
    (Raise (AssertionError "Invalid function ID"), mock_obj).
Proof.
  split; [|split].
  - apply (proj2 (C5_setFunction_failed_assemble V86 rejecting_assemble 0
                    asm_func mock_obj) 1 mock_header TranslatorError).
    + lia.
    + reflexivity.
    + lia.
    + reflexivity.
    + exists 0x1000. reflexivity.
    + exists 100. reflexivity.
    + reflexivity.
  - apply (proj1 (C5_setFunction_failed_assemble V96 rejecting_assemble 1
                    (raw_func 1 2 [1; 2; 3]) mock_obj)).
    right. exists 1. split; [reflexivity|lia].
  - apply (proj1 (C5_setFunction_failed_assemble V86 rejecting_assemble (-1)
                    asm_func mock_obj)).
    left. lia.
Defined.

(** ** Serialized literals *)

(** Where payload decoding starts, by the count rather than by the
    extension bit. *)
Lemma first_ind_spec (tag : Z * Z) :
  first_ind tag = if tag.1 >? 15 then 2 else 1.
Proof. done. Qed.

Lemma _checkBufferTag_short (buf : list Z) (iid keyTag : Z) :
  py_getitem buf iid = Ok keyTag -> Z.land keyTag 0x80 = 0 ->
  _checkBufferTag buf iid = Ok (Z.land keyTag 0x0f, Z.land keyTag TagMask) /\
  first_ind (Z.land keyTag 0x0f, Z.land keyTag TagMask) = 1.
Proof.
  intros Hk Hbit. unfold _checkBufferTag. rewrite Hk. cbn [rbind].
  rewrite Hbit. cbn [Z.eqb negb]. split; [done|].
  unfold first_ind. cbn [fst].
  assert (0 <= Z.land keyTag 15 < 16) as Hr.
  { change 15 with (Z.ones 4). rewrite Z.land_ones by lia.
    change (2 ^ 4) with 16. apply Z.mod_pos_bound. lia. }
  destruct (Z.gtb_spec (Z.land keyTag 15) 15); [lia|done].
Qed.

Lemma _checkBufferTag_extended (buf : list Z) (iid keyTag next : Z) :
  py_getitem buf iid = Ok keyTag -> Z.land keyTag 0x80 <> 0 ->
  py_getitem buf (iid + 1) = Ok next ->
  let count := Z.lor (Z.shiftl (Z.land keyTag 0x0f) 8) next in
  _checkBufferTag buf iid = Ok (count, Z.land keyTag TagMask) /\
  first_ind (count, Z.land keyTag TagMask) = if count >? 15 then 2 else 1.
Proof.
  intros Hk Hbit Hn. unfold _checkBufferTag. rewrite Hk. cbn [rbind].
  destruct (Z.eqb_spec (Z.land keyTag 128) 0) as [E|_]; [done|].
  cbn [negb]. by rewrite Hn.
Qed.

(** C3. The count is decoded as the claim says, and a group without the
    extension bit is decoded from one byte after its offset
    ([_checkBufferTag_short], [_checkBufferTag_extended]). The start of the
    payload, however, is chosen by the count and not by the bit: for a
    group whose tag has bit 7 set and whose 12-bit count is at most 15, the
    three accessors decode from one byte after the group offset and return
    the second header byte as the first value. Here the group is
    [0xE0, 0x02, 0x05, 0x06]: count 2, byte-string payloads 5 and 6. *)
Theorem C3_extended_tag_small_count :
  Z.land 0xE0 0x80 <> 0 /\
  _checkBufferTag extended_small_buffer 0 = Ok (2, ByteStringTag) /\
  first_ind (2, ByteStringTag) = 1 /\
  getArray 0 (slp_obj extended_small_buffer [] [])
    = Ok (Some "String"%string, [VInt 2; VInt 5]) /\
  getObjKey 0 (slp_obj [] extended_small_buffer [])
    = Ok (Some "String"%string, [VInt 2; VInt 5]) /\
  getObjValue 0 (slp_obj [] [] extended_small_buffer)
    = Ok (Some "String"%string, [VInt 2; VInt 5]).
Proof.
  split; [vm_compute; discriminate|].
  repeat split; vm_compute; reflexivity.
Qed.

(** C6 as stated fails: the tag byte 0x77 has the kind bits of
    [IntegerTag], so the seven values are read four bytes at a time and the
    fourth read runs past the end of the buffer. *)
Lemma C6_counterexample :
  getArray 0 (slp_obj scenario6_buffer [] []) = Raise StructError /\
  getArray 0 (slp_obj scenario6_buffer [] [])
    <> Ok (Some "String"%string,
           [VInt 1; VInt 2; VInt 3; VInt 4; VInt 5; VInt 6; VInt 7]).
Proof.
  assert (getArray 0 (slp_obj scenario6_buffer [] []) = Raise StructError)
    as -> by (vm_compute; reflexivity).
  split; [reflexivity|discriminate].
Qed.

(** C6, amended. The tag byte of a group of seven short string indices is
    0x57; with it in place of 0x77, [getArray(0)] returns
    [("String", [1, 2, 3, 4, 5, 6, 7])]. The byte 0x77 decodes to the
    count 7 and the kind [IntegerTag], and [getArray(0)] on the buffer of
    the scenario raises. *)
Theorem C6_getArray_scenario :
  getArray 0 (slp_obj short_string_buffer [] [])
    = Ok (Some "String"%string,
          [VInt 1; VInt 2; VInt 3; VInt 4; VInt 5; VInt 6; VInt 7]) /\
  _checkBufferTag short_string_buffer 0 = Ok (7, ShortStringTag) /\
  _checkBufferTag scenario6_buffer 0 = Ok (7, IntegerTag) /\
  getArray 0 (slp_obj scenario6_buffer [] []) = Raise StructError.
Proof. repeat split; vm_compute; reflexivity. Qed.

Lemma _SLPToString_label tag buf iid ind ty val ind' :
  _SLPToString tag buf iid ind = Ok (ty, val, ind') -> ty ∈ kind_labels.
Proof.
  unfold _SLPToString, kind_labels.
  repeat
    (match goal with
     | |- context [if ?b then _ else _] => destruct b
     | |- context [rbind ?x _] => destruct x; cbn [rbind]
     end; try discriminate);
    intros [= <- _ _]; set_solver.
Qed.

Lemma decode_loop_result count : forall tag buf id t arr ind t' arr',
  decode_loop count tag buf id t arr ind = Ok (t', arr') ->
  length arr' = (length arr + count)%nat /\
  match count with
  | O => t' = t
  | S _ => exists label, t' = Some label /\ label ∈ kind_labels
  end.
Proof.
  induction count as [|count IH]; intros tag buf id t arr ind t' arr' H;
    cbn [decode_loop] in H.
  - injection H as <- <-. split; [lia|done].
  - destruct (_SLPToString tag buf id ind) as [[[ty val] ind'']|e] eqn:E;
      cbn [rbind fst snd] in H; [|discriminate].
    apply IH in H as [Hlen Ht]. rewrite length_app in Hlen. cbn in Hlen.
    split; [lia|].
    destruct count as [|count'].
    + subst t'. exists ty. split; [done|]. by eapply _SLPToString_label.
    + done.
Qed.

(** C8 as stated fails for a group of no elements: the label is then
    Python's [None]. Here the group is the single tag byte 0x00
    ([NullTag], count 0). *)
Lemma C8_counterexample :
  getArray 0 (slp_obj [0x00] [] []) = Ok (None, []) /\
  getObjKey 0 (slp_obj [] [0x00] []) = Ok (None, []) /\
  getObjValue 0 (slp_obj [] [] [0x00]) = Ok (None, []).
Proof. repeat split; vm_compute; reflexivity. Qed.

Lemma accessor_unfold k id o :
  exists msg,
    accessor k id o =
    (ok <- (if 0 <=? id
            then n <- dict_get (header o) (size_key k) ;; Ok (id <? n)
            else Ok false) ;;
     if ok : bool then
       tag <- _checkBufferTag (buffer_of k o) id ;;
       decode_loop (Z.to_nat tag.1) tag.2 (buffer_of k o) id None []
         (first_ind tag)
     else Raise (AssertionError msg))%res.
Proof. destruct k; eexists; reflexivity. Qed.

(** C8, amended. A successful call of [getArray], [getObjKey] or
    [getObjValue] returns as many values as the count of the group at the
    given offset of the accessor's own buffer. When the count is not zero
    the kind label is one of the six strings "String", "Number", "Integer",
    "Null", "Boolean" and "Empty"; when the count is zero the label is
    [None] and the list is empty. *)
Theorem C8_kind_label (k : slp_buffer) (o : Container) (id : Z)
    (t : option string) (arr : list value) :
  accessor k id o = Ok (t, arr) ->
  exists tag : Z * Z,
    _checkBufferTag (buffer_of k o) id = Ok tag /\
    length arr = Z.to_nat tag.1 /\
    match Z.to_nat tag.1 with
    | O => t = None /\ arr = []
    | S _ => exists label, t = Some label /\ label ∈ kind_labels
    end.
Proof.
  destruct (accessor_unfold k id o) as [msg ->].
  intros H.
  destruct (0 <=? id); cbn [rbind] in H; [|discriminate].
  destruct (dict_get (header o) (size_key k)) as [n|e]; cbn [rbind] in H;
    [|discriminate].
  destruct (id <? n); [|discriminate].
  destruct (_checkBufferTag (buffer_of k o) id) as [tag|e]; cbn [rbind] in H;
    [|discriminate].
  exists tag. split; [done|].
  apply decode_loop_result in H as [Hlen Ht]. cbn [length] in Hlen.
  split; [lia|].
  destruct (Z.to_nat tag.1) as [|c]; [|done].
  split; [done|]. by destruct arr.
Qed.

Lemma C8_witness :
  exists tag : Z * Z,
    _checkBufferTag (buffer_of ObjKeyBuffer (slp_obj [] short_string_buffer []))
      0 = Ok tag /\
    length [VInt 1; VInt 2; VInt 3; VInt 4; VInt 5; VInt 6; VInt 7]
      = Z.to_nat tag.1 /\
    match Z.to_nat tag.1 with
    | O => Some "String"%string = None /\
           [VInt 1; VInt 2; VInt 3; VInt 4; VInt 5; VInt 6; VInt 7] = []
    | S _ => exists label, Some "String"%string = Some label /\
                           label ∈ kind_labels
    end.
Proof.
  apply (C8_kind_label ObjKeyBuffer (slp_obj [] short_string_buffer []) 0
           (Some "String"%string)
           [VInt 1; VInt 2; VInt 3; VInt 4; VInt 5; VInt 6; VInt 7]).
  vm_compute. reflexivity.
Defined.

(** ** Strings *)

Lemma utf8_char_len c bs :
  utf8_char c = Ok bs -> (1 <= length bs <= 4)%nat.
Proof.
  unfold utf8_char.
  repeat (match goal with
          | |- context [if ?b then _ else _] => destruct b
          end; try discriminate);
    intros [= <-]; cbn; lia.
Qed.

Lemma utf8_encode_len val : forall bs,
  utf8_encode val = Ok bs -> len val <= len bs <= 4 * len val.
Proof.
  unfold len. induction val as [|c val IH]; intros bs H; cbn in H.
  - injection H as <-. cbn. lia.
  - destruct (utf8_char c) as [b|] eqn:Ec; cbn [rbind] in H; [|discriminate].
    destruct (utf8_encode val) as [rest|]; cbn [rbind] in H; [|discriminate].
    injection H as <-. apply utf8_char_len in Ec.
    specialize (IH rest eq_refl). rewrite length_app. cbn [length]. lia.
Qed.

(** C10 as stated fails: a value within the character count need not be
    accepted. On the fixture, whose only slot has length 4 and fills the
    storage, the one-character string of a lone surrogate cannot be encoded
    and the call raises; and the four-character string of U+00E9 encodes
    to eight bytes, of which the copy writes four before it runs off the
    end of the storage and raises. *)
Lemma C10_counterexample :
  (len lone_surrogate <= 4 /\
   (setString 255 0 lone_surrogate mock_obj).1 = Raise UnicodeEncodeError) /\
  (len four_e_acute <= 4 /\
   utf8_encode four_e_acute
     = Ok [0xC3; 0xA9; 0xC3; 0xA9; 0xC3; 0xA9; 0xC3; 0xA9] /\
   (setString 255 0 four_e_acute mock_obj).1 = Raise IndexError /\
   stringStorage (setString 255 0 four_e_acute mock_obj).2
     = [0xC3; 0xA9; 0xC3; 0xA9]).
Proof.
  split; [split; [vm_compute; discriminate|vm_compute; reflexivity]|].
  split; [vm_compute; discriminate|].
  repeat split; vm_compute; reflexivity.
Qed.

(** C10, amended. For a slot that is not UTF-16, of resolved offset
    [offset] and length [L], [setString] checks the number of characters
    of the value against [L] and not the number of bytes of its UTF-8
    encoding. For every value that can be encoded, has at most [L]
    characters and whose encoding fits in the storage from [offset] on,
    the call returns and has copied the whole encoding [bs] into the
    storage from [offset] on, changing nothing else; [bs] has at least as
    many bytes as the value has characters, so that with characters of
    several bytes it can be longer than [L], and the bytes after the slot
    are then overwritten. *)
Theorem C10_setString_counts_characters (INVALID_LENGTH : Z) (sid : Z)
    (val : pystr) (o : Container) (count isUTF16 offset L : Z) (bs : list Z) :
  0 <= sid ->
  header o !! "stringCount" = Some count -> sid < count ->
  resolveString INVALID_LENGTH sid o = (Ok (isUTF16, offset, L), o) ->
  isUTF16 = 0 ->
  utf8_encode val = Ok bs ->
  len val <= L ->
  0 <= offset -> offset + len bs <= len (stringStorage o) ->
  let storage :=
    take (Z.to_nat offset) (stringStorage o) ++ bs ++
    drop (Z.to_nat offset + length bs) (stringStorage o) in
  setString INVALID_LENGTH sid val o = (Ok tt, set_stringStorage storage o) /\
  len val <= len bs /\
  forall i : nat, (i < length bs)%nat ->
    storage !! (Z.to_nat offset + i)%nat = bs !! i.
Proof.
  intros Hsid Hcount Hlt Hslot -> Henc Hlen Hoff Hfit. cbn zeta.
  split; [|split].
  - unfold setString. unfold_method. unfold dict_get.
    destruct (Z.leb_spec 0 sid); [|lia].
    rewrite Hcount. cbn [of_option].
    destruct (Z.ltb_spec sid count); [|lia].
    rewrite Hslot. cbn [fst snd Z.eqb negb]. rewrite Henc. cbn [rbind fst snd].
    destruct (Z.leb_spec (len val) L); [|lia].
    by rewrite memcpy_in_range.
  - by apply utf8_encode_len in Henc as [? _].
  - intros i Hi.
    rewrite lookup_app_r by (rewrite length_take; unfold len in *; lia).
    rewrite length_take. rewrite Nat.min_l by (unfold len in *; lia).
    replace (Z.to_nat offset + i - Z.to_nat offset)%nat with i by lia.
    by rewrite lookup_app_l.
Qed.

Lemma C10_witness :
  let storage :=
    take (Z.to_nat 0) (stringStorage string_obj) ++
    [0xC3; 0xA9; 0xC3; 0xA9; 0xC3; 0xA9; 0xC3; 0xA9] ++
    drop (Z.to_nat 0 + 8) (stringStorage string_obj) in
  setString 255 0 four_e_acute string_obj
    = (Ok tt, set_stringStorage storage string_obj) /\
  len four_e_acute <= len [0xC3; 0xA9; 0xC3; 0xA9; 0xC3; 0xA9; 0xC3; 0xA9] /\
  forall i : nat,
    (i < length [0xC3; 0xA9; 0xC3; 0xA9; 0xC3; 0xA9; 0xC3; 0xA9])%nat ->
    storage !! (Z.to_nat 0 + i)%nat
      = [0xC3; 0xA9; 0xC3; 0xA9; 0xC3; 0xA9; 0xC3; 0xA9] !! i.
Proof.
  apply (C10_setString_counts_characters 255 0 four_e_acute string_obj
           1 0 0 4 [0xC3; 0xA9; 0xC3; 0xA9; 0xC3; 0xA9; 0xC3; 0xA9]).
  - lia.
  - reflexivity.
  - lia.
  - vm_compute. reflexivity.
  - reflexivity.
  - vm_compute. reflexivity.
  - vm_compute. discriminate.
  - lia.
  - vm_compute. discriminate.
Defined.

(** * Further properties *)

(** ** [setString] as a plan and a copy *)

Lemma resolveString_reads INVALID_LENGTH sid o :
  (resolveString INVALID_LENGTH sid o).2 = o.
Proof.
  unfold resolveString, getStringTableEntry, getStringTableOverflowEntry.
  unfold_method.
  repeat
    (match goal with
     | |- context [match ?x with Ok _ => _ | Raise _ => _ end] => destruct x
     | |- context [if ?b then _ else _] => destruct b
     end; cbn [snd fst]; try done).
Qed.

Lemma setString_cases INVALID_LENGTH sid val o :
  setString INVALID_LENGTH sid val o =
  match setString_plan INVALID_LENGTH sid val o with
  | Ok p =>
      let r := memcpy (stringStorage o) p.1 p.2 (len p.1) in
      (r.1, set_stringStorage r.2 o)
  | Raise e => (Raise e, o)
  end.
Proof.
  unfold setString, setString_plan. unfold_method.
  destruct (0 <=? sid); cbn [rbind].
  2:{ done. }
  destruct (dict_get (header o) "stringCount") as [n|e]; cbn [rbind]; [|done].
  destruct (sid <? n); [|done].
  pose proof (resolveString_reads INVALID_LENGTH sid o) as Hr.
  destruct (resolveString INVALID_LENGTH sid o) as [[slot|e] o']; cbn [fst snd] in *;
    subst o'; cbn [rbind]; [|done].
  destruct (negb (slot.1.1 =? 0)).
  - destruct (fromhex val) as [s|e]; cbn [rbind fst snd]; [|done].
    by destruct (len s `div` 2 <=? slot.2).
  - destruct (utf8_encode val) as [s|e]; cbn [rbind fst snd]; [|done].
    by destruct (len val <=? slot.2).
Qed.

Lemma resolveString_tables INVALID_LENGTH sid o o' :
  stringTableEntries o' = stringTableEntries o ->
  stringTableOverflowEntries o' = stringTableOverflowEntries o ->
  (resolveString INVALID_LENGTH sid o').1 = (resolveString INVALID_LENGTH sid o).1.
Proof.
  intros He Hv.
  unfold resolveString, getStringTableEntry, getStringTableOverflowEntry.
  unfold_method. rewrite He.
  repeat
    (match goal with
     | |- context [match ?x with Ok _ => _ | Raise _ => _ end] => destruct x
     | |- context [if ?b then _ else _] => destruct b
     end; cbn [snd fst]; rewrite ?Hv; try done).
Qed.

Lemma setString_plan_tables INVALID_LENGTH sid val o o' :
  header o' = header o ->
  stringTableEntries o' = stringTableEntries o ->
  stringTableOverflowEntries o' = stringTableOverflowEntries o ->
  setString_plan INVALID_LENGTH sid val o' = setString_plan INVALID_LENGTH sid val o.
Proof.
  intros Hh He Hv. unfold setString_plan.
  by rewrite Hh, (resolveString_tables _ _ o o').
Qed.

Lemma memcpy_from_raises n : forall i dest src start e,
  (memcpy_from i n dest src start).1 = Raise e -> e = IndexError.
Proof.
  induction n as [|n IH]; intros i dest src start e; cbn [memcpy_from].
  - cbn. discriminate.
  - unfold py_getitem at 1, py_setitem.
    destruct (py_index (length src) (Z.of_nat i) ≫= _) as [v|]; cbn [of_option rbind].
    2:{ cbn. by intros [= <-]. }
    destruct (py_index (length dest) (start + Z.of_nat i)) as [p|];
      cbn [fmap option_fmap option_map of_option].
    + apply IH.
    + cbn. by intros [= <-].
Qed.

Lemma memcpy_raises dest src start n e :
  (memcpy dest src start n).1 = Raise e -> e = IndexError.
Proof. apply memcpy_from_raises. Qed.

(** X1. Whatever its arguments and its outcome, [setString] changes
    nothing but the contents of the string storage: the file header, the
    function headers, the two string tables, the three literal buffers and
    the instructions are as before, and the storage keeps its length. *)
Theorem X1_setString_frame (INVALID_LENGTH : Z) (sid : Z) (val : pystr)
    (o : Container) :
  let o' := (setString INVALID_LENGTH sid val o).2 in
  header o' = header o /\
  functionHeaders o' = functionHeaders o /\
  stringTableEntries o' = stringTableEntries o /\
  stringTableOverflowEntries o' = stringTableOverflowEntries o /\
  length (stringStorage o') = length (stringStorage o) /\
  arrayBuffer o' = arrayBuffer o /\
  objKeyBuffer o' = objKeyBuffer o /\
  objValueBuffer o' = objValueBuffer o /\
  instOffset o' = instOffset o /\
  inst o' = inst o.
Proof.
  cbn zeta. destruct (setString_shape INVALID_LENGTH sid val o) as (b & Hb & ->).
  cbn. by rewrite Hb.
Qed.

(** X2. [setString] checks before it writes: when it raises anything other
    than an [IndexError] (a failed assertion, a missing key, a value that
    cannot be encoded or is not hexadecimal), the container is exactly as
    it was. *)
Theorem X2_setString_validates_before_writing (INVALID_LENGTH : Z) (sid : Z)
    (val : pystr) (o : Container) (e : exn) :
  (setString INVALID_LENGTH sid val o).1 = Raise e ->
  e <> IndexError ->
  (setString INVALID_LENGTH sid val o).2 = o.
Proof.
  rewrite setString_cases.
  destruct (setString_plan INVALID_LENGTH sid val o) as [p|e']; [|done].
  cbn zeta. cbn [fst snd]. intros H Hne. by apply memcpy_raises in H.
Qed.

(** X3. [setString] is idempotent: a second call with the same arguments
    has the outcome of the first and leaves the container the first one
    left, whether the call returns or raises. *)
Theorem X3_setString_idempotent (INVALID_LENGTH : Z) (sid : Z) (val : pystr)
    (o : Container) :
  setString INVALID_LENGTH sid val (setString INVALID_LENGTH sid val o).2
  = setString INVALID_LENGTH sid val o.
Proof.
  rewrite (setString_cases _ _ _ o).
  destruct (setString_plan INVALID_LENGTH sid val o) as [p|e] eqn:Hp.
  - cbn zeta. cbn [snd]. rewrite setString_cases.
    rewrite (setString_plan_tables _ _ _ o) by done. rewrite Hp.
    cbn zeta. cbn [stringStorage set_stringStorage].
    by rewrite memcpy_idem.
  - cbn [snd]. rewrite setString_cases. by rewrite Hp.
Qed.

Lemma setFunction_cases_storage {Inst : Type} grows resize
    (assemble : list Inst -> result (list Z)) fid func b o :
  setFunction_cases grows resize assemble fid func (set_stringStorage b o) =
  ((setFunction_cases grows resize assemble fid func o).1,
   set_stringStorage b (setFunction_cases grows resize assemble fid func o).2).
Proof.
  unfold setFunction_cases, setFunction_write.
  cbn [header functionHeaders instOffset inst set_stringStorage].
  repeat
    (match goal with
     | |- context [match ?x with Ok _ => _ | Raise _ => _ end] => destruct x
     | |- context [match ?x with Some _ => _ | None => _ end] => destruct x
     | |- context [if ?b then _ else _] => destruct b
     end; cbn [snd fst]; try reflexivity).
Qed.

Lemma setString_after_setFunction {Inst : Type} grows resize
    (assemble : list Inst -> result (list Z)) fid func INVALID_LENGTH sid val o :
  let o' := (setFunction_cases grows resize assemble fid func o).2 in
  setString INVALID_LENGTH sid val o' =
  ((setString INVALID_LENGTH sid val o).1,
   set_stringStorage (stringStorage (setString INVALID_LENGTH sid val o).2) o').
Proof.
  cbn zeta.
  assert (forall o', header o' = header o ->
            stringTableEntries o' = stringTableEntries o ->
            stringTableOverflowEntries o' = stringTableOverflowEntries o ->
            stringStorage o' = stringStorage o ->
            setString INVALID_LENGTH sid val o' =
            ((setString INVALID_LENGTH sid val o).1,
             set_stringStorage
               (stringStorage (setString INVALID_LENGTH sid val o).2) o'))
    as Hgen.
  { intros o' Hh He Hv Hs. rewrite !setString_cases.
    rewrite (setString_plan_tables _ _ _ o o') by done.
    destruct (setString_plan INVALID_LENGTH sid val o) as [p|e].
    - cbn zeta. cbn [fst snd stringStorage set_stringStorage]. by rewrite Hs.
    - cbn [fst snd]. rewrite <- Hs. by destruct o'. }
  destruct (setFunction_cases_shape grows resize assemble fid func o)
    as [->|(h0 & Hfid & Hh0 & [-> | (size & new & buf & Hbuf & ->)])];
    by apply Hgen.
Qed.

(** X4. [setFunction] and [setString] commute: in either class, for all
    arguments and every starting container, the two orders of the two
    calls leave the same container, and each call has the same outcome in
    both orders. *)
Theorem X4_setFunction_setString_commute {Inst : Type} (v : version)
    (assemble : list Inst -> result (list Z)) (INVALID_LENGTH : Z)
    (fid : Z) (func : Func Inst) (sid : Z) (val : pystr) (o : Container) :
  let f := setFunction v assemble fid func o in
  let fs := setString INVALID_LENGTH sid val f.2 in
  let s := setString INVALID_LENGTH sid val o in
  let sf := setFunction v assemble fid func s.2 in
  fs.2 = sf.2 /\ f.1 = sf.1 /\ fs.1 = s.1.
Proof.
  destruct (setFunction_as_cases v assemble)
    as (grows & resize & _ & _ & _ & _ & _ & Heq).
  cbn zeta. rewrite !Heq.
  rewrite setString_after_setFunction. cbn [fst snd].
  destruct (setString_shape INVALID_LENGTH sid val o) as (b & _ & Hb).
  rewrite Hb. rewrite setFunction_cases_storage. by cbn [fst snd stringStorage set_stringStorage].
Qed.

(** ** The bytes [setFunction] writes *)

Lemma py_slice_middle {A : Type} (pre mid post : list A) (start : Z) :
  start = len pre ->
  py_slice (pre ++ mid ++ post) start (start + len mid) = mid.
Proof.
  intros ->. unfold py_slice, py_bound, len.
  rewrite !length_app.
  destruct (Z.ltb_spec (Z.of_nat (length pre)) 0) as [|_]; [lia|].
  destruct (Z.ltb_spec (Z.of_nat (length pre) + Z.of_nat (length mid)) 0)
    as [|_]; [lia|].
  rewrite !Z.min_l by lia.
  rewrite Nat2Z.id.
  replace (Z.to_nat (Z.of_nat (length pre) + Z.of_nat (length mid)))
    with (length pre + length mid)%nat by lia.
  rewrite drop_app_length.
  replace (length pre + length mid - length pre)%nat with (length mid) by lia.
  by rewrite take_app_length.
Qed.

(** The call in full when the write lies inside the (grown) buffer. *)
Lemma setFunction_in_range {Inst : Type} (v : version)
    (assemble : list Inst -> result (list Z)) (fid : Z) (func : Func Inst)
    (o : Container) (count : Z) (h : FunctionHeader) (offset size : Z)
    (bc : list Z) :
  0 <= fid ->
  header o !! "functionCount" = Some count -> fid < count ->
  functionHeaders o !! Z.to_nat fid = Some h ->
  fields h !! "offset" = Some offset ->
  fields h !! "bytecodeSizeInBytes" = Some size ->
  bytecode assemble func = Ok bc ->
  0 <= offset - instOffset o ->
  (v = V96 -> len bc <= size ->
   offset - instOffset o + len bc <= len (inst o)) ->
  let start := offset - instOffset o in
  let buf :=
    inst o ++ replicate (Z.to_nat (start + len bc - len (inst o))) 0 in
  exists resize,
    (resize = HBC86.resize \/ resize = HBC96.resize) /\
    start + len bc <= len buf /\
    setFunction v assemble fid func o =
    (Ok tt,
     set_inst
       (take (Z.to_nat start) buf ++ bc ++ drop (Z.to_nat start + length bc) buf)
       (set_functionHeaders
          (<[Z.to_nat fid:=resize size (len bc) (set_params func h)]>
             (functionHeaders o)) o)).
Proof.
  intros Hfid Hcount Hlt Hh Hoff Hsize Hbc Hstart H96. cbn zeta.
  set (start := offset - instOffset o) in *.
  set (buf := inst o ++ replicate (Z.to_nat (start + len bc - len (inst o))) 0).
  assert (exists grows resize,
    (resize = HBC86.resize \/ resize = HBC96.resize) /\
    setFunction v assemble fid func o =
      setFunction_cases grows resize assemble fid func o /\
    (if grows size (len bc) && (start + len bc >? len (inst o))
     then inst o ++ replicate (Z.to_nat (start + len bc - len (inst o))) 0
     else inst o) = buf) as (grows & resize & Hr & -> & Hbuf).
  { assert (start + len bc <= len (inst o) -> inst o = buf) as Hnone.
    { intros Hle. subst buf.
      replace (Z.to_nat (start + len bc - len (inst o))) with 0%nat by lia.
      cbn [replicate]. by rewrite app_nil_r. }
    destruct v; cbn [setFunction].
    - exists (fun _ _ => true), HBC86.resize.
      split; [by left|].
      split; [apply HBC86_setFunction_cases|]. cbn [andb].
      destruct (Z.gtb_spec (start + len bc) (len (inst o))); [done|].
      by apply Hnone.
    - exists (fun size new => new >? size), HBC96.resize.
      split; [by right|].
      split; [apply HBC96_setFunction_cases|].
      destruct (Z.gtb_spec (len bc) size); cbn [andb].
      + destruct (Z.gtb_spec (start + len bc) (len (inst o))); [done|].
        by apply Hnone.
      + apply Hnone. by apply H96. }
  exists resize. split; [done|].
  assert (start + len bc <= len buf) as Hfit.
  { subst buf. unfold len. rewrite length_app, length_replicate. lia. }
  split; [done|].
  rewrite (setFunction_cases_run grows resize assemble fid func o
             count h offset size bc) by done.
  cbn zeta. fold start. rewrite Hbuf.
  by rewrite memcpy_in_range by done.
Qed.

(** X5. The bytes [setFunction] writes. In either class, for a function
    whose bytecode starts inside or at the end of the instruction buffer
    ([start >= 0]; for [HBC96] and a payload no longer than the recorded
    size, the payload must end inside the buffer), the call returns; the
    instruction buffer is the old one, padded with zero bytes up to
    [start + len(bc)] if it was shorter, with [bc] written over the bytes
    from [start] on and every other byte as it was; its length is the
    larger of the old length and [start + len(bc)]. *)
Theorem X5_setFunction_writes_bytecode {Inst : Type} (v : version)
    (assemble : list Inst -> result (list Z)) (fid : Z) (func : Func Inst)
    (o : Container) (count : Z) (h : FunctionHeader) (offset size : Z)
    (bc : list Z) :
  0 <= fid ->
  header o !! "functionCount" = Some count -> fid < count ->
  functionHeaders o !! Z.to_nat fid = Some h ->
  fields h !! "offset" = Some offset ->
  fields h !! "bytecodeSizeInBytes" = Some size ->
  bytecode assemble func = Ok bc ->
  0 <= offset - instOffset o ->
  (v = V96 -> len bc <= size ->
   offset - instOffset o + len bc <= len (inst o)) ->
  let start := offset - instOffset o in
  let buf :=
    inst o ++ replicate (Z.to_nat (start + len bc - len (inst o))) 0 in
  let r := setFunction v assemble fid func o in
  r.1 = Ok tt /\
  inst r.2 =
    take (Z.to_nat start) buf ++ bc ++ drop (Z.to_nat start + length bc) buf /\
  len (inst r.2) = Z.max (len (inst o)) (start + len bc) /\
  py_slice (inst r.2) start (start + len bc) = bc.
Proof.
  intros Hfid Hcount Hlt Hh Hoff Hsize Hbc Hstart H96.
  destruct (setFunction_in_range v assemble fid func o count h offset size bc)
    as (resize & _ & Hfit & ->); try assumption.
  cbn zeta. cbn [fst snd inst set_inst set_functionHeaders].
  split; [reflexivity|]. split; [reflexivity|]. split.
  - unfold len in *. rewrite !length_app, length_take, length_drop.
    rewrite !length_app, length_replicate in *. lia.
  - apply py_slice_middle. unfold len in *. rewrite length_take. lia.
Qed.

(** ** Reading back *)

Lemma getString_reads INVALID_LENGTH sid o :
  (getString INVALID_LENGTH sid o).2 = o.
Proof.
  unfold getString. unfold_method.
  destruct (0 <=? sid); cbn [fst snd]; [|done].
  destruct (dict_get (header o) "stringCount") as [n|]; cbn [fst snd]; [|done].
  destruct (sid <? n); cbn [fst snd]; [|done].
  pose proof (resolveString_reads INVALID_LENGTH sid o) as Hr.
  destruct (resolveString INVALID_LENGTH sid o) as [[slot|e] o'];
    cbn [fst snd] in *; subst o'; [|done].
  repeat
    (match goal with
     | |- context [match ?x with Ok _ => _ | Raise _ => _ end] => destruct x
     end; cbn [snd fst]; try done).
Qed.

Lemma getString_tables INVALID_LENGTH sid o o' :
  header o' = header o ->
  stringTableEntries o' = stringTableEntries o ->
  stringTableOverflowEntries o' = stringTableOverflowEntries o ->
  stringStorage o' = stringStorage o ->
  (getString INVALID_LENGTH sid o').1 = (getString INVALID_LENGTH sid o).1.
Proof.
  intros Hh He Hv Hs. unfold getString. unfold_method.
  destruct (0 <=? sid); cbn [fst snd]; [|done]. rewrite Hh.
  destruct (dict_get (header o) "stringCount") as [n|]; cbn [fst snd]; [|done].
  destruct (sid <? n); cbn [fst snd]; [|done].
  pose proof (resolveString_reads INVALID_LENGTH sid o) as Hr.
  pose proof (resolveString_reads INVALID_LENGTH sid o') as Hr'.
  pose proof (resolveString_tables INVALID_LENGTH sid o o' He Hv) as Ht.
  destruct (resolveString INVALID_LENGTH sid o) as [r1 o1].
  destruct (resolveString INVALID_LENGTH sid o') as [r1' o1'].
  cbn [fst snd] in *. subst o1 o1' r1'.
  destruct r1 as [slot|e]; [|done]. rewrite Hs.
  repeat
    (match goal with
     | |- context [match ?x with Ok _ => _ | Raise _ => _ end] => destruct x
     end; cbn [snd fst]; try done).
Qed.

(** X6. [getFunction] after [setFunction]. Under the conditions of X5, and
    when the function's name resolves, [getFunction(fid, disasm=False)] on
    the container [setFunction] left returns the name as before, the three
    counts of the payload, the bytecode of the payload and the updated
    header; with [disasm=True] it returns what [disassemble] makes of that
    bytecode. *)
Theorem X6_getFunction_after_setFunction {Inst : Type} (v : version)
    (assemble : list Inst -> result (list Z))
    (disassemble : list Z -> result (list Inst)) (INVALID_LENGTH : Z)
    (fid : Z) (func : Func Inst) (o : Container) (count : Z)
    (h : FunctionHeader) (offset size functionName : Z) (bc : list Z)
    (name : pystr * (Z * Z * Z)) :
  0 <= fid ->
  header o !! "functionCount" = Some count -> fid < count ->
  functionHeaders o !! Z.to_nat fid = Some h ->
  fields h !! "offset" = Some offset ->
  fields h !! "bytecodeSizeInBytes" = Some size ->
  fields h !! "functionName" = Some functionName ->
  (getString INVALID_LENGTH functionName o).1 = Ok name ->
  bytecode assemble func = Ok bc ->
  0 <= offset - instOffset o ->
  (v = V96 -> len bc <= size ->
   offset - instOffset o + len bc <= len (inst o)) ->
  let r := setFunction v assemble fid func o in
  exists h',
    r.1 = Ok tt /\
    functionHeaders r.2 !! Z.to_nat fid = Some h' /\
    getFunction INVALID_LENGTH disassemble fid false r.2 =
      (Ok (name.1, paramCount func, registerCount func, symbolCount func,
           Raw bc, h'), r.2) /\
    forall l, disassemble bc = Ok l ->
      getFunction INVALID_LENGTH disassemble fid true r.2 =
        (Ok (name.1, paramCount func, registerCount func, symbolCount func,
             Asm l, h'), r.2).
Proof.
  intros Hfid Hcount Hlt Hh Hoff Hsize Hname Hstr Hbc Hstart H96.
  destruct (setFunction_in_range v assemble fid func o count h offset size bc)
    as (resize & Hr & Hfit & ->); try assumption.
  cbn zeta. cbn [fst snd].
  set (start := offset - instOffset o) in *.
  set (buf := inst o ++ replicate (Z.to_nat (start + len bc - len (inst o))) 0)
    in *.
  set (h' := resize size (len bc) (set_params func h)).
  set (o' := set_inst _ _).
  assert (functionHeaders o' !! Z.to_nat fid = Some h') as Hh'.
  { subst o'. cbn [functionHeaders set_inst set_functionHeaders].
    apply list_lookup_insert_eq. by apply lookup_lt_Some in Hh. }
  exists h'. split; [done|]. split; [done|].
  destruct (params_set_params func h) as (Hp1 & Hp2 & Hp3).
  assert (forall disasm insts,
    (if disasm : bool
     then (l <- disassemble bc ;; Ok (Asm l))%res
     else Ok (Raw bc)) = Ok insts ->
    getFunction INVALID_LENGTH disassemble fid disasm o' =
      (Ok (name.1, paramCount func, registerCount func, symbolCount func,
           insts, h'), o')) as Hget.
  { intros disasm insts Hinsts.
    unfold getFunction. unfold_method. unfold dict_get.
    destruct (Z.leb_spec 0 fid); [|lia].
    replace (header o') with (header o) by done.
    rewrite Hcount. cbn [of_option].
    destruct (Z.ltb_spec fid count); [|lia].
    rewrite py_getitem_nonneg, Hh' by done. cbn [of_option].
    subst h'.
    rewrite (resize_fields resize Hr _ _ _ "offset") by done.
    rewrite (resize_fields resize Hr _ _ _ "paramCount") by done.
    rewrite (resize_fields resize Hr _ _ _ "frameSize") by done.
    rewrite (resize_fields resize Hr _ _ _ "environmentSize") by done.
    rewrite (resize_fields resize Hr _ _ _ "functionName") by done.
    rewrite (resize_size resize Hr).
    rewrite (fields_set_params func h "offset") by done.
    rewrite (fields_set_params func h "functionName") by done.
    rewrite Hoff, Hp1, Hp2, Hp3, Hname. cbn [of_option].
    replace (instOffset o') with (instOffset o) by done. fold start.
    replace (py_slice (inst o') start (start + len bc)) with bc.
    2:{ symmetry. subst o'. cbn [inst set_inst].
        apply py_slice_middle. unfold len in *. rewrite length_take. lia. }
    rewrite Hinsts.
    pose proof (getString_reads INVALID_LENGTH functionName o') as Hrd.
    pose proof (getString_tables INVALID_LENGTH functionName o o'
                  eq_refl eq_refl eq_refl eq_refl) as Ht.
    rewrite Hstr in Ht.
    destruct (getString INVALID_LENGTH functionName o') as [nm o''].
    cbn [fst snd] in *. by subst. }
  split.
  - by apply Hget.
  - intros l Hl. apply Hget. by rewrite Hl.
Qed.

(** ** UTF-8 and hexadecimal text *)

Lemma lor_add (K y n : Z) :
  0 <= n -> 0 <= y < 2 ^ n -> Z.land K (Z.ones n) = 0 -> Z.lor K y = K + y.
Proof.
  intros Hn Hy HK.
  assert (Z.land K y = 0) as Hz.
  { rewrite <- (Z.mod_small y (2 ^ n)) by done.
    rewrite <- Z.land_ones by done.
    rewrite (Z.land_comm y), Z.land_assoc, HK. apply Z.land_0_l. }
  rewrite Z.add_nocarry_lxor by done. symmetry. by apply Z.lxor_lor.
Qed.

Lemma land_63 x : Z.land x 0x3F = x `mod` 64.
Proof. change 0x3F with (Z.ones 6). by rewrite Z.land_ones. Qed.

Lemma shiftr_div x n : 0 <= n -> Z.shiftr x n = x `div` 2 ^ n.
Proof. intros. by apply Z.shiftr_div_pow2. Qed.

Lemma byte_in_true lo hi b : lo <= b <= hi -> byte_in lo hi b = true.
Proof.
  intros H. unfold byte_in. apply andb_true_iff. split; apply Z.leb_le; lia.
Qed.

Lemma byte_in_false lo hi b : b < lo \/ hi < b -> byte_in lo hi b = false.
Proof.
  intros H. unfold byte_in. apply andb_false_iff.
  destruct H; [left|right]; apply Z.leb_gt; lia.
Qed.

Lemma utf8_char_shape c bs :
  utf8_char c = Ok bs ->
  (0 <= c < 0x80 /\ bs = [c]) \/
  (0x80 <= c < 0x800 /\ bs = [0xC0 + c `div` 64; 0x80 + c `mod` 64]) \/
  (0x800 <= c < 0x10000 /\ ~ (0xD800 <= c <= 0xDFFF) /\
   bs = [0xE0 + c `div` 4096; 0x80 + (c `div` 64) `mod` 64;
         0x80 + c `mod` 64]) \/
  (0x10000 <= c <= 0x10FFFF /\
   bs = [0xF0 + c `div` 262144; 0x80 + (c `div` 4096) `mod` 64;
         0x80 + (c `div` 64) `mod` 64; 0x80 + c `mod` 64]).
Proof.
  unfold utf8_char.
  destruct (Z.ltb_spec c 0); cbn [orb]; [discriminate|].
  destruct (Z.ltb_spec 0x10FFFF c); [discriminate|].
  destruct (Z.ltb_spec c 0x80).
  { intros [= <-]. left. split; [lia|done]. }
  rewrite !land_63, !shiftr_div by lia.
  change (2 ^ 6) with 64. change (2 ^ 12) with 4096. change (2 ^ 18) with 262144.
  destruct (Z.ltb_spec c 0x800).
  { intros [= <-]. right. left. split; [lia|].
    rewrite (lor_add 0xC0 _ 6), (lor_add 0x80 _ 6); try done; try lia.
    - apply Z.mod_pos_bound. lia.
    - change (2 ^ 6) with 64. split; [apply Z.div_pos; lia|].
      apply Z.div_lt_upper_bound; lia. }
  destruct (Z.leb_spec 0xD800 c); cbn [andb].
  { destruct (Z.leb_spec c 0xDFFF); [discriminate|].
    destruct (Z.ltb_spec c 0x10000).
    - intros [= <-]. right. right. left.
      split; [lia|]. split; [lia|].
      rewrite (lor_add 0xE0 _ 4), !(lor_add 0x80 _ 6); try done; try lia;
        try (apply Z.mod_pos_bound; lia).
      change (2 ^ 4) with 16. split; [apply Z.div_pos; lia|].
      apply Z.div_lt_upper_bound; lia.
    - intros [= <-]. right. right. right. split; [lia|].
      rewrite (lor_add 0xF0 _ 3), !(lor_add 0x80 _ 6); try done; try lia;
        try (apply Z.mod_pos_bound; lia).
      change (2 ^ 3) with 8. split; [apply Z.div_pos; lia|].
      apply Z.div_lt_upper_bound; lia. }
  destruct (Z.ltb_spec c 0x10000); [|lia].
  intros [= <-]. right. right. left.
  split; [lia|]. split; [lia|].
  rewrite (lor_add 0xE0 _ 4), !(lor_add 0x80 _ 6); try done; try lia;
    try (apply Z.mod_pos_bound; lia).
  change (2 ^ 4) with 16. split; [apply Z.div_pos; lia|].
  apply Z.div_lt_upper_bound; lia.
Qed.

Ltac byte_in_tac :=
  repeat
    (first
       [ rewrite byte_in_true by (Z.div_mod_to_equations; lia)
       | rewrite byte_in_false by (Z.div_mod_to_equations; lia) ]).

Lemma utf8_char_decode c bs rest :
  utf8_char c = Ok bs ->
  utf8_decode (bs ++ rest) = (r <- utf8_decode rest ;; Ok (c :: r))%res.
Proof.
  intros H. apply utf8_char_shape in H
    as [(Hc & ->)|[(Hc & ->)|[(Hc & Hs & ->)|(Hc & ->)]]];
    cbn [app utf8_decode].
  - byte_in_tac. done.
  - byte_in_tac. cbn [andb].
    replace ((0xC0 + c `div` 64 - 0xC0) * 64 + (0x80 + c `mod` 64 - 0x80))
      with c by (Z.div_mod_to_equations; lia).
    done.
  - byte_in_tac.
    destruct (Z.eqb_spec (0xE0 + c `div` 4096) 0xE0);
      destruct (Z.eqb_spec (0xE0 + c `div` 4096) 0xED);
      byte_in_tac; cbn [andb];
      replace ((0xE0 + c `div` 4096 - 0xE0) * 4096
               + (0x80 + (c `div` 64) `mod` 64 - 0x80) * 64
               + (0x80 + c `mod` 64 - 0x80))
        with c by (Z.div_mod_to_equations; lia);
      done.
  - byte_in_tac.
    destruct (Z.eqb_spec (0xF0 + c `div` 262144) 0xF0);
      destruct (Z.eqb_spec (0xF0 + c `div` 262144) 0xF4);
      byte_in_tac; cbn [andb];
      replace ((0xF0 + c `div` 262144 - 0xF0) * 262144
               + (0x80 + (c `div` 4096) `mod` 64 - 0x80) * 4096
               + (0x80 + (c `div` 64) `mod` 64 - 0x80) * 64
               + (0x80 + c `mod` 64 - 0x80))
        with c by (Z.div_mod_to_equations; lia);
      done.
Qed.

Lemma utf8_char_bytes c bs :
  utf8_char c = Ok bs -> py_bytes bs = Ok bs.
Proof.
  intros H. unfold py_bytes.
  assert (forall b, 0 <= b < 256 -> (0 <=? b) && (b <? 256) = true) as Hb.
  { intros b Hr. apply andb_true_iff. split; [apply Z.leb_le|apply Z.ltb_lt]; lia. }
  apply utf8_char_shape in H
    as [(Hc & ->)|[(Hc & ->)|[(Hc & Hs & ->)|(Hc & ->)]]];
    cbn [forallb];
    rewrite !Hb by (Z.div_mod_to_equations; lia); done.
Qed.

Lemma py_bytes_app a b :
  py_bytes a = Ok a -> py_bytes b = Ok b -> py_bytes (a ++ b) = Ok (a ++ b).
Proof.
  unfold py_bytes. rewrite forallb_app.
  destruct (forallb _ a); [|discriminate].
  destruct (forallb _ b); [|discriminate]. done.
Qed.

(** Decoding what [encode] produced gives the string back. *)
Lemma utf8_decode_encode val : forall bs,
  utf8_encode val = Ok bs -> utf8_decode bs = Ok val /\ py_bytes bs = Ok bs.
Proof.
  induction val as [|c val IH]; intros bs H; cbn [utf8_encode] in H.
  - by injection H as <-.
  - destruct (utf8_char c) as [b|] eqn:Ec; cbn [rbind] in H; [|discriminate].
    destruct (utf8_encode val) as [rest|]; cbn [rbind] in H; [|discriminate].
    injection H as <-. destruct (IH rest eq_refl) as [Hd Hb]. split.
    + rewrite (utf8_char_decode c b rest Ec). by rewrite Hd.
    + apply py_bytes_app; [by eapply utf8_char_bytes|done].
Qed.

Lemma utf8_decode_encode_app val : forall bs rest,
  utf8_encode val = Ok bs ->
  utf8_decode (bs ++ rest) = (r <- utf8_decode rest ;; Ok (val ++ r))%res.
Proof.
  induction val as [|c val IH]; intros bs rest H; cbn [utf8_encode] in H.
  - injection H as <-. cbn [app]. by destruct (utf8_decode rest).
  - destruct (utf8_char c) as [b|] eqn:Ec; cbn [rbind] in H; [|discriminate].
    destruct (utf8_encode val) as [bs'|] eqn:Ev; cbn [rbind] in H;
      [|discriminate].
    injection H as <-. rewrite <- app_assoc.
    rewrite (utf8_char_decode c b _ Ec). rewrite (IH bs' rest eq_refl).
    by destruct (utf8_decode rest).
Qed.

Lemma hex_char_digit d :
  0 <= d < 16 -> hex_digit (hex_char d) = Some d /\ is_space (hex_char d) = false.
Proof.
  intros H.
  assert (d = 0 \/ d = 1 \/ d = 2 \/ d = 3 \/ d = 4 \/ d = 5 \/ d = 6 \/
          d = 7 \/ d = 8 \/ d = 9 \/ d = 10 \/ d = 11 \/ d = 12 \/ d = 13 \/
          d = 14 \/ d = 15) as Hd by lia.
  repeat (destruct Hd as [->|Hd]; [split; reflexivity|]).
  subst. split; reflexivity.
Qed.

Lemma py_bytes_cons b s :
  py_bytes (b :: s) = Ok (b :: s) <-> 0 <= b < 256 /\ py_bytes s = Ok s.
Proof.
  unfold py_bytes. cbn [forallb].
  destruct (Z.leb_spec 0 b), (Z.ltb_spec b 256); cbn [andb];
    destruct (forallb _ s); split; try discriminate; try done;
    intros [? ?]; try lia; try discriminate.
Qed.

(** [bytes.fromhex(s.hex()) == s] *)
Lemma fromhex_hex s : py_bytes s = Ok s -> fromhex (hex s) = Ok s.
Proof.
  induction s as [|b s IH]; intros H; [done|].
  apply py_bytes_cons in H as [Hb Hs].
  unfold hex. cbn [map concat app]. fold (hex s).
  destruct (hex_char_digit (b `div` 16)) as [Hd1 Hs1];
    [Z.div_mod_to_equations; lia|].
  destruct (hex_char_digit (b `mod` 16)) as [Hd2 _];
    [Z.div_mod_to_equations; lia|].
  cbn [fromhex]. rewrite Hs1, Hd1, Hd2, (IH Hs). cbn [rbind].
  do 2 f_equal. Z.div_mod_to_equations; lia.
Qed.

Lemma hex_digit_range c h : hex_digit c = Some h -> 0 <= h < 16.
Proof.
  unfold hex_digit.
  destruct (Z.leb_spec 48 c), (Z.leb_spec c 57); cbn [andb];
    try (intros [= <-]; lia);
  destruct (Z.leb_spec 97 c), (Z.leb_spec c 102); cbn [andb];
    try (intros [= <-]; lia);
  destruct (Z.leb_spec 65 c), (Z.leb_spec c 70); cbn [andb];
    try (intros [= <-]; lia); discriminate.
Qed.

Lemma fromhex_bytes_aux n : forall val s,
  (length val <= n)%nat -> fromhex val = Ok s -> py_bytes s = Ok s.
Proof.
  induction n as [|n IH]; intros val s Hn H.
  - destruct val; [|cbn in Hn; lia]. by injection H as <-.
  - destruct val as [|c val]; [by injection H as <-|].
    cbn [fromhex] in H. cbn [length] in Hn.
    destruct (is_space c).
    { apply (IH val); [lia|done]. }
    destruct (hex_digit c) as [h|] eqn:Eh; [|discriminate].
    destruct val as [|d val]; [discriminate|].
    destruct (hex_digit d) as [l|] eqn:El; [|discriminate].
    destruct (fromhex val) as [rest|] eqn:Er; cbn [rbind] in H; [|discriminate].
    injection H as <-. apply py_bytes_cons. split.
    + apply hex_digit_range in Eh, El. lia.
    + apply (IH val); [cbn [length] in Hn; lia|done].
Qed.

Lemma fromhex_bytes val s : fromhex val = Ok s -> py_bytes s = Ok s.
Proof. by apply (fromhex_bytes_aux (length val)). Qed.

Lemma hex_app a b : hex (a ++ b) = hex a ++ hex b.
Proof. unfold hex. by rewrite map_app, concat_app. Qed.

(** ** Strings written and read back *)

Lemma setString_plan_slot INVALID_LENGTH sid val o count slot :
  0 <= sid ->
  header o !! "stringCount" = Some count -> sid < count ->
  (resolveString INVALID_LENGTH sid o).1 = Ok slot ->
  setString_plan INVALID_LENGTH sid val o =
  (sl <- (if negb (slot.1.1 =? 0) then
            (s <- fromhex val ;; Ok (s, len s `div` 2))
          else
            (s <- utf8_encode val ;; Ok (s, len val))) ;;
   if sl.2 <=? slot.2 then Ok (sl.1, slot.1.2)
   else Raise (AssertionError
                 "Overflowed string length is not supported yet."))%res.
Proof.
  intros Hsid Hcount Hlt Hslot. unfold setString_plan, dict_get.
  destruct (Z.leb_spec 0 sid); [|lia]. cbn [rbind].
  rewrite Hcount. cbn [of_option rbind].
  destruct (Z.ltb_spec sid count); [|lia].
  by rewrite Hslot.
Qed.

Lemma getString_slot INVALID_LENGTH sid o count slot :
  0 <= sid ->
  header o !! "stringCount" = Some count -> sid < count ->
  (resolveString INVALID_LENGTH sid o).1 = Ok slot ->
  getString INVALID_LENGTH sid o =
  (let length := if negb (slot.1.1 =? 0) then slot.2 * 2 else slot.2 in
   (s <- py_bytes (py_slice (stringStorage o) slot.1.2 (slot.1.2 + length)) ;;
    text <- (if negb (slot.1.1 =? 0) then Ok (hex s) else utf8_decode s) ;;
    Ok (text, (slot.1.1, slot.1.2, length)))%res,
   o).
Proof.
  intros Hsid Hcount Hlt Hslot. unfold getString. unfold_method.
  unfold dict_get.
  destruct (Z.leb_spec 0 sid); [|lia]. cbn beta iota.
  rewrite Hcount. cbn [of_option].
  destruct (Z.ltb_spec sid count); [|lia].
  pose proof (resolveString_reads INVALID_LENGTH sid o) as Hr.
  destruct (resolveString INVALID_LENGTH sid o) as [r o'].
  cbn [fst snd] in *. subst o' r. cbn zeta.
  destruct (py_bytes _) as [s|]; cbn [rbind]; [|done].
  by destruct (if negb (slot.1.1 =? 0) then Ok (hex s) else utf8_decode s).
Qed.

Lemma slice_written (storage s tail : list Z) (offset width : Z) :
  0 <= offset -> len s <= width -> offset + width <= len storage ->
  tail = take (Z.to_nat (width - len s))
           (drop (Z.to_nat (offset + len s)) storage) ->
  py_slice
    (take (Z.to_nat offset) storage ++ s ++
     drop (Z.to_nat offset + length s) storage)
    offset (offset + width)
  = s ++ tail.
Proof.
  intros Hoff Hlen Hfit ->. unfold len in *.
  set (rest := drop (Z.to_nat offset + length s) storage).
  replace (Z.to_nat (offset + Z.of_nat (length s)))
    with (Z.to_nat offset + length s)%nat by lia.
  fold rest.
  rewrite <- (take_drop (Z.to_nat (width - Z.of_nat (length s))) rest) at 1.
  rewrite (app_assoc s).
  replace (offset + width)
    with (offset + len (s ++ take (Z.to_nat (width - Z.of_nat (length s))) rest)).
  - apply py_slice_middle. unfold len. rewrite length_take. lia.
  - unfold len. rewrite length_app, length_take. subst rest.
    rewrite length_drop. lia.
Qed.

(** X7. [getString] after [setString], for a slot that is not UTF-16.
    When the encoding [bs] of the value is no longer than the slot, the
    call returns, and [getString] then returns the value followed by the
    text of the bytes the old string leaves in the rest of the slot
    ([tail], when they decode): the value itself exactly when its
    encoding fills the slot. The slot's length is not changed. *)
Theorem X7_getString_after_setString (INVALID_LENGTH : Z) (sid : Z)
    (val : pystr) (o : Container) (count isUTF16 offset L : Z)
    (bs tail : list Z) (old : pystr) :
  0 <= sid ->
  header o !! "stringCount" = Some count -> sid < count ->
  (resolveString INVALID_LENGTH sid o).1 = Ok (isUTF16, offset, L) ->
  isUTF16 = 0 ->
  utf8_encode val = Ok bs ->
  len bs <= L ->
  0 <= offset -> offset + L <= len (stringStorage o) ->
  tail = take (Z.to_nat (L - len bs))
           (drop (Z.to_nat (offset + len bs)) (stringStorage o)) ->
  py_bytes tail = Ok tail ->
  utf8_decode tail = Ok old ->
  let r := setString INVALID_LENGTH sid val o in
  r.1 = Ok tt /\
  getString INVALID_LENGTH sid r.2 = (Ok (val ++ old, (isUTF16, offset, L)), r.2).
Proof.
  intros Hsid Hcount Hlt Hslot -> Henc Hlen Hoff Hfit Htail Hbytes Hold.
  cbn zeta. rewrite setString_cases.
  rewrite (setString_plan_slot _ _ _ _ count (0, offset, L)) by done.
  cbn [fst snd Z.eqb negb]. rewrite Henc. cbn [rbind fst snd].
  destruct (utf8_encode_len val bs Henc) as [Hchars _].
  destruct (Z.leb_spec (len val) L); [|lia].
  cbn zeta. cbn [fst snd]. rewrite memcpy_in_range by lia.
  cbn [fst snd]. split; [done|].
  set (o' := set_stringStorage _ o).
  rewrite (getString_slot _ _ o' count (0, offset, L)); try done.
  2:{ by rewrite (resolveString_tables _ _ o o'). }
  cbn [fst snd Z.eqb negb]. cbn zeta. subst o'. cbn [stringStorage set_stringStorage].
  rewrite (slice_written _ _ tail) by done.
  destruct (utf8_decode_encode val bs Henc) as [_ Hb].
  rewrite (py_bytes_app _ _ Hb Hbytes). cbn [rbind].
  rewrite (utf8_decode_encode_app val bs tail Henc), Hold. done.
Qed.

(** X8. [getString] after [setString], for a UTF-16 slot of [L] code
    units. When the bytes [s] of the hexadecimal value are at most [2 * L],
    the call returns, and [getString] then returns the lowercase
    hexadecimal text of [s] followed by that of the old bytes left in the
    rest of the slot, with the byte length [2 * L] in its second
    component. *)
Theorem X8_getString_after_setString_utf16 (INVALID_LENGTH : Z) (sid : Z)
    (val : pystr) (o : Container) (count isUTF16 offset L : Z)
    (s tail : list Z) :
  0 <= sid ->
  header o !! "stringCount" = Some count -> sid < count ->
  (resolveString INVALID_LENGTH sid o).1 = Ok (isUTF16, offset, L) ->
  isUTF16 <> 0 ->
  fromhex val = Ok s ->
  len s <= 2 * L ->
  0 <= offset -> offset + 2 * L <= len (stringStorage o) ->
  tail = take (Z.to_nat (2 * L - len s))
           (drop (Z.to_nat (offset + len s)) (stringStorage o)) ->
  py_bytes tail = Ok tail ->
  let r := setString INVALID_LENGTH sid val o in
  r.1 = Ok tt /\
  getString INVALID_LENGTH sid r.2
    = (Ok (hex s ++ hex tail, (isUTF16, offset, L * 2)), r.2).
Proof.
  intros Hsid Hcount Hlt Hslot Hutf Hhex Hlen Hoff Hfit Htail Hbytes.
  cbn zeta. rewrite setString_cases.
  rewrite (setString_plan_slot _ _ _ _ count (isUTF16, offset, L)) by done.
  cbn [fst snd]. destruct (Z.eqb_spec isUTF16 0) as [|_]; [done|].
  cbn [negb]. rewrite Hhex. cbn [rbind fst snd].
  destruct (Z.leb_spec (len s `div` 2) L);
    [|Z.div_mod_to_equations; lia].
  cbn zeta. cbn [fst snd]. rewrite memcpy_in_range by lia.
  cbn [fst snd]. split; [done|].
  set (o' := set_stringStorage _ o).
  rewrite (getString_slot _ _ o' count (isUTF16, offset, L)); try done.
  2:{ by rewrite (resolveString_tables _ _ o o'). }
  cbn [fst snd]. destruct (Z.eqb_spec isUTF16 0) as [|_]; [done|].
  cbn [negb]. cbn zeta. subst o'. cbn [stringStorage set_stringStorage].
  rewrite (slice_written _ s tail offset (L * 2));
    [|lia|lia|lia|rewrite Htail; do 2 f_equal; lia].
  rewrite (py_bytes_app _ _ (fromhex_bytes _ _ Hhex) Hbytes). cbn [rbind].
  by rewrite hex_app.
Qed.

(** X9. The length check of a UTF-16 slot counts code units by
    [len(s) // 2]: a value of up to [2 * L + 1] bytes is accepted and all
    of its bytes are copied, so that one of odd length [2 * L + 1] writes
    one byte past the [2 * L] bytes of the slot; a value of [2 * L + 2]
    bytes or more is rejected and the container is left as it was. *)
Theorem X9_setString_utf16_odd_length (INVALID_LENGTH : Z) (sid : Z)
    (val : pystr) (o : Container) (count isUTF16 offset L : Z) (s : list Z) :
  0 <= sid ->
  header o !! "stringCount" = Some count -> sid < count ->
  (resolveString INVALID_LENGTH sid o).1 = Ok (isUTF16, offset, L) ->
  isUTF16 <> 0 ->
  fromhex val = Ok s ->
  (len s <= 2 * L + 1 ->
   0 <= offset -> offset + len s <= len (stringStorage o) ->
   setString INVALID_LENGTH sid val o =
     (Ok tt,
      set_stringStorage
        (take (Z.to_nat offset) (stringStorage o) ++ s ++
         drop (Z.to_nat offset + length s) (stringStorage o)) o)) /\
  (2 * L + 2 <= len s ->
   setString INVALID_LENGTH sid val o =
     (Raise (AssertionError "Overflowed string length is not supported yet."),
      o)).
Proof.
  intros Hsid Hcount Hlt Hslot Hutf Hhex.
  rewrite setString_cases.
  rewrite (setString_plan_slot _ _ _ _ count (isUTF16, offset, L)) by done.
  cbn [fst snd]. destruct (Z.eqb_spec isUTF16 0) as [|_]; [done|].
  cbn [negb]. rewrite Hhex. cbn [rbind fst snd].
  split.
  - intros Hlen Hoff Hfit.
    destruct (Z.leb_spec (len s `div` 2) L);
      [|Z.div_mod_to_equations; lia].
    cbn zeta. cbn [fst snd]. by rewrite memcpy_in_range by lia.
  - intros Hlen.
    destruct (Z.leb_spec (len s `div` 2) L);
      [Z.div_mod_to_equations; lia|done].
Qed.


(** ** Literal groups *)

Lemma forall_below (P : Z -> bool) (n : nat) :
  forallb P (map Z.of_nat (seq 0 n)) = true ->
  forall z, 0 <= z < Z.of_nat n -> P z = true.
Proof.
  intros H z Hz. rewrite forallb_forall in H. apply H.
  apply in_map_iff. exists (Z.to_nat z). split; [lia|].
  apply in_seq. lia.
Qed.

Lemma land_mod_128 k m : Z.land 127 m = m -> Z.land k m = Z.land (k `mod` 128) m.
Proof.
  intros Hm. rewrite <- Hm at 1. rewrite Z.land_assoc.
  change 127 with (Z.ones 7). by rewrite Z.land_ones.
Qed.

Lemma land_TagMask_tag k : Z.land k TagMask ∈ slp_tags.
Proof.
  unfold TagMask. rewrite (land_mod_128 k 0x70) by reflexivity.
  assert (0 <= k `mod` 128 < 128) as Hr by (apply Z.mod_pos_bound; lia).
  pose proof (forall_below
    (fun m => existsb (Z.eqb (Z.land m 0x70)) slp_tags) 128
    ltac:(vm_compute; reflexivity) (k `mod` 128) Hr) as H.
  cbv beta in H. apply existsb_exists in H as (t & Hin & Heq).
  apply Z.eqb_eq in Heq. rewrite Heq. by apply list_elem_of_In.
Qed.

Lemma slp_tags_cases tag :
  tag ∈ slp_tags ->
  tag = NullTag \/ tag = TrueTag \/ tag = FalseTag \/ tag = NumberTag \/
  tag = LongStringTag \/ tag = ShortStringTag \/ tag = ByteStringTag \/
  tag = IntegerTag.
Proof.
  unfold slp_tags. rewrite !elem_of_cons, elem_of_nil. tauto.
Qed.

Lemma _SLPToString_kind tag buf iid ind ty val ind' :
  tag ∈ slp_tags ->
  _SLPToString tag buf iid ind = Ok (ty, val, ind') ->
  ty = label_of tag /\ ind' = ind + Z.of_nat (payload_width tag) /\
  ty <> "Empty"%string.
Proof.
  intros Htag.
  apply slp_tags_cases in Htag
    as [->|[->|[->|[->|[->|[->|[->| ->]]]]]]];
    unfold _SLPToString;
    repeat
      (match goal with
       | |- context [if ?a =? ?b then _ else _] =>
           let c := eval vm_compute in (a =? b) in
           change (a =? b) with c; cbv iota
       | |- context [rbind ?x _] => destruct x; cbn [rbind]
       end; try discriminate);
    intros [= <- _ <-];
    (split; [reflexivity|split; [|discriminate]]);
    match goal with
    | |- context [payload_width ?t] =>
        let w := eval vm_compute in (payload_width t) in
        change (payload_width t) with w
    end; lia.
Qed.

Lemma decode_loop_kind count : forall tag buf id t arr ind t' arr',
  tag ∈ slp_tags ->
  decode_loop count tag buf id t arr ind = Ok (t', arr') ->
  match count with
  | O => t' = t
  | S _ => t' = Some (label_of tag)
  end.
Proof.
  induction count as [|count IH]; intros tag buf id t arr ind t' arr' Htag H;
    cbn [decode_loop] in H.
  - by injection H as <- _.
  - destruct (_SLPToString tag buf id ind) as [[[ty val] ind'']|e] eqn:E;
      cbn [rbind fst snd] in H; [|discriminate].
    apply (_SLPToString_kind _ _ _ _ _ _ _ Htag) in E as (-> & _ & _).
    apply (IH _ _ _ _ _ _ _ _ Htag) in H. by destruct count.
Qed.

Lemma _checkBufferTag_kind buf id tag :
  _checkBufferTag buf id = Ok tag ->
  exists keyTag, py_getitem buf id = Ok keyTag /\
                 tag.2 = Z.land keyTag TagMask.
Proof.
  unfold _checkBufferTag.
  destruct (py_getitem buf id) as [keyTag|]; cbn [rbind]; [|discriminate].
  intros H. exists keyTag. split; [done|].
  destruct (negb _).
  - destruct (py_getitem buf (id + 1)); cbn [rbind] in H; [|discriminate].
    by injection H as <-.
  - by injection H as <-.
Qed.

Lemma label_of_not_Empty tag : label_of tag <> "Empty"%string.
Proof.
  unfold label_of.
  repeat (match goal with
          | |- context [if ?b then _ else _] => destruct b
          end); discriminate.
Qed.

(** X10. The label follows the kind bits. When [getArray], [getObjKey] or
    [getObjValue] returns, the byte at the group offset exists, and the
    label returned with a non-empty list is the label of the kind in bits
    4 to 6 of that byte: "String" for the three string kinds, "Number",
    "Integer", "Null", and "Boolean" for the two boolean kinds. The label
    is never "Empty": the three bits always hold one of the eight kinds,
    so the last branch of [_SLPToString] is not reached from the
    accessors. *)
Theorem X10_label_by_kind (k : slp_buffer) (id : Z) (o : Container)
    (t : option string) (arr : list value) :
  accessor k id o = Ok (t, arr) ->
  exists keyTag,
    py_getitem (buffer_of k o) id = Ok keyTag /\
    t = match arr with
        | [] => None
        | _ :: _ => Some (label_of (Z.land keyTag TagMask))
        end /\
    t <> Some "Empty"%string.
Proof.
  destruct (accessor_unfold k id o) as [msg ->].
  intros H.
  destruct (0 <=? id); cbn [rbind] in H; [|discriminate].
  destruct (dict_get (header o) (size_key k)) as [n|]; cbn [rbind] in H;
    [|discriminate].
  destruct (id <? n); [|discriminate].
  destruct (_checkBufferTag (buffer_of k o) id) as [tag|] eqn:Et;
    cbn [rbind] in H; [|discriminate].
  apply _checkBufferTag_kind in Et as (keyTag & Hk & Hkind).
  exists keyTag. split; [done|].
  pose proof (land_TagMask_tag keyTag) as Htag. rewrite <- Hkind in Htag.
  pose proof (decode_loop_result _ _ _ _ _ _ _ _ _ H) as [Hlen _].
  apply (decode_loop_kind _ _ _ _ _ _ _ _ _ Htag) in H.
  cbn [length] in Hlen. rewrite <- Hkind.
  destruct (Z.to_nat tag.1) as [|c]; destruct arr as [|x arr'];
    cbn [length] in Hlen; try lia; subst t.
  - split; [done|discriminate].
  - split; [done|]. intros [= He]. by apply label_of_not_Empty in He.
Qed.


Lemma le_bytes_length w : forall v, length (le_bytes w v) = w.
Proof. induction w as [|w IH]; intros v; cbn [le_bytes length]; [done|by rewrite IH]. Qed.

Lemma le_bytes_bytes w : forall v, py_bytes (le_bytes w v) = Ok (le_bytes w v).
Proof.
  induction w as [|w IH]; intros v; cbn [le_bytes]; [done|].
  apply py_bytes_cons. split; [apply Z.mod_pos_bound; lia|apply IH].
Qed.

Lemma le_value_le_bytes w : forall v,
  0 <= v < 256 ^ Z.of_nat w -> le_value (le_bytes w v) = v.
Proof.
  induction w as [|w IH]; intros v Hv; cbn [le_bytes le_value].
  - change (256 ^ Z.of_nat 0) with 1 in Hv. lia.
  - rewrite IH.
    + Z.div_mod_to_equations; lia.
    + rewrite Nat2Z.inj_succ, Z.pow_succ_r in Hv by lia.
      split; [apply Z.div_pos; lia|].
      apply Z.div_lt_upper_bound; lia.
Qed.

Lemma py_slice_drop {A : Type} (l x rest : list A) (a b : Z) :
  0 <= a -> drop (Z.to_nat a) l = x ++ rest -> b = a + len x ->
  py_slice l a b = x.
Proof.
  intros Ha Hd ->.
  destruct (decide (Z.to_nat a <= length l)%nat) as [Hle|Hgt].
  - rewrite <- (take_drop (Z.to_nat a) l), Hd.
    apply py_slice_middle. unfold len. rewrite length_take. lia.
  - rewrite drop_ge in Hd by lia.
    destruct x; [|discriminate]. unfold py_slice, py_bound, len. cbn [length].
    destruct (Z.ltb_spec a 0); [lia|].
    destruct (Z.ltb_spec (a + Z.of_nat 0) 0); [lia|].
    rewrite !Z.min_r by lia. rewrite Nat.sub_diag. apply take_0.
Qed.

Lemma py_getitem_drop {A : Type} (l rest : list A) (x : A) (a : Z) :
  0 <= a -> drop (Z.to_nat a) l = x :: rest -> py_getitem l a = Ok x.
Proof.
  intros Ha Hd. rewrite py_getitem_nonneg by done.
  rewrite <- (Nat.add_0_r (Z.to_nat a)), <- lookup_drop, Hd. done.
Qed.

Ltac eval_tag_tests :=
  repeat
    match goal with
    | |- context [?a =? ?b] =>
        let c := eval vm_compute in (a =? b) in
        change (a =? b) with c; cbv iota
    end.

Lemma _SLPToString_payload tag buf iid ind v rest :
  tag ∈ slp_tags ->
  0 <= iid + ind ->
  drop (Z.to_nat (iid + ind)) buf = le_bytes (payload_width tag) v ++ rest ->
  0 <= v < 256 ^ Z.of_nat (payload_width tag) ->
  _SLPToString tag buf iid ind =
    Ok (label_of tag, literal tag v, ind + Z.of_nat (payload_width tag)).
Proof.
  intros Htag Hstart Hdrop Hv.
  apply slp_tags_cases in Htag
    as [->|[->|[->|[->|[->|[->|[->| ->]]]]]]];
    unfold _SLPToString, label_of, literal;
    match goal with
    | |- context [payload_width ?t] =>
        let w := eval vm_compute in (payload_width t) in
        change (payload_width t) with w in *
    end;
    eval_tag_tests; cbn [orb];
    try (cbn [Z.of_nat]; rewrite Z.add_0_r; reflexivity).
  - (* NumberTag *)
    rewrite (py_slice_drop _ (le_bytes 8 v) rest) by
      (try done; rewrite ?le_bytes_length; unfold len; rewrite ?le_bytes_length; lia).
    rewrite le_bytes_bytes. cbn [rbind]. unfold unpack_le.
    rewrite le_bytes_length. cbn [Nat.eqb]. by rewrite le_value_le_bytes.
  - (* LongStringTag *)
    rewrite (py_slice_drop _ (le_bytes 4 v) rest) by
      (try done; unfold len; rewrite ?le_bytes_length; lia).
    rewrite le_bytes_bytes. cbn [rbind]. unfold unpack_le.
    rewrite le_bytes_length. cbn [Nat.eqb]. by rewrite le_value_le_bytes.
  - (* ShortStringTag *)
    rewrite (py_slice_drop _ (le_bytes 2 v) rest) by
      (try done; unfold len; rewrite ?le_bytes_length; lia).
    rewrite le_bytes_bytes. cbn [rbind]. unfold unpack_le.
    rewrite le_bytes_length. cbn [Nat.eqb]. by rewrite le_value_le_bytes.
  - (* ByteStringTag *)
    cbn [le_bytes app] in Hdrop.
    rewrite (py_getitem_drop _ _ _ _ Hstart Hdrop). cbn [rbind].
    change (256 ^ Z.of_nat 1) with 256 in Hv. by rewrite Z.mod_small.
  - (* IntegerTag *)
    rewrite (py_slice_drop _ (le_bytes 4 v) rest) by
      (try done; unfold len; rewrite ?le_bytes_length; lia).
    rewrite le_bytes_bytes. cbn [rbind]. unfold unpack_le.
    rewrite le_bytes_length. cbn [Nat.eqb]. by rewrite le_value_le_bytes.
Qed.

Lemma decode_loop_payloads tag buf id vs : forall t arr ind rest,
  tag ∈ slp_tags ->
  0 <= id + ind ->
  drop (Z.to_nat (id + ind)) buf
    = concat (map (le_bytes (payload_width tag)) vs) ++ rest ->
  Forall (fun v => 0 <= v < 256 ^ Z.of_nat (payload_width tag)) vs ->
  decode_loop (length vs) tag buf id t arr ind =
    Ok (match vs with [] => t | _ :: _ => Some (label_of tag) end,
        arr ++ map (literal tag) vs).
Proof.
  induction vs as [|v vs IH]; intros t arr ind rest Htag Hstart Hdrop Hvs;
    cbn [length decode_loop map].
  - by rewrite app_nil_r.
  - apply Forall_cons in Hvs as [Hv Hvs].
    cbn [map concat] in Hdrop. rewrite <- app_assoc in Hdrop.
    rewrite (_SLPToString_payload _ _ _ _ v _ Htag Hstart Hdrop Hv).
    cbn [rbind fst snd].
    rewrite (IH _ _ _ rest Htag).
    + rewrite <- app_assoc. cbn [app]. by destruct vs.
    + lia.
    + replace (Z.to_nat (id + (ind + Z.of_nat (payload_width tag))))
        with (Z.to_nat (id + ind) + payload_width tag)%nat by lia.
      rewrite <- drop_drop, Hdrop.
      rewrite <- (le_bytes_length (payload_width tag) v) at 1.
      by rewrite drop_app_length.
    + done.
Qed.


Lemma tag_byte_short tag c :
  tag ∈ slp_tags -> 0 <= c <= 15 ->
  Z.land (tag + c) 0x80 = 0 /\ Z.land (tag + c) 0x0f = c /\
  Z.land (tag + c) TagMask = tag.
Proof.
  intros Htag Hc.
  assert (forall t,
    forallb (fun c => (Z.land (t + c) 0x80 =? 0) && (Z.land (t + c) 0x0f =? c)
                      && (Z.land (t + c) TagMask =? t))
            (map Z.of_nat (seq 0 16)) = true ->
    Z.land (t + c) 0x80 = 0 /\ Z.land (t + c) 0x0f = c /\
    Z.land (t + c) TagMask = t) as Hcheck.
  { intros t H. pose proof (forall_below _ 16 H c ltac:(lia)) as Hb.
    cbv beta in Hb. apply andb_true_iff in Hb as [Hb H3].
    apply andb_true_iff in Hb as [H1 H2].
    by apply Z.eqb_eq in H1, H2, H3. }
  apply slp_tags_cases in Htag
    as [->|[->|[->|[->|[->|[->|[->| ->]]]]]]];
    apply Hcheck; vm_compute; reflexivity.
Qed.

Lemma tag_byte_extended tag q :
  tag ∈ slp_tags -> 0 <= q <= 15 ->
  Z.land (0x80 + tag + q) 0x80 <> 0 /\ Z.land (0x80 + tag + q) 0x0f = q /\
  Z.land (0x80 + tag + q) TagMask = tag.
Proof.
  intros Htag Hq.
  assert (forall t,
    forallb (fun q => negb (Z.land (0x80 + t + q) 0x80 =? 0)
                      && (Z.land (0x80 + t + q) 0x0f =? q)
                      && (Z.land (0x80 + t + q) TagMask =? t))
            (map Z.of_nat (seq 0 16)) = true ->
    Z.land (0x80 + t + q) 0x80 <> 0 /\ Z.land (0x80 + t + q) 0x0f = q /\
    Z.land (0x80 + t + q) TagMask = t) as Hcheck.
  { intros t H. pose proof (forall_below _ 16 H q ltac:(lia)) as Hb.
    cbv beta in Hb. apply andb_true_iff in Hb as [Hb H3].
    apply andb_true_iff in Hb as [H1 H2].
    apply negb_true_iff, Z.eqb_neq in H1. by apply Z.eqb_eq in H2, H3. }
  apply slp_tags_cases in Htag
    as [->|[->|[->|[->|[->|[->|[->| ->]]]]]]];
    apply Hcheck; vm_compute; reflexivity.
Qed.

Lemma count_of_bytes q r :
  0 <= q -> 0 <= r < 256 -> Z.lor (Z.shiftl q 8) r = q * 256 + r.
Proof.
  intros Hq Hr. rewrite Z.shiftl_mul_pow2 by lia. change (2 ^ 8) with 256.
  apply (lor_add _ _ 8); [lia|done|].
  rewrite Z.land_ones by lia. change (2 ^ 8) with 256. apply Z.mod_mul. lia.
Qed.

Lemma _checkBufferTag_header tag count buf id rest :
  tag ∈ slp_tags -> 0 <= count <= 4095 -> 0 <= id ->
  drop (Z.to_nat id) buf = group_header tag count ++ rest ->
  _checkBufferTag buf id = Ok (count, tag) /\
  first_ind (count, tag) = len (group_header tag count).
Proof.
  intros Htag Hcount Hid Hdrop. unfold _checkBufferTag, group_header in *.
  destruct (Z.leb_spec count 15) as [Hs|Hl].
  - destruct (tag_byte_short tag count Htag ltac:(lia)) as (H1 & H2 & H3).
    cbn [app] in Hdrop.
    rewrite (py_getitem_drop _ _ _ _ Hid Hdrop). cbn [rbind].
    rewrite H1, H2, H3. cbn [Z.eqb negb]. split; [done|].
    unfold first_ind. cbn [fst].
    by destruct (Z.gtb_spec count 15); [lia|].
  - assert (0 <= count `div` 256 <= 15) as Hq
      by (Z.div_mod_to_equations; lia).
    destruct (tag_byte_extended tag (count `div` 256) Htag Hq)
      as (H1 & H2 & H3).
    cbn [app] in Hdrop.
    rewrite (py_getitem_drop _ _ _ _ Hid Hdrop). cbn [rbind].
    destruct (Z.eqb_spec (Z.land (0x80 + tag + count `div` 256) 0x80) 0)
      as [|_]; [done|].
    cbn [negb].
    assert (drop (Z.to_nat (id + 1)) buf = count `mod` 256 :: rest) as Hnext.
    { replace (Z.to_nat (id + 1)) with (Z.to_nat id + 1)%nat by lia.
      by rewrite <- drop_drop, Hdrop. }
    assert (0 <= id + 1) as Hid1 by lia.
    rewrite (py_getitem_drop _ _ _ _ Hid1 Hnext). cbn [rbind].
    rewrite H2, H3.
    rewrite count_of_bytes by (Z.div_mod_to_equations; lia).
    replace (count `div` 256 * 256 + count `mod` 256) with count
      by (Z.div_mod_to_equations; lia).
    split; [done|]. unfold first_ind. cbn [fst].
    by destruct (Z.gtb_spec count 15); [|lia].
Qed.

(** X11. Decoding a group. If the buffer holds, at an offset below the
    size the file header records, a group header for [n <= 4095] literals
    of one of the eight kinds (the one byte [tag + n] up to 15 literals,
    otherwise the two bytes [0x80 + tag + n // 256] and [n % 256]),
    followed by the payloads, each in the width of the kind, least
    significant byte first, then the accessor returns the label of the
    kind and exactly these values, whatever precedes and follows the group
    in the buffer. For [n = 0] it returns [(None, [])]. *)
Theorem X11_accessor_decodes_group (k : slp_buffer) (o : Container)
    (tag : Z) (vs : list Z) (pre post : list Z) (n : Z) :
  tag ∈ slp_tags ->
  Forall (fun v => 0 <= v < 256 ^ Z.of_nat (payload_width tag)) vs ->
  len vs <= 4095 ->
  buffer_of k o = pre ++ encode_group tag vs ++ post ->
  header o !! size_key k = Some n ->
  len pre < n ->
  accessor k (len pre) o =
    Ok (match vs with [] => None | _ :: _ => Some (label_of tag) end,
        map (literal tag) vs).
Proof.
  intros Htag Hvs Hlen Hbuf Hsize Hn.
  destruct (accessor_unfold k (len pre) o) as [msg ->].
  unfold dict_get. destruct (Z.leb_spec 0 (len pre)); [|unfold len in *; lia].
  cbn [rbind]. rewrite Hsize. cbn [of_option rbind].
  destruct (Z.ltb_spec (len pre) n); [|lia].
  rewrite Hbuf. unfold encode_group in *.
  set (hd := group_header tag (len vs)).
  set (payload := concat (map (le_bytes (payload_width tag)) vs)).
  assert (drop (Z.to_nat (len pre)) (pre ++ (hd ++ payload) ++ post)
          = hd ++ payload ++ post) as Hdrop.
  { unfold len. rewrite Nat2Z.id, drop_app_length. by rewrite <- app_assoc. }
  assert (0 <= len vs <= 4095) as Hcount by (unfold len in *; lia).
  assert (0 <= len pre) as Hpre by (unfold len; lia).
  destruct (_checkBufferTag_header tag (len vs) _ (len pre) _ Htag
              Hcount Hpre Hdrop) as [-> Hind].
  cbn [rbind fst snd]. unfold len at 1. rewrite Nat2Z.id.
  rewrite (decode_loop_payloads tag _ (len pre) vs None [] _ post Htag);
    [done| | |done].
  - rewrite Hind. unfold len. lia.
  - rewrite Hind. fold hd.
    replace (Z.to_nat (len pre + len hd))
      with (Z.to_nat (len pre) + length hd)%nat by (unfold len; lia).
    rewrite <- drop_drop, Hdrop. by rewrite drop_app_length.
Qed.


Lemma getFunction_inv {Inst : Type} INVALID_LENGTH
    (disassemble : list Z -> result (list Inst)) fid disasm o
    name p r s insts h :
  (getFunction INVALID_LENGTH disassemble fid disasm o).1
    = Ok (name, p, r, s, insts, h) ->
  0 <= fid /\
  exists count offset size,
    header o !! "functionCount"%string = Some count /\ fid < count /\
    functionHeaders o !! Z.to_nat fid = Some h /\
    fields h !! "offset"%string = Some offset /\
    fields h !! "paramCount"%string = Some p /\
    fields h !! "frameSize"%string = Some r /\
    fields h !! "environmentSize"%string = Some s /\
    fields h !! "bytecodeSizeInBytes"%string = Some size /\
    let start := offset - instOffset o in
    match insts with
    | Raw bc => disasm = false /\ bc = py_slice (inst o) start (start + size)
    | Asm l =>
        disasm = true /\
        disassemble (py_slice (inst o) start (start + size)) = Ok l
    end.
Proof.
  unfold getFunction. unfold_method. unfold dict_get.
  destruct (Z.leb_spec 0 fid) as [Hfid|]; cbn [fst snd]; [|discriminate].
  destruct (header o !! "functionCount"%string) as [count|] eqn:Hcount;
    cbn [of_option fst snd]; [|discriminate].
  destruct (Z.ltb_spec fid count) as [Hlt|]; cbn [fst snd]; [|discriminate].
  rewrite py_getitem_nonneg by done.
  destruct (functionHeaders o !! Z.to_nat fid) as [h0|] eqn:Hh0;
    cbn [of_option fst snd]; [|discriminate].
  destruct (fields h0 !! "offset"%string) as [offset|] eqn:Hoff;
    cbn [of_option fst snd]; [|discriminate].
  destruct (fields h0 !! "paramCount"%string) as [p0|] eqn:Hp;
    cbn [of_option fst snd]; [|discriminate].
  destruct (fields h0 !! "frameSize"%string) as [r0|] eqn:Hr;
    cbn [of_option fst snd]; [|discriminate].
  destruct (fields h0 !! "environmentSize"%string) as [s0|] eqn:Hs;
    cbn [of_option fst snd]; [|discriminate].
  destruct (fields h0 !! "bytecodeSizeInBytes"%string) as [size|] eqn:Hsz;
    cbn [of_option fst snd]; [|discriminate].
  destruct (fields h0 !! "functionName"%string) as [fname|];
    cbn [of_option fst snd]; [|discriminate].
  set (bc := py_slice (inst o) (offset - instOffset o)
               (offset - instOffset o + size)).
  intros H. split; [done|]. exists count, offset, size.
  destruct disasm.
  - destruct (disassemble bc) as [l|] eqn:Hl; cbn [rbind fst snd] in H;
      [|discriminate].
    destruct (getString INVALID_LENGTH fname o) as [[nm|] o'];
      cbn [fst snd] in H; [|discriminate].
    injection H as <- <- <- <- <- <-. by repeat split.
  - destruct (getString INVALID_LENGTH fname o) as [[nm|] o'];
      cbn [fst snd] in H; [|discriminate].
    injection H as <- <- <- <- <- <-. by repeat split.
Qed.

Lemma set_field_id key v h :
  fields h !! key = Some v -> set_field key v h = h.
Proof.
  intros H. unfold set_field. rewrite insert_id by done. by destruct h.
Qed.

Lemma set_params_id {Inst : Type} (func : Func Inst) h :
  fields h !! "paramCount"%string = Some (paramCount func) ->
  fields h !! "frameSize"%string = Some (registerCount func) ->
  fields h !! "environmentSize"%string = Some (symbolCount func) ->
  set_params func h = h.
Proof.
  intros H1 H2 H3. unfold set_params.
  by rewrite (set_field_id _ _ _ H1), (set_field_id _ _ _ H2),
    (set_field_id _ _ _ H3).
Qed.

Lemma land_not32_clear f : Z.land f 32 = 0 -> Z.land f (Z.lnot 32) = f.
Proof.
  intros H. apply Z.bits_inj'. intros n Hn.
  rewrite Z.land_spec, Z.lnot_spec by done.
  destruct (Z.eq_dec n 5) as [->|Hne].
  - assert (Z.testbit f 5 = false) as ->; [|done].
    assert (Z.testbit (Z.land f 32) 5 = false) as Hb by (by rewrite H).
    rewrite Z.land_spec in Hb. change 32 with (2 ^ 5) in Hb.
    rewrite Z.pow2_bits_eqb in Hb by lia. cbn in Hb.
    by rewrite andb_true_r in Hb.
  - change 32 with (2 ^ 5). rewrite Z.pow2_bits_eqb by lia.
    destruct (Z.eqb_spec 5 n); [lia|]. cbn. apply andb_true_r.
Qed.

(** A header whose overflow bookkeeping agrees with its size is left as it
    is when the size does not change. *)
Lemma resize_same (v : version) (h : FunctionHeader) (size : Z) :
  fields h !! "bytecodeSizeInBytes"%string = Some size ->
  (32767 < size -> overflowed h = true /\ is_Some (small h)) ->
  (v = V86 -> size <= 32767 -> overflowed h = false /\ small h = None) ->
  match v with V86 => HBC86.resize | V96 => HBC96.resize end size size h = h.
Proof.
  intros Hsize Hbig Hsmall.
  assert (max_small_size = 32767) as Hmax by reflexivity.
  assert (Z.shiftl 1 15 - 1 = 32767) as Hmax' by reflexivity.
  assert (overflowed_bit = 32) as Hbit by reflexivity.
  assert (Z.shiftl 1 5 = 32) as Hbit' by reflexivity.
  assert (32767 < size -> exists f sm,
            fields h !! "flags"%string = Some f /\ Z.lor f 32 = f /\
            small h = Some sm) as Hbig'.
  { intros Hlt. destruct (Hbig Hlt) as [Hov [sm Hsm]].
    unfold overflowed in Hov. rewrite Hbit' in Hov.
    destruct (fields h !! "flags"%string) as [f|]; [|discriminate].
    exists f, sm. split; [done|]. split; [|done].
    apply lor_32_set. apply negb_true_iff, Z.eqb_neq in Hov. done. }
  destruct v.
  - unfold HBC86.resize. rewrite Hmax, Hbit.
    destruct (Z.gtb_spec size 32767) as [Hgt|Hle].
    + destruct (Hbig' Hgt) as (f & sm & Hf & Hlor & Hsm).
      rewrite Hf. unfold flags_or_zero. rewrite Hf. cbn [from_option id].
      rewrite Hlor. rewrite (set_field_id _ _ _ Hf). rewrite Hsm.
      by apply set_field_id.
    + destruct (Hsmall eq_refl Hle) as [Hov Hsm].
      rewrite Z.leb_refl. cbn [orb].
      rewrite (set_field_id _ _ _ Hsize).
      unfold overflowed in Hov. rewrite Hbit' in Hov.
      destruct (fields h !! "flags"%string) as [f|] eqn:Hf.
      * apply negb_false_iff, Z.eqb_eq in Hov.
        rewrite (land_not32_clear _ Hov). rewrite (set_field_id _ _ _ Hf).
        by rewrite Hsm.
      * by rewrite Hsm.
  - unfold HBC96.resize. rewrite Hmax', Hbit'.
    destruct (Z.gtb_spec size 32767) as [Hgt|Hle].
    + destruct (Hbig' Hgt) as (f & sm & Hf & Hlor & Hsm).
      unfold flags_or_zero. rewrite Hf. cbn [from_option id].
      rewrite Hlor. rewrite (set_field_id _ _ _ Hf). rewrite Hsm.
      by apply set_field_id.
    + by apply set_field_id.
Qed.

Lemma py_slice_in_range {A : Type} (l : list A) (start size : Z) :
  0 <= start -> 0 <= size -> start + size <= len l ->
  let bc := py_slice l start (start + size) in
  len bc = size /\
  take (Z.to_nat start) l ++ bc ++ drop (Z.to_nat start + length bc) l = l.
Proof.
  intros H1 H2 H3. cbn zeta. unfold py_slice, py_bound, len in *.
  destruct (Z.ltb_spec start 0); [lia|].
  destruct (Z.ltb_spec (start + size) 0); [lia|].
  rewrite !Z.min_l by lia.
  replace (Z.to_nat (start + size) - Z.to_nat start)%nat
    with (Z.to_nat size) by lia.
  assert (length (take (Z.to_nat size) (drop (Z.to_nat start) l))
          = Z.to_nat size) as Hlen.
  { rewrite length_take, length_drop. lia. }
  rewrite Hlen. split; [lia|].
  rewrite <- drop_drop. rewrite take_drop. apply take_drop.
Qed.

(** X12. Writing back what was read. If [getFunction(fid, disasm)]
    returns, the bytecode of the function lies inside the instruction
    buffer ([0 <= start], [0 <= size], [start + size <= len(inst)]), and
    the overflow bookkeeping of the header agrees with its size (above
    32767 bytes: bit 5 of flags set and a "small" dict present; for
    [HBC86] up to 32767 bytes: bit 5 clear and no "small" dict), then
    [setFunction] of either class with the tuple that [getFunction]
    returned returns and leaves the container exactly as it was. With
    [disasm=True] this needs [assemble] to undo [disassemble]. *)
Theorem X12_setFunction_of_getFunction {Inst : Type} (v : version)
    (assemble : list Inst -> result (list Z))
    (disassemble : list Z -> result (list Inst)) (INVALID_LENGTH : Z)
    (fid : Z) (disasm : bool) (o : Container)
    (name : pystr) (p r s : Z) (insts : Insts Inst) (h : FunctionHeader)
    (offset size : Z) :
  (getFunction INVALID_LENGTH disassemble fid disasm o).1
    = Ok (name, p, r, s, insts, h) ->
  (disasm = true ->
   forall bc l, disassemble bc = Ok l -> assemble l = Ok bc) ->
  fields h !! "offset"%string = Some offset ->
  fields h !! "bytecodeSizeInBytes"%string = Some size ->
  0 <= offset - instOffset o -> 0 <= size ->
  offset - instOffset o + size <= len (inst o) ->
  (32767 < size -> overflowed h = true /\ is_Some (small h)) ->
  (v = V86 -> size <= 32767 -> overflowed h = false /\ small h = None) ->
  setFunction v assemble fid (mkFunc name p r s insts) o = (Ok tt, o).
Proof.
  intros Hget Hinv Hoff Hsize Hstart Hnn Hend Hbig Hsmall.
  apply getFunction_inv in Hget
    as (Hfid & count & offset' & size' & Hcount & Hlt & Hh & Hoff' & Hp & Hr
        & Hs & Hsize' & Hinsts).
  rewrite Hoff in Hoff'. rewrite Hsize in Hsize'.
  injection Hoff' as <-. injection Hsize' as <-. cbn zeta in Hinsts.
  set (start := offset - instOffset o) in *.
  set (bc := py_slice (inst o) start (start + size)) in *.
  destruct (py_slice_in_range (inst o) start size Hstart Hnn Hend)
    as [Hlen Hsame]. fold bc in Hlen, Hsame.
  set (func := mkFunc name p r s insts).
  assert (bytecode assemble func = Ok bc) as Hbc.
  { unfold bytecode, func. cbn.
    destruct insts as [bc'|l].
    - destruct Hinsts as [_ ->]. done.
    - destruct Hinsts as [Hd Hl]. by apply (Hinv Hd). }
  assert (v = V96 -> len bc <= size -> start + len bc <= len (inst o)) as H96
    by (intros _ _; lia).
  destruct (setFunction_as_cases v assemble)
    as (grows & resize & _ & _ & _ & H86r & H96r & ->).
  rewrite (setFunction_cases_run grows resize assemble fid func o
             count h offset size bc Hfid Hcount Hlt Hh Hoff Hsize Hbc).
  cbn zeta. fold start.
  destruct (Z.gtb_spec (start + len bc) (len (inst o))) as [|_]; [lia|].
  rewrite andb_false_r.
  rewrite memcpy_in_range by lia. cbn [fst snd].
  rewrite Hsame, Hlen.
  rewrite (set_params_id func h Hp Hr Hs).
  assert (resize size size h = h) as ->.
  { pose proof (resize_same v h size Hsize Hbig Hsmall) as Hrs.
    destruct v; [rewrite (H86r eq_refl)|rewrite (H96r eq_refl)]; exact Hrs. }
  rewrite list_insert_id by done.
  by destruct o.
Qed.


(** ** The two classes side by side *)

Lemma resize_86_96_below size new h :
  new <= 32767 -> overflowed h = false -> small h = None ->
  HBC86.resize size new h = HBC96.resize size new h.
Proof.
  intros Hnew Hov Hsm.
  rewrite resize_86_below, resize_96_below by done.
  unfold set_field. rewrite Hsm. f_equal.
  unfold overflowed in Hov. change (Z.shiftl 1 5) with 32 in Hov.
  destruct (fields h !! "flags"%string) as [f|] eqn:Hf; [|done].
  apply negb_false_iff, Z.eqb_eq in Hov.
  rewrite (land_not32_clear _ Hov).
  apply insert_id. by rewrite lookup_insert_ne.
Qed.

(** X13. Where the two classes agree. For a valid function ID and a
    payload of bytecode [bc], [HBC86.setFunction] and [HBC96.setFunction]
    have the same outcome and leave the same container whenever a payload
    of at most 32767 bytes meets a header that is not marked as overflowed
    (bit 5 of flags clear, no "small" dict), and a payload no longer than
    the recorded size ends inside the instruction buffer. Above 32767
    bytes the bookkeeping of the two classes is the same. *)
Theorem X13_classes_agree {Inst : Type}
    (assemble : list Inst -> result (list Z)) (fid : Z) (func : Func Inst)
    (o : Container) (count : Z) (h : FunctionHeader) (offset size : Z)
    (bc : list Z) :
  0 <= fid ->
  header o !! "functionCount"%string = Some count -> fid < count ->
  functionHeaders o !! Z.to_nat fid = Some h ->
  fields h !! "offset"%string = Some offset ->
  fields h !! "bytecodeSizeInBytes"%string = Some size ->
  bytecode assemble func = Ok bc ->
  (len bc <= 32767 -> overflowed h = false /\ small h = None) ->
  (len bc <= size -> offset - instOffset o + len bc <= len (inst o)) ->
  setFunction V86 assemble fid func o = setFunction V96 assemble fid func o.
Proof.
  intros Hfid Hcount Hlt Hh Hoff Hsize Hbc Hclean Hfit.
  cbn [setFunction].
  rewrite HBC86_setFunction_cases, HBC96_setFunction_cases.
  rewrite !(setFunction_cases_run _ _ assemble fid func o
              count h offset size bc Hfid Hcount Hlt Hh Hoff Hsize Hbc).
  cbn zeta. set (start := offset - instOffset o) in *.
  assert (HBC86.resize size (len bc) (set_params func h)
          = HBC96.resize size (len bc) (set_params func h)) as ->.
  { destruct (Z.lt_ge_cases 32767 (len bc)) as [Hbig|Hsmall].
    - by apply resize_86_96_above.
    - destruct (Hclean ltac:(lia)) as [Hov Hsm].
      apply resize_86_96_below; [lia| |by rewrite small_set_params].
      unfold set_params. by rewrite !overflowed_set_other. }
  cbn [andb].
  destruct (Z.gtb_spec (len bc) size) as [Hgt|Hle]; cbn [andb]; [done|].
  destruct (Z.gtb_spec (start + len bc) (len (inst o))) as [Hover|_]; [|done].
  specialize (Hfit Hle). lia.
Qed.

(** ** The overflowed mark under [HBC96] *)

Lemma HBC96_resize_keeps size new h :
  (overflowed h = true -> overflowed (HBC96.resize size new h) = true) /\
  (is_Some (small h) -> is_Some (small (HBC96.resize size new h))).
Proof.
  destruct (Z.lt_ge_cases 32767 new) as [Hbig|Hsmall].
  - rewrite resize_96_above by done. cbn zeta. split.
    + intros _. unfold overflowed. cbn [fields].
      rewrite lookup_insert_ne by done. rewrite lookup_insert_eq.
      change (Z.shiftl 1 5) with 32. by rewrite land_lor_32.
    + intros _. cbn [small]. by eexists.
  - rewrite resize_96_below by lia. split.
    + by rewrite overflowed_set_other.
    + done.
Qed.

Lemma HBC96_run_call_keeps {Inst : Type}
    (assemble : list Inst -> result (list Z)) (INVALID_LENGTH : Z)
    (c : call Inst) (o : Container) (i : nat) (h : FunctionHeader) :
  functionHeaders o !! i = Some h ->
  exists h',
    functionHeaders (run_call V96 assemble INVALID_LENGTH o c) !! i = Some h' /\
    (overflowed h = true -> overflowed h' = true) /\
    (is_Some (small h) -> is_Some (small h')).
Proof.
  intros Hh. destruct c as [fid func|sid val]; unfold run_call.
  - destruct (setFunction_as_cases V96 assemble)
      as (grows & resize & _ & _ & _ & _ & H96 & Heq).
    rewrite Heq. rewrite (H96 eq_refl).
    destruct (setFunction_cases_shape grows HBC96.resize assemble fid func o)
      as [->|(h0 & Hfid & Hh0 & [-> | (size & new & buf & Hbuf & ->)])];
      [by exists h| |];
      cbn [functionHeaders set_functionHeaders set_inst].
    + destruct (decide (i = Z.to_nat fid)) as [->|Hne].
      * rewrite Hh in Hh0. injection Hh0 as <-.
        exists (set_params func h).
        split; [apply list_lookup_insert_eq; by apply lookup_lt_Some in Hh|].
        split; [|done]. unfold set_params. by rewrite !overflowed_set_other.
      * exists h. by rewrite list_lookup_insert_ne.
    + destruct (decide (i = Z.to_nat fid)) as [->|Hne].
      * rewrite Hh in Hh0. injection Hh0 as <-.
        exists (HBC96.resize size new (set_params func h)).
        split; [apply list_lookup_insert_eq; by apply lookup_lt_Some in Hh|].
        destruct (HBC96_resize_keeps size new (set_params func h)) as [H1 H2].
        split.
        -- intros Hov. apply H1. unfold set_params.
           by rewrite !overflowed_set_other.
        -- intros Hsm. apply H2. by rewrite small_set_params.
      * exists h. by rewrite list_lookup_insert_ne.
  - destruct (setString_shape INVALID_LENGTH sid val o) as (b & _ & ->).
    by exists h.
Qed.

(** X14. Under [HBC96] the overflow mark is never removed. Along any
    sequence of [setFunction] and [setString] calls of [HBC96], returning
    or raising, a function header that has bit 5 of its flags set keeps it
    set, and keeps a "small" dict if it has one. *)
Theorem X14_HBC96_overflow_is_kept {Inst : Type}
    (assemble : list Inst -> result (list Z)) (INVALID_LENGTH : Z)
    (cs : list (call Inst)) (o : Container) (i : nat) (h : FunctionHeader) :
  functionHeaders o !! i = Some h ->
  overflowed h = true ->
  exists h',
    functionHeaders (run_calls V96 assemble INVALID_LENGTH cs o) !! i
      = Some h' /\
    overflowed h' = true /\
    (is_Some (small h) -> is_Some (small h')).
Proof.
  revert o h. unfold run_calls.
  induction cs as [|c cs IH]; intros o h Hh Hov; cbn [foldl].
  - by exists h.
  - destruct (HBC96_run_call_keeps assemble INVALID_LENGTH c o i h Hh)
      as (h1 & Hh1 & Hov1 & Hsm1).
    destruct (IH _ h1 Hh1 (Hov1 Hov)) as (h' & Hh' & Hov' & Hsm').
    exists h'. split; [done|]. split; [done|]. intros Hsm.
    apply Hsm'. by apply Hsm1.
Qed.

(** ** The size of a group *)

Lemma count_bound hi lo :
  0 <= lo < 256 -> 0 <= Z.lor (Z.shiftl (Z.land hi 0x0f) 8) lo <= 4095.
Proof.
  intros Hlo.
  assert (0 <= Z.land hi 0x0f < 16) as Hhi.
  { change 0x0f with (Z.ones 4). rewrite Z.land_ones by lia.
    apply Z.mod_pos_bound. lia. }
  rewrite count_of_bytes by lia. lia.
Qed.

Lemma _checkBufferTag_count buf id tag :
  Forall (fun b => 0 <= b < 256) buf ->
  _checkBufferTag buf id = Ok tag -> 0 <= tag.1 <= 4095.
Proof.
  intros Hbytes. unfold _checkBufferTag.
  destruct (py_getitem buf id) as [keyTag|]; cbn [rbind]; [|discriminate].
  assert (0 <= Z.land keyTag 0x0f < 16) as Hlow.
  { change 0x0f with (Z.ones 4). rewrite Z.land_ones by lia.
    apply Z.mod_pos_bound. lia. }
  destruct (negb _).
  - destruct (py_getitem buf (id + 1)) as [next|] eqn:Hnext; cbn [rbind];
      [|discriminate].
    intros [= <-]. cbn [fst]. apply count_bound.
    unfold py_getitem in Hnext.
    destruct (py_index (length buf) (id + 1)) as [j|]; [|discriminate].
    cbn in Hnext. destruct (buf !! j) as [b|] eqn:Hj; [|discriminate].
    injection Hnext as <-.
    rewrite Forall_lookup in Hbytes. by apply (Hbytes j).
  - intros [= <-]. cbn [fst]. lia.
Qed.

(** X15. At most 4095 literals. On a buffer of bytes, a call of
    [getArray], [getObjKey] or [getObjValue] that returns, returns at most
    4095 values: the count is the low four bits of the tag byte, extended
    by the next byte when bit 7 is set. *)
Theorem X15_group_size (k : slp_buffer) (id : Z) (o : Container)
    (t : option string) (arr : list value) :
  Forall (fun b => 0 <= b < 256) (buffer_of k o) ->
  accessor k id o = Ok (t, arr) ->
  len arr <= 4095.
Proof.
  intros Hbytes.
  destruct (accessor_unfold k id o) as [msg ->].
  intros H.
  destruct (0 <=? id); cbn [rbind] in H; [|discriminate].
  destruct (dict_get (header o) (size_key k)) as [n|]; cbn [rbind] in H;
    [|discriminate].
  destruct (id <? n); [|discriminate].
  destruct (_checkBufferTag (buffer_of k o) id) as [tag|] eqn:Et;
    cbn [rbind] in H; [|discriminate].
  apply (_checkBufferTag_count _ _ _ Hbytes) in Et.
  apply decode_loop_result in H as [Hlen _].
  unfold len. cbn [length] in Hlen. lia.
Qed.

(** ** Witnesses *)

Lemma X2_witness :
  (setString 255 0 [97; 98; 99; 100; 101] string_obj).2 = string_obj.
Proof.
  apply (X2_setString_validates_before_writing 255 0 [97; 98; 99; 100; 101]
           string_obj
           (AssertionError "Overflowed string length is not supported yet.")).
  - vm_compute. reflexivity.
  - discriminate.
Defined.

Lemma X5_witness :
  let start := 0x1000 - instOffset mock_obj in
  let buf :=
    inst mock_obj ++
    replicate (Z.to_nat (start + len [1; 2; 3] - len (inst mock_obj))) 0 in
  let r := setFunction V96 rejecting_assemble 0 (raw_func 1 2 [1; 2; 3])
             mock_obj in
  r.1 = Ok tt /\
  inst r.2 =
    take (Z.to_nat start) buf ++ [1; 2; 3] ++
    drop (Z.to_nat start + length [1; 2; 3]) buf /\
  len (inst r.2) = Z.max (len (inst mock_obj)) (start + len [1; 2; 3]) /\
  py_slice (inst r.2) start (start + len [1; 2; 3]) = [1; 2; 3].
Proof.
  apply (X5_setFunction_writes_bytecode V96 rejecting_assemble 0
           (raw_func 1 2 [1; 2; 3]) mock_obj 1 mock_header 0x1000 100
           [1; 2; 3]).
  - lia.
  - reflexivity.
  - lia.
  - reflexivity.
  - reflexivity.
  - reflexivity.
  - reflexivity.
  - vm_compute. discriminate.
  - intros _ _. vm_compute. discriminate.
Defined.

Lemma X6_witness :
  let r := setFunction V86 rejecting_assemble 0 (raw_func 3 4 [1; 2; 3])
             mock_obj in
  exists h',
    r.1 = Ok tt /\
    functionHeaders r.2 !! Z.to_nat 0 = Some h' /\
    getFunction 255 bytes_disassemble 0 false r.2 =
      (Ok ([116; 101; 115; 116], 3, 4, 0, Raw [1; 2; 3], h'), r.2) /\
    forall l, bytes_disassemble [1; 2; 3] = Ok l ->
      getFunction 255 bytes_disassemble 0 true r.2 =
        (Ok ([116; 101; 115; 116], 3, 4, 0, Asm l, h'), r.2).
Proof.
  apply (X6_getFunction_after_setFunction V86 rejecting_assemble
           bytes_disassemble 255 0 (raw_func 3 4 [1; 2; 3]) mock_obj 1
           mock_header 0x1000 100 0 [1; 2; 3]
           ([116; 101; 115; 116], (0, 0, 4))).
  - lia.
  - reflexivity.
  - lia.
  - reflexivity.
  - reflexivity.
  - reflexivity.
  - reflexivity.
  - vm_compute. reflexivity.
  - reflexivity.
  - vm_compute. discriminate.
  - intros H. discriminate H.
Defined.

Lemma X7_witness :
  let r := setString 255 0 [97; 98] string_obj in
  r.1 = Ok tt /\
  getString 255 0 r.2 = (Ok ([97; 98] ++ [115; 116], (0, 0, 4)), r.2).
Proof.
  apply (X7_getString_after_setString 255 0 [97; 98] string_obj 1 0 0 4
           [97; 98] [115; 116] [115; 116]).
  - lia.
  - reflexivity.
  - lia.
  - vm_compute. reflexivity.
  - reflexivity.
  - reflexivity.
  - vm_compute. discriminate.
  - lia.
  - vm_compute. discriminate.
  - vm_compute. reflexivity.
  - reflexivity.
  - reflexivity.
Defined.

Lemma X8_witness :
  let r := setString 255 0 [52; 52; 48; 48] utf16_obj in
  r.1 = Ok tt /\
  getString 255 0 r.2
    = (Ok (hex [0x44; 0x00] ++ hex [0x42; 0x00], (1, 0, 2 * 2)), r.2).
Proof.
  apply (X8_getString_after_setString_utf16 255 0 [52; 52; 48; 48] utf16_obj
           1 1 0 2 [0x44; 0x00] [0x42; 0x00]).
  - lia.
  - reflexivity.
  - lia.
  - vm_compute. reflexivity.
  - discriminate.
  - reflexivity.
  - vm_compute. discriminate.
  - lia.
  - vm_compute. discriminate.
  - vm_compute. reflexivity.
  - reflexivity.
Defined.

Lemma X9_witness :
  (len [0x44; 0x45; 0x46; 0x47; 0x48] <= 2 * 2 + 1 ->
   0 <= 0 ->
   0 + len [0x44; 0x45; 0x46; 0x47; 0x48] <= len (stringStorage utf16_obj) ->
   setString 255 0 [52; 52; 52; 53; 52; 54; 52; 55; 52; 56] utf16_obj =
     (Ok tt,
      set_stringStorage
        (take (Z.to_nat 0) (stringStorage utf16_obj) ++
         [0x44; 0x45; 0x46; 0x47; 0x48] ++
         drop (Z.to_nat 0 + length [0x44; 0x45; 0x46; 0x47; 0x48])
           (stringStorage utf16_obj)) utf16_obj)) /\
  (2 * 2 + 2 <= len [0x44; 0x45; 0x46; 0x47; 0x48] ->
   setString 255 0 [52; 52; 52; 53; 52; 54; 52; 55; 52; 56] utf16_obj =
     (Raise (AssertionError "Overflowed string length is not supported yet."),
      utf16_obj)).
Proof.
  apply (X9_setString_utf16_odd_length 255 0
           [52; 52; 52; 53; 52; 54; 52; 55; 52; 56] utf16_obj 1 1 0 2
           [0x44; 0x45; 0x46; 0x47; 0x48]).
  - lia.
  - reflexivity.
  - lia.
  - vm_compute. reflexivity.
  - discriminate.
  - reflexivity.
Defined.

Lemma X10_witness :
  exists keyTag,
    py_getitem (buffer_of ArrayBuffer (slp_obj short_string_buffer [] [])) 0
      = Ok keyTag /\
    Some "String"%string =
      match [VInt 1; VInt 2; VInt 3; VInt 4; VInt 5; VInt 6; VInt 7] with
      | [] => None
      | _ :: _ => Some (label_of (Z.land keyTag TagMask))
      end /\
    Some "String"%string <> Some "Empty"%string.
Proof.
  apply (X10_label_by_kind ArrayBuffer 0 (slp_obj short_string_buffer [] [])
           (Some "String"%string)
           [VInt 1; VInt 2; VInt 3; VInt 4; VInt 5; VInt 6; VInt 7]).
  vm_compute. reflexivity.
Defined.

Lemma X11_witness :
  accessor ObjKeyBuffer (len [0])
    (slp_obj [] (0 :: short_string_buffer) []) =
  Ok (Some (label_of ShortStringTag),
      map (literal ShortStringTag) [1; 2; 3; 4; 5; 6; 7]).
Proof.
  apply (X11_accessor_decodes_group ObjKeyBuffer
           (slp_obj [] (0 :: short_string_buffer) []) ShortStringTag
           [1; 2; 3; 4; 5; 6; 7] [0] [] 16).
  - apply list_elem_of_In. vm_compute. tauto.
  - change (payload_width ShortStringTag) with 2%nat.
    repeat (constructor; [lia|]). constructor.
  - vm_compute. discriminate.
  - reflexivity.
  - reflexivity.
  - vm_compute. reflexivity.
Defined.

Lemma X12_witness :
  setFunction V86 rejecting_assemble 0
    (mkFunc [116; 101; 115; 116] 1 2 0 (Raw (replicate 100 0))) mock_obj
  = (Ok tt, mock_obj).
Proof.
  apply (X12_setFunction_of_getFunction V86 rejecting_assemble
           bytes_disassemble 255 0 false mock_obj [116; 101; 115; 116] 1 2 0
           (Raw (replicate 100 0)) mock_header 0x1000 100).
  - vm_compute. reflexivity.
  - intros H. discriminate H.
  - reflexivity.
  - reflexivity.
  - vm_compute. discriminate.
  - lia.
  - vm_compute. discriminate.
  - intros H. lia.
  - intros _ _. split; reflexivity.
Defined.

Lemma X13_witness :
  setFunction V86 rejecting_assemble 0 (raw_func 1 2 [1; 2; 3]) mock_obj =
  setFunction V96 rejecting_assemble 0 (raw_func 1 2 [1; 2; 3]) mock_obj.
Proof.
  apply (X13_classes_agree rejecting_assemble 0 (raw_func 1 2 [1; 2; 3])
           mock_obj 1 mock_header 0x1000 100 [1; 2; 3]).
  - lia.
  - reflexivity.
  - lia.
  - reflexivity.
  - reflexivity.
  - reflexivity.
  - reflexivity.
  - intros _. split; reflexivity.
  - intros _. vm_compute. discriminate.
Defined.

Lemma X14_witness :
  exists h',
    functionHeaders
      (run_calls V96 rejecting_assemble 255
         [SetFunction 0 (raw_func 1 2 [1; 2; 3]); SetString 0 [97]]
         marked_obj) !! 0%nat = Some h' /\
    overflowed h' = true /\
    (is_Some (small marked_header) -> is_Some (small h')).
Proof.
  apply (X14_HBC96_overflow_is_kept rejecting_assemble 255
           [SetFunction 0 (raw_func 1 2 [1; 2; 3]); SetString 0 [97]]
           marked_obj 0%nat marked_header).
  - reflexivity.
  - reflexivity.
Defined.

Lemma X15_witness :
  len [VInt 1; VInt 2; VInt 3; VInt 4; VInt 5; VInt 6; VInt 7] <= 4095.
Proof.
  apply (X15_group_size ArrayBuffer 0 (slp_obj short_string_buffer [] [])
           (Some "String"%string)).
  - repeat (constructor; [lia|]). constructor.
  - vm_compute. reflexivity.
Defined.
